(** * ANTgen: activity / appliance synthesis engine

    A shallow embedding of the synthesis core of ANTgen
    (Tools.py, LoadModelComponents.py, ApplianceModel.py, ActivityModel.py,
    UserModel.py and the synthesis loop of antgen.py) together with the
    properties of its specification.

    Conventions of the embedding
    - Python integers are [Z]; a bitarray is a [list bool]; a numpy array of
      shape (1, n) is a [list Qc] of length n.
    - Python floats are idealised as exact rationals ([Qc]): comparisons and
      sums are the mathematical ones, rounding error is not modelled.
    - Mutable objects (the appliance models, the shared [powers] map, the
      event list, the bitmaps) live in an explicit state that is threaded
      through every call; appliance objects are referenced by address.
    - An uncaught Python exception is the result [Raise]; the unbounded
      loops (the state-machine walk, the redraw loop of the noise model)
      take fuel and give [OutOfFuel] when it runs out.
    - The two random sources of the program are kept apart: the state of
      the [random] module and the state of [numpy.random]. *)

From Stdlib Require Import ZArith QArith Qcanon Qround Lia Lqa Sorted.
From stdpp Require Import gmap strings list.

Local Open Scope Z_scope.

(** ** Tools.py *)

Module Tools.

Definition secs_per_day : Z := 86400.

(** [bitmap.index(True)], scanning from position [i]. *)
Fixpoint index_true (i : Z) (bitmap : list bool) : option Z :=
  match bitmap with
  | [] => None
  | b :: rest => if b then Some i else index_true (i + 1) rest
  end.

(** [get_earliest]: [bitmap.index(True)], [None] on [ValueError]. *)
Definition get_earliest (bitmap : list bool) : option Z :=
  index_true 0 bitmap.

(** [get_latest]: copy, reverse, earliest of the reversed copy, and
    [len(bitmap) - off] when that offset exists and is not negative. *)
Definition get_latest (bitmap : list bool) : option Z :=
  let bmp := reverse bitmap in
  match get_earliest bmp with
  | Some off =>
      if 0 <=? off then Some (Z.of_nat (length bitmap) - off) else None
  | None => None
  end.

(** [bitmap.count(value)] *)
Definition count (bitmap : list bool) (value : bool) : Z :=
  Z.of_nat (length (filter (λ b, b = value) bitmap)).

End Tools.

(** The bitmap of the specification's example: length 10, true exactly at
    the indices 3, 4 and 5. *)
Definition bitmap_3_4_5 : list bool :=
  [false; false; false; true; true; true; false; false; false; false].

(** ** Properties of the bitmap queries *)

Section ToolsFacts.

Lemma index_true_Some i bitmap k :
  Tools.index_true i bitmap = Some k →
  ∃ n : nat, k = i + Z.of_nat n ∧ bitmap !! n = Some true ∧
             ∀ m : nat, (m < n)%nat → bitmap !! m = Some false.
Proof.
  revert i. induction bitmap as [|b rest IH]; intros i H; simpl in H.
  - discriminate.
  - destruct b.
    + inversion H; subst. exists 0%nat. split; [lia|]. split; [done|].
      intros m Hm. lia.
    + destruct (IH _ H) as (n & -> & Hn & Hlt).
      exists (S n). split; [lia|]. split; [done|].
      intros [|m] Hm; [done|]. simpl. apply Hlt. lia.
Qed.

Lemma index_true_None i bitmap :
  Tools.index_true i bitmap = None ↔ ∀ n : nat, bitmap !! n ≠ Some true.
Proof.
  revert i. induction bitmap as [|b rest IH]; intros i; simpl.
  - split; [intros _ n; by rewrite lookup_nil | done].
  - destruct b.
    + split; [done|]. intros H. by specialize (H 0%nat).
    + rewrite IH. split.
      * intros H [|n]; [done | apply H].
      * intros H n. apply (H (S n)).
Qed.

Lemma index_true_first i bitmap (n : nat) :
  bitmap !! n = Some true →
  (∀ m : nat, (m < n)%nat → bitmap !! m = Some false) →
  Tools.index_true i bitmap = Some (i + Z.of_nat n).
Proof.
  revert i n. induction bitmap as [|b rest IH]; intros i n Hn Hlt.
  - by rewrite lookup_nil in Hn.
  - destruct n as [|n]; simpl in *.
    + inversion Hn; subst. f_equal. lia.
    + specialize (Hlt 0%nat ltac:(lia)) as H0. simpl in H0.
      inversion H0; subst.
      rewrite (IH (i + 1) n Hn).
      * f_equal. lia.
      * intros m Hm. apply (Hlt (S m)). lia.
Qed.

(** [get_earliest] is the index of the first true bit. *)
Lemma get_earliest_first bitmap (n : nat) :
  Tools.get_earliest bitmap = Some (Z.of_nat n) ↔
  bitmap !! n = Some true ∧ ∀ m : nat, (m < n)%nat → bitmap !! m = Some false.
Proof.
  unfold Tools.get_earliest. split.
  - intros H. apply index_true_Some in H as (k & Hk & ? & ?).
    assert (k = n) as -> by lia. done.
  - intros [Hn Hlt]. by rewrite (index_true_first 0 bitmap n).
Qed.

Lemma get_earliest_None bitmap :
  Tools.get_earliest bitmap = None ↔ ∀ n : nat, bitmap !! n ≠ Some true.
Proof. apply index_true_None. Qed.

Lemma get_earliest_range bitmap k :
  Tools.get_earliest bitmap = Some k → 0 ≤ k < Z.of_nat (length bitmap).
Proof.
  intros H. apply index_true_Some in H as (n & -> & Hn & _).
  apply lookup_lt_Some in Hn. lia.
Qed.

(** What [get_latest] computes: one more than the index of the last true
    bit. *)
Lemma get_latest_last bitmap (n : nat) :
  bitmap !! n = Some true →
  (∀ m : nat, (n < m)%nat → bitmap !! m ≠ Some true) →
  Tools.get_latest bitmap = Some (Z.of_nat n + 1).
Proof.
  intros Hn Hgt. unfold Tools.get_latest, Tools.get_earliest.
  pose proof (lookup_lt_Some _ _ _ Hn) as Hlen.
  rewrite (index_true_first 0 (reverse bitmap) (length bitmap - S n)).
  - case_match eqn:E; [f_equal; lia | apply Z.leb_gt in E; lia].
  - rewrite reverse_lookup by lia.
    replace (length bitmap - S (length bitmap - S n))%nat with n by lia. done.
  - intros m Hm. rewrite reverse_lookup by lia.
    specialize (Hgt (length bitmap - S m)%nat ltac:(lia)).
    destruct (bitmap !! (length bitmap - S m)%nat) as [[]|] eqn:E; try done.
    apply lookup_ge_None in E. lia.
Qed.

Lemma get_latest_None bitmap :
  Tools.get_latest bitmap = None ↔ ∀ n : nat, bitmap !! n ≠ Some true.
Proof.
  unfold Tools.get_latest. split.
  - intros H n Hn.
    destruct (Tools.get_earliest (reverse bitmap)) as [off|] eqn:E.
    + pose proof (get_earliest_range _ _ E). case_match eqn:E'; [done|].
      apply Z.leb_gt in E'. lia.
    + pose proof (proj1 (get_earliest_None _) E) as Hall.
      pose proof (lookup_lt_Some _ _ _ Hn) as Hlen.
      apply (Hall (length bitmap - S n)%nat).
      rewrite reverse_lookup by lia.
      replace (length bitmap - S (length bitmap - S n))%nat with n by lia.
      done.
  - intros Hall.
    destruct (Tools.get_earliest (reverse bitmap)) as [off|] eqn:E; [|done].
    apply index_true_Some in E as (n & _ & Hn & _).
    pose proof (lookup_lt_Some _ _ _ Hn) as Hlen. rewrite length_reverse in Hlen.
    rewrite reverse_lookup in Hn by lia. by apply Hall in Hn.
Qed.

End ToolsFacts.

(** C2 (the code at the specification's test vector).  On the bitmap of
    length 10 whose true bits are at 3, 4 and 5, [get_earliest] returns 3,
    but [get_latest] returns 6 and not 5: it returns [len - off] where the
    index of the last true bit is [len - 1 - off]. *)
Theorem get_latest_on_3_4_5 :
  Tools.get_earliest bitmap_3_4_5 = Some 3 ∧
  Tools.get_latest bitmap_3_4_5 = Some 6 ∧
  Tools.get_latest bitmap_3_4_5 ≠ Some 5.
Proof.
  split; [reflexivity|]. split; [reflexivity|].
  intros H. vm_compute in H. discriminate.
Qed.

(** ** Python and numpy primitives used by the program *)

Module Py.

(** The exceptions the modelled code can raise. *)
Inductive exn := ValueError | KeyError | AttributeError | IndexError.

(** Outcome of a call: a value, an uncaught exception, or fuel exhausted
    in one of the two unbounded loops. *)
Inductive res (A : Type) :=
  | Ok (a : A)
  | Raise (e : exn)
  | OutOfFuel.
Global Arguments Ok {A} a.
Global Arguments Raise {A} e.
Global Arguments OutOfFuel {A}.

(** [slice.indices(len)] for one bound of a step-1 slice: a negative bound
    counts from the end, and the result is clamped to [0, len]. *)
Definition clamp_index (len i : Z) : Z :=
  if i <? 0 then Z.max 0 (i + len) else Z.min i len.

(** [l[start:stop]] *)
Definition slice {A} (l : list A) (start stop : Z) : list A :=
  let len := Z.of_nat (length l) in
  let lo := clamp_index len start in
  let hi := clamp_index len stop in
  take (Z.to_nat (hi - lo)) (drop (Z.to_nat lo) l).

Fixpoint fill_go {A} (lo hi : Z) (v : A) (i : Z) (l : list A) : list A :=
  match l with
  | [] => []
  | x :: rest =>
      (if (lo <=? i) && (i <? hi) then v else x) :: fill_go lo hi v (i + 1) rest
  end.

(** [l[start:stop] = v] for a scalar [v] (bitarray slice assignment of a
    bool): every addressed position becomes [v], the length is unchanged. *)
Definition slice_fill {A} (l : list A) (start stop : Z) (v : A) : list A :=
  let len := Z.of_nat (length l) in
  fill_go (clamp_index len start) (clamp_index len stop) v 0 l.

(** [bitmap.all()] *)
Definition all (bitmap : list bool) : bool := forallb id bitmap.

(** [a & b] on bitarrays: [ValueError] unless the lengths agree. *)
Definition bitand (a b : list bool) : res (list bool) :=
  if decide (length a = length b) then Ok (zip_with andb a b)
  else Raise ValueError.

(** [~a] *)
Definition bitnot (a : list bool) : list bool := map negb a.

(** [bitarray(n)] followed by [setall(v)]; a negative length is a
    [ValueError]. *)
Definition bitarray (n : Z) (v : bool) : res (list bool) :=
  if n <? 0 then Raise ValueError else Ok (replicate (Z.to_nat n) v).

Definition Qcltb (x y : Qc) : bool :=
  match (x ?= y)%Qc with Lt => true | _ => false end.
Definition Qcleb (x y : Qc) : bool :=
  match (x ?= y)%Qc with Gt => false | _ => true end.

(** [round(x)] with one argument: nearest integer, ties to even. *)
Definition round (x : Qc) : Z :=
  let f := Qfloor x in
  match Qcompare (x - inject_Z f) (1 # 2) with
  | Lt => f
  | Gt => f + 1
  | Eq => if Z.even f then f else f + 1
  end.

(** [np.zeros([1, n])]; a negative dimension is a [ValueError]. *)
Definition np_zeros (n : Z) : res (list Qc) :=
  if n <? 0 then Raise ValueError else Ok (replicate (Z.to_nat n) 0%Qc).

(** [a += b] on arrays of shape (1, n): elementwise when the lengths
    agree, [b] broadcast when it has a single column, [ValueError]
    otherwise. *)
Definition np_iadd (a b : list Qc) : res (list Qc) :=
  if decide (length b = length a) then Ok (zip_with Qcplus a b)
  else match b with
       | [x] => Ok (map (λ y, (y + x)%Qc) a)
       | _ => Raise ValueError
       end.

Fixpoint add_go (lo hi : Z) (f : Z → Qc) (i : Z) (l : list Qc) : list Qc :=
  match l with
  | [] => []
  | x :: rest =>
      (if (lo <=? i) && (i <? hi) then (x + f (i - lo)%Z)%Qc else x)
        :: add_go lo hi f (i + 1) rest
  end.

(** [entry[start:stop] += samples] on a one-dimensional view: the slice and
    [samples] must have the same length, or [samples] a single element
    (broadcast); [ValueError] otherwise. *)
Definition np_slice_iadd (entry : list Qc) (start stop : Z) (samples : list Qc)
  : res (list Qc) :=
  let len := Z.of_nat (length entry) in
  let lo := clamp_index len start in
  let hi := clamp_index len stop in
  let n := Z.max 0 (hi - lo) in
  if decide (Z.of_nat (length samples) = n) then
    Ok (add_go lo hi (λ k, default 0%Qc (samples !! Z.to_nat k)) 0 entry)
  else match samples with
       | [x] => Ok (add_go lo hi (λ _, x) 0 entry)
       | _ => Raise ValueError
       end.

(** [np.linspace(a, b, n)] for [n >= 1]: [n] evenly spaced samples from [a]
    to [b], both included. *)
Definition np_linspace (a b : Qc) (n : Z) : list Qc :=
  let step := if n =? 1 then 0%Qc
              else ((b - a) / Q2Qc (inject_Z (n - 1)%Z))%Qc in
  map (λ i, (a + Q2Qc (inject_Z i) * step)%Qc) (seqZ 0 n).

End Py.

Import Py.

(** The state of Python's [random] module.  [rnd_seed] is [random.seed],
    [rnd_random] is [random.random] and [rnd_randbelow n] the generator's
    draw of an integer below [n], from which [randint] and [choice] are
    derived as in the standard library. *)
Class PyRandom (G : Type) := {
  rnd_seed : Z → G;
  rnd_random : G → Qc * G;
  rnd_randbelow : Z → G → Z * G;
  rnd_random_unit : ∀ g, (0 <= (rnd_random g).1)%Qc ∧ ((rnd_random g).1 < 1)%Qc;
  rnd_randbelow_range : ∀ n g, 0 < n → 0 ≤ (rnd_randbelow n g).1 < n
}.

(** The state of [numpy.random] and the two transcendental functions of
    numpy the load models use.  [np_normal loc scale] is one sample of
    [np.random.normal(loc, scale)]. *)
Class NumPy (H : Type) := {
  np_normal : Qc → Qc → H → Qc * H;
  np_exp : Qc → Qc;
  np_log : Qc → Qc
}.

(** ** Data model *)

(** LoadModelComponents.py: the five load-model components, each with its
    duration fraction [dur] and its parameters, named as the attributes of
    the classes. *)
Inductive Component :=
  | OnOffModel (on dur : Qc)
  | LinearModel (dur sta en : Qc)
  | OnOffDecayModel (on add dec dur : Qc)
  | OnOffGrowthModel (bas sca stf dur : Qc)
  | NoiseModel (dur low mean stdev high : Qc).

Definition comp_dur (c : Component) : Qc :=
  match c with
  | OnOffModel _ dur => dur
  | LinearModel dur _ _ => dur
  | OnOffDecayModel _ _ _ dur => dur
  | OnOffGrowthModel _ _ _ dur => dur
  | NoiseModel dur _ _ _ _ => dur
  end.

(** One parsed definition file of an appliance's model folder: the
    [duration] attribute of the root and the [load] components. *)
Record ModelFile := mkModelFile {
  mf_duration : Z;
  mf_comps : list Component
}.

(** ApplianceModel.py: an appliance object.  [model_folder] is the list of
    the regular files of the folder, parsed, in the order of [os.listdir]. *)
Record ApplianceModel := mkAppliance {
  appliance_type : string;
  model_folder : list ModelFile;
  usual_duration : Z;
  comps : list Component;
  busy : list bool;
  total_power : list Qc
}.

(** One line of the event log, ["{offset};{kind};{name};{transition}"]. *)
Inductive EventKind := ACT | DEV.
Inductive Transition := START | END | ON | OFF.
Record Event := mkEvent {
  ev_offset : Z;
  ev_kind : EventKind;
  ev_name : string;
  ev_transition : Transition
}.

(** A record of the logger, kept for the warnings of the synthesis code and
    for the closing summary of [ActivityModel.synthesize]: the message
    template and its integer arguments.  Debug messages are not recorded,
    but what building them evaluates (and may raise) is. *)
Inductive Level := WARNING | INFO.
Record LogRecord := mkLog {
  log_level : Level;
  log_msg : string;
  log_args : list Z
}.

(** A decoded row of the state machine:
    name, min_duration, max_duration, involves_user,
    must_complete_before_transition, device, prob_for_a, state_a, state_b. *)
Record State := mkState {
  snm : string;
  mn : Z;
  mx : Z;
  usr : bool;
  fin : bool;
  devID : Z;
  pa : Qc;
  sa : Z;
  sb : Z
}.

(** A row of [state_machine]: either its nine fields decode, or decoding
    raises the [ValueError] that [process_model] catches. *)
Inductive Row :=
  | Decoded (st : State)
  | Malformed.

(** ActivityModel.py: an activity object.  [appliance_binding] is the dict
    from appliance type to the bound appliance object (its address) or
    [None], in insertion order. *)
Record ActivityModel := mkActivity {
  activity_type : string;
  required_appliances : list string;
  appliance_binding : list (string * option string);
  appliance_lookup : gmap Z string;
  state_machine : gmap Z Row
}.

(** The result of one walk of the state machine: offset -> (appliance,
    runtime), in insertion order. *)
Definition Schedule : Type := list (Z * (option string * Z)).

(** [d[k] = v] on an insertion-ordered dict. *)
Fixpoint dict_set {K V} `{EqDecision K} (d : list (K * V)) (k : K) (v : V)
  : list (K * V) :=
  match d with
  | [] => [(k, v)]
  | (k', v') :: rest =>
      if decide (k' = k) then (k, v) :: rest else (k', v') :: dict_set rest k v
  end.

Fixpoint dict_get {K V} `{EqDecision K} (d : list (K * V)) (k : K) : option V :=
  match d with
  | [] => None
  | (k', v') :: rest => if decide (k' = k) then Some v' else dict_get rest k
  end.

(** UserModel.py: a user object.  [activities] is the dict from activity
    name to activity object, in insertion order; [runs_per_day] and
    [possible_runtimes] are the dicts with the same keys. *)
Record UserModel := mkUser {
  name : string;
  days : Z;
  availability : list bool;
  activities : list (string * ActivityModel);
  runs_per_day : gmap string Qc;
  possible_runtimes : gmap string (list bool)
}.

(** The [--noise] option of antgen.py, decoded: absent or not matching,
    ["G<amplitude>"] or ["C<amplitude>"] (any other letter is ignored like
    an absent option). *)
Inductive NoiseArg :=
  | NoNoise
  | Gaussian (amplitude : Z)
  | Constant (amplitude : Z).

(** ** The synthesis engine *)

Section Engine.

Context {G NP : Type} `{!PyRandom G} `{!NumPy NP}.

(** Everything the synthesis mutates that outlives a call: the two random
    generators, the appliance objects, the shared [powers] map, the event
    list and the log. *)
Record World := mkWorld {
  w_random : G;
  w_numpy : NP;
  w_appliances : gmap string ApplianceModel;
  w_powers : gmap string (list Qc);
  w_events : list Event;
  w_log : list LogRecord
}.

Definition M (A : Type) : Type := World → res (A * World).

Definition ret {A} (a : A) : M A := λ w, Ok (a, w).
Definition bind {A B} (m : M A) (f : A → M B) : M B :=
  λ w, match m w with
       | Ok (a, w') => f a w'
       | Raise e => Raise e
       | OutOfFuel => OutOfFuel
       end.
Definition raise {A} (e : exn) : M A := λ _, Raise e.
Definition out_of_fuel {A} : M A := λ _, OutOfFuel.
Definition lift {A} (r : res A) : M A :=
  λ w, match r with
       | Ok a => Ok (a, w)
       | Raise e => Raise e
       | OutOfFuel => OutOfFuel
       end.

Notation "x <- m ;; k" := (bind m (λ x, k))
  (at level 100, m at next level, right associativity).
Notation "m ;;; k" := (bind m (λ _, k))
  (at level 100, right associativity).

(** *** The [random] module *)

Definition random_random : M Qc :=
  λ w, let (x, g) := rnd_random (w_random w) in
       Ok (x, mkWorld g (w_numpy w) (w_appliances w) (w_powers w)
                      (w_events w) (w_log w)).

(** [random.randint(a, b)]: [ValueError] on an empty range. *)
Definition random_randint (a b : Z) : M Z :=
  λ w, if 0 <? b - a + 1 then
         let (k, g) := rnd_randbelow (b - a + 1) (w_random w) in
         Ok (a + k, mkWorld g (w_numpy w) (w_appliances w) (w_powers w)
                            (w_events w) (w_log w))
       else Raise ValueError.

(** [random.choice(seq)]: [IndexError] on an empty sequence. *)
Definition random_choice {A} (seq : list A) : M A :=
  λ w, match seq with
       | [] => Raise IndexError
       | _ =>
           let (k, g) := rnd_randbelow (Z.of_nat (length seq)) (w_random w) in
           match seq !! Z.to_nat k with
           | Some x => Ok (x, mkWorld g (w_numpy w) (w_appliances w)
                                      (w_powers w) (w_events w) (w_log w))
           | None => Raise IndexError
           end
       end.

(** *** [numpy.random] *)

(** One sample of [np.random.normal(loc, scale)]; a negative scale is a
    [ValueError]. *)
Definition np_random_normal (loc scale : Qc) : M Qc :=
  λ w, if Qcltb scale 0 then Raise ValueError else
       let (x, h) := np_normal loc scale (w_numpy w) in
       Ok (x, mkWorld (w_random w) h (w_appliances w) (w_powers w)
                      (w_events w) (w_log w)).

(** [np.random.normal(loc, scale, n)] *)
Fixpoint np_random_normal_n (loc scale : Qc) (n : nat) : M (list Qc) :=
  match n with
  | O => if Qcltb scale 0 then raise ValueError else ret []
  | S n' =>
      x <- np_random_normal loc scale;;
      xs <- np_random_normal_n loc scale n';;
      ret (x :: xs)
  end.

(** *** Logging and the appliance heap *)

Definition logger (lvl : Level) (msg : string) (args : list Z) : M unit :=
  λ w, Ok (tt, mkWorld (w_random w) (w_numpy w) (w_appliances w) (w_powers w)
                       (w_events w) (w_log w ++ [mkLog lvl msg args])).

Definition events_append (e : Event) : M unit :=
  λ w, Ok (tt, mkWorld (w_random w) (w_numpy w) (w_appliances w) (w_powers w)
                       (w_events w ++ [e]) (w_log w)).

(** Attribute access on a binding: [None] has no attributes. *)
Definition deref (r : option string) : M ApplianceModel :=
  λ w, match r with
       | None => Raise AttributeError
       | Some addr =>
           match w_appliances w !! addr with
           | Some app => Ok (app, w)
           | None => Raise AttributeError
           end
       end.

Definition store (addr : string) (app : ApplianceModel) : M unit :=
  λ w, Ok (tt, mkWorld (w_random w) (w_numpy w)
                       (<[addr := app]> (w_appliances w)) (w_powers w)
                       (w_events w) (w_log w)).

Definition get_powers : M (gmap string (list Qc)) := λ w, Ok (w_powers w, w).

Definition set_power (k : string) (v : list Qc) : M unit :=
  λ w, Ok (tt, mkWorld (w_random w) (w_numpy w) (w_appliances w)
                       (<[k := v]> (w_powers w)) (w_events w) (w_log w)).

(** [powers[k] += v]: [KeyError] when [k] is absent. *)
Definition iadd_power (k : string) (v : list Qc) : M unit :=
  ps <- get_powers;;
  match ps !! k with
  | None => raise KeyError
  | Some a => a' <- lift (np_iadd a v);; set_power k a'
  end.

(** *** LoadModelComponents.py *)

(** [NoiseModel.bound]: redraw while the value is out of bounds. *)
Fixpoint NoiseModel_bound (fuel : nat) (low mean stdev high val : Qc) : M Qc :=
  if Qcltb high val || Qcltb val low then
    match fuel with
    | O => out_of_fuel
    | S fuel' =>
        val' <- np_random_normal mean stdev;;
        NoiseModel_bound fuel' low mean stdev high val'
    end
  else ret val.

Fixpoint NoiseModel_bound_all (fuel : nat) (low mean stdev high : Qc)
    (data : list Qc) : M (list Qc) :=
  match data with
  | [] => ret []
  | x :: rest =>
      y <- NoiseModel_bound fuel low mean stdev high x;;
      ys <- NoiseModel_bound_all fuel low mean stdev high rest;;
      ret (y :: ys)
  end.

(** [c.synthesize(length)] for each of the five classes. *)
Definition Component_synthesize (fuel : nat) (c : Component) (length : Z)
  : M (list Qc) :=
  match c with
  | OnOffModel on _ => ret (np_linspace on on length)
  | LinearModel _ sta en => ret (np_linspace sta en length)
  | OnOffDecayModel on add dec _ =>
      ret (map (λ x, (on + (add - on) * np_exp (- dec * x))%Qc)
               (np_linspace 0%Qc (Q2Qc (inject_Z (length - 1))) length))
  | OnOffGrowthModel bas sca stf _ =>
      ret (map (λ x, (bas + sca * np_log (stf * x))%Qc)
               (np_linspace 1%Qc (Q2Qc (inject_Z length)) length))
  | NoiseModel _ low mean stdev high =>
      data <- np_random_normal_n mean stdev (Z.to_nat length);;
      NoiseModel_bound_all fuel low mean stdev high data
  end.

(** *** ApplianceModel.py *)

(** [pick_another_model]: a uniformly chosen file of the folder replaces
    the usual duration and the component list. *)
Definition ApplianceModel_pick_another_model (addr : option string) : M unit :=
  app <- deref addr;;
  model_file <- random_choice (model_folder app);;
  match addr with
  | Some a =>
      store a (mkAppliance (appliance_type app) (model_folder app)
                           (mf_duration model_file) (mf_comps model_file)
                           (busy app) (total_power app))
  | None => raise AttributeError
  end.

(** The loop over [self.comps] of [synthesize]: [entry] is the row of
    [this_cycle_power] being filled and [start_offset] the cursor. *)
Fixpoint synthesize_comps (fuel : nat) (cs : list Component)
    (offset duration : Z) (start_offset : Z) (entry : list Qc)
  : M (list Qc) :=
  match cs with
  | [] => ret entry
  | c :: rest =>
      let end_offset :=
        start_offset + round (comp_dur c * Q2Qc (inject_Z duration))%Qc in
      let synth_len := end_offset - start_offset in
      if (synth_len <=? 0) || (86400 <? synth_len) then
        synthesize_comps fuel rest offset duration start_offset entry
      else
        samples <- Component_synthesize fuel c synth_len;;
        entry' <- lift (np_slice_iadd entry (offset + start_offset)
                                     (offset + end_offset) samples);;
        synthesize_comps fuel rest offset duration end_offset entry'
  end.

(** [ApplianceModel.synthesize(offset, duration)] on the appliance at
    [addr]; returns [this_cycle_power]. *)
Definition ApplianceModel_synthesize (fuel : nat) (addr : option string)
    (offset duration : Z) : M (list Qc) :=
  app <- deref addr;;
  let this_cycle_power := replicate (length (total_power app)) 0%Qc in
  this_cycle_power <- synthesize_comps fuel (comps app) offset duration 0
                                      this_cycle_power;;
  total <- lift (np_iadd (total_power app) this_cycle_power);;
  match addr with
  | Some a =>
      store a (mkAppliance (appliance_type app) (model_folder app)
                           (usual_duration app) (comps app)
                           (slice_fill (busy app) offset (offset + duration) true)
                           total);;;
      ret this_cycle_power
  | None => raise AttributeError
  end.

(** *** ActivityModel.py *)

(** [all_bindings_satisfied]: no binding is [None]. *)
Definition all_bindings_satisfied (a : ActivityModel) : bool :=
  forallb (λ kv : string * option string, bool_decide (is_Some kv.2))
          (appliance_binding a).

(** [self.appliance_binding[self.appliance_lookup[devID]]] *)
Definition lookup_binding (a : ActivityModel) (devID : Z) : M (option string) :=
  match appliance_lookup a !! devID with
  | None => raise KeyError
  | Some ty =>
      match dict_get (appliance_binding a) ty with
      | None => raise KeyError
      | Some b => ret b
      end
  end.

(** [for dev in self.appliance_binding.values(): dev.pick_another_model()] *)
Fixpoint pick_all (devs : list (option string)) : M unit :=
  match devs with
  | [] => ret tt
  | dev :: rest => ApplianceModel_pick_another_model dev;;; pick_all rest
  end.

(** Duration of one state (the two conditionals on [mn == mx == 0]). *)
Definition state_duration (a : ActivityModel) (st : State) : M Z :=
  bounds <- (if (mn st =? mx st) && (mx st =? 0) && (devID st =? 0) then
               logger WARNING
                 "Invalid duration of state '{}'! Will assume 5-10 seconds..." [];;;
               ret (5, 10)
             else ret (mn st, mx st));;
  let mn := bounds.1 in
  let mx := bounds.2 in
  if (mn =? mx) && (mx =? 0) && negb (devID st =? 0) then
    b <- lookup_binding a (devID st);;
    app <- deref b;;
    ret (usual_duration app)
  else random_randint (Z.min mn mx) (Z.max mn mx).

(** The transition out of a state: [random.random() < float(pa)]. *)
Definition next_state (st : State) : M Z :=
  draw <- random_random;;
  ret (if Qcltb draw (pa st) then sa st else sb st).

(** The [while] loop of [process_model]. *)
Fixpoint walk (fuel : nat) (a : ActivityModel) (current_state : Z)
    (schedule : Schedule) (total_duration : Z)
    (user_min_time : option Z) (user_max_time : Z)
  : M (Z * option Schedule * option Z * Z) :=
  if current_state <? Z.of_nat (size (state_machine a)) then
    match fuel with
    | O => out_of_fuel
    | S fuel' =>
        match state_machine a !! current_state with
        | None => raise AttributeError
        | Some Malformed =>
            logger WARNING "Incorrect state machine: {}" [];;;
            logger WARNING "Skipping activity '{}'" [];;;
            ret (0, None, Some 0, 0)
        | Some (Decoded st) =>
            let user_min_time :=
              match user_min_time with
              | None => if usr st then Some total_duration else None
              | Some t => Some t
              end in
            appliance_runtime <- state_duration a st;;
            (match appliance_lookup a !! devID st with
             | None => raise KeyError
             | Some _ => ret tt
             end);;;
            r <- (if negb (devID st =? 0) then
                    b <- lookup_binding a (devID st);;
                    let schedule :=
                      dict_set schedule total_duration (b, appliance_runtime) in
                    if fin st then
                      ret (schedule, total_duration + appliance_runtime)
                    else
                      jitter <- random_randint 5 10;;
                      ret (schedule, total_duration + jitter)
                  else ret (schedule, total_duration + appliance_runtime));;
            let schedule := r.1 in
            let total_duration := r.2 in
            let user_max_time :=
              if usr st then total_duration else user_max_time in
            current_state <- next_state st;;
            walk fuel' a current_state schedule total_duration
                 user_min_time user_max_time
        end
    end
  else ret (total_duration, Some schedule, user_min_time, user_max_time).

(** [process_model(model_varies)] *)
Definition process_model (fuel : nat) (a : ActivityModel) (model_varies : bool)
  : M (Z * option Schedule * option Z * Z) :=
  (if model_varies then pick_all (map snd (appliance_binding a)) else ret tt);;;
  walk fuel a 0 [] 0 None 0.

(** The local variables of [synthesize] that its loops update, with the
    two bitmaps it mutates in place.  [committed] is ghost state: the list
    of the windows (start, duration) committed so far, kept only to state
    properties; nothing reads it. *)
Record Frame := mkFrame {
  activity_power : list Qc;
  scheduling_failures : Z;
  scheduling_success : Z;
  time_of_run : list bool;
  user_available : list bool;
  committed : list (Z * Z)
}.

Inductive Step := Continue | Break.

(** [Tools.visualize_map(bitmap, start_day)[d]], evaluated for the debug
    messages: the map has one row per whole day of the bitmap. *)
Definition visualize_map_row (bitmap : list bool) (d : Z) : M unit :=
  if d <? Z.of_nat (length bitmap) / Tools.secs_per_day then ret tt
  else raise IndexError.

(** The ten random probes for a starting time; -1 when all fail. *)
Fixpoint probe (n : nat) (availability : list bool)
    (earliest_start latest_start duration horizon : Z) : M Z :=
  match n with
  | O => ret (-1)
  | S n' =>
      starting_time <-
        random_randint earliest_start (latest_start + 1 - duration);;
      let candidate_bitmap_snippet :=
        slice availability starting_time (starting_time + duration) in
      if all candidate_bitmap_snippet && (starting_time + duration <=? horizon)
      then ret starting_time
      else probe n' availability earliest_start latest_start duration horizon
  end.

(** The exhaustive scan over [range(earliest_start, latest_start + 1 -
    duration)]; -1 when no candidate fits. *)
Fixpoint scan (candidates : list Z) (availability : list bool)
    (duration horizon : Z) : Z :=
  match candidates with
  | [] => -1
  | starting_time :: rest =>
      if all (slice availability starting_time (starting_time + duration))
         && (starting_time + duration <=? horizon)
      then starting_time
      else scan rest availability duration horizon
  end.

Definition find_slot (availability : list bool)
    (earliest_start latest_start duration horizon : Z) : M Z :=
  starting_time <-
    probe 10 availability earliest_start latest_start duration horizon;;
  if starting_time =? -1 then
    ret (scan (seqZ earliest_start (latest_start + 1 - duration - earliest_start))
              availability duration horizon)
  else ret starting_time.

(** The loop over [appliance_schedule.items()]: events, waveform synthesis
    and accumulation for one committed instance. *)
Fixpoint run_schedule (fuel : nat) (a : ActivityModel) (starting_time : Z)
    (items : Schedule) (activity_power : list Qc) (final : Z)
  : M (list Qc * Z) :=
  match items with
  | [] => ret (activity_power, final)
  | (app_start, (app, dur)) :: rest =>
      obj <- deref app;;
      events_append
        (mkEvent (starting_time + app_start) DEV (appliance_type obj) ON);;;
      app_power <-
        ApplianceModel_synthesize fuel app (starting_time + app_start) dur;;
      activity_power <- lift (np_iadd activity_power app_power);;
      iadd_power (activity_type a) app_power;;;
      events_append
        (mkEvent (starting_time + app_start + dur - 1) DEV
                 (appliance_type obj) OFF);;;
      let final :=
        if final <? starting_time + app_start + dur - 1
        then starting_time + app_start + dur - 1 else final in
      run_schedule fuel a starting_time rest activity_power final
  end.

(** The events and the synthesis of one committed instance: ACTIVITY START,
    the loop over the schedule starting from [final = 0], ACTIVITY END at
    [final]; returns the updated [activity_power]. *)
Definition emit_instance (fuel : nat) (a : ActivityModel) (starting_time : Z)
    (appliance_schedule : Schedule) (activity_power : list Qc)
  : M (list Qc) :=
  events_append (mkEvent starting_time ACT (activity_type a) START);;;
  r <- run_schedule fuel a starting_time appliance_schedule activity_power 0;;
  events_append (mkEvent r.2 ACT (activity_type a) END);;;
  ret r.1.

(** The part of one iteration of the [for r in range(reps)] loop that
    follows a successful [process_model]: find a window, commit it, emit
    the events and synthesize the appliances. *)
Definition place (fuel : nat) (a : ActivityModel) (horizon d : Z)
    (day_filter : list bool) (duration : Z) (appliance_schedule : Schedule)
    (user_earliest : option Z) (user_latest : Z) (fr : Frame)
  : M (Step * Frame) :=
  (if negb (user_latest =? 0) then visualize_map_row (user_available fr) d
   else ret tt);;;
  visualize_map_row (time_of_run fr) d;;;
  availability <-
    (match user_earliest with
     | Some _ =>
         b <- lift (bitand (user_available fr) (time_of_run fr));;
         lift (bitand b day_filter)
     | None => lift (bitand (time_of_run fr) day_filter)
     end);;
  visualize_map_row availability d;;;
  let earliest_start := Tools.get_earliest availability in
  let latest_start := Tools.get_latest availability in
  match earliest_start, latest_start with
  | Some earliest_start, Some latest_start =>
      if latest_start + 1 - duration <? earliest_start then
        today <- lift (bitand (time_of_run fr) day_filter);;
        ret (Break,
             if 0 <? Tools.count today true then
               mkFrame (activity_power fr) (scheduling_failures fr + 1)
                       (scheduling_success fr) (time_of_run fr)
                       (user_available fr) (committed fr)
             else fr)
      else
        starting_time <-
          find_slot availability earliest_start latest_start duration horizon;;
        if starting_time =? -1 then
          ret (Break,
               mkFrame (activity_power fr) (scheduling_failures fr + 1)
                       (scheduling_success fr) (time_of_run fr)
                       (user_available fr) (committed fr))
        else
          let user_available :=
            match user_earliest with
            | Some user_earliest =>
                if 0 <? user_latest then
                  slice_fill (user_available fr)
                             (starting_time + user_earliest)
                             (starting_time + user_latest) false
                else user_available fr
            | None => user_available fr
            end in
          let time_of_run :=
            slice_fill (time_of_run fr) starting_time
                       (starting_time + duration) false in
          visualize_map_row (bitnot time_of_run) d;;;
          power <- emit_instance fuel a starting_time appliance_schedule
                                 (activity_power fr);;
          ret (Continue,
               mkFrame power (scheduling_failures fr) (scheduling_success fr)
                       time_of_run user_available
                       (committed fr ++ [(starting_time, duration)]))
  | _, _ =>
      today <- lift (bitand (time_of_run fr) day_filter);;
      ret (Break,
           if 0 <? Tools.count today true then
             mkFrame (activity_power fr) (scheduling_failures fr + 1)
                     (scheduling_success fr) (time_of_run fr)
                     (user_available fr) (committed fr)
           else fr)
  end.

(** One iteration of the [for r in range(reps)] loop. *)
Definition attempt (fuel : nat) (a : ActivityModel) (horizon d : Z)
    (vary_appliance : bool) (reps : Z) (day_filter : list bool) (fr : Frame)
  : M (Step * Frame) :=
  r <- process_model fuel a vary_appliance;;
  let duration := r.1.1.1 in
  let user_earliest := r.1.2 in
  let user_latest := r.2 in
  match r.1.1.2 with
  | None =>
      logger WARNING "Could not find a suitable schedule for {}" [];;;
      ret (Break,
           mkFrame (activity_power fr) (scheduling_failures fr + reps)
                   (scheduling_success fr) (time_of_run fr)
                   (user_available fr) (committed fr))
  | Some appliance_schedule =>
      place fuel a horizon d day_filter duration appliance_schedule
            user_earliest user_latest fr
  end.

(** [for r in range(reps)], with [n] iterations left; returns the frame and
    [scheduled_activities]. *)
Fixpoint rep_loop (n : nat) (fuel : nat) (a : ActivityModel) (horizon d : Z)
    (vary_appliance : bool) (reps : Z) (day_filter : list bool)
    (scheduled_activities : Z) (fr : Frame) : M (Frame * Z) :=
  match n with
  | O => ret (fr, scheduled_activities)
  | S n' =>
      r <- attempt fuel a horizon d vary_appliance reps day_filter fr;;
      match r.1 with
      | Break => ret (r.2, scheduled_activities)
      | Continue =>
          rep_loop n' fuel a horizon d vary_appliance reps day_filter
                   (scheduled_activities + 1) r.2
      end
  end.

(** The number of instances to attempt on one day. *)
Definition draw_reps (runs_per_day : Qc) : M Z :=
  x <- random_random;;
  if Qcleb 1 runs_per_day then
    ret (round (runs_per_day + x - Q2Qc (1 # 2))%Qc)
  else ret (if Qcltb runs_per_day x then 0 else 1).

(** The body of [for d in range(num_days)]. *)
Definition day_body (fuel : nat) (a : ActivityModel) (num_days : Z)
    (runs_per_day : Qc) (vary_appliance : bool) (d : Z) (fr : Frame)
  : M Frame :=
  let horizon := num_days * Tools.secs_per_day in
  reps <- draw_reps runs_per_day;;
  day_filter <- lift (bitarray horizon false);;
  let day_filter :=
    slice_fill day_filter (d * Tools.secs_per_day)
               ((d + 1) * Tools.secs_per_day) true in
  r <- rep_loop (Z.to_nat reps) fuel a horizon d vary_appliance reps
                day_filter 0 fr;;
  let fr := r.1 in
  ret (mkFrame (activity_power fr) (scheduling_failures fr)
               (scheduling_success fr + r.2) (time_of_run fr)
               (user_available fr) (committed fr)).

Fixpoint day_loop (fuel : nat) (a : ActivityModel) (num_days : Z)
    (runs_per_day : Qc) (vary_appliance : bool) (days : list Z) (fr : Frame)
  : M Frame :=
  match days with
  | [] => ret fr
  | d :: rest =>
      fr <- day_body fuel a num_days runs_per_day vary_appliance d fr;;
      day_loop fuel a num_days runs_per_day vary_appliance rest fr
  end.

(** [ActivityModel.synthesize], returning the whole final frame. *)
Definition ActivityModel_synthesize_frame (fuel : nat) (a : ActivityModel)
    (num_days : Z) (runs_per_day : Qc) (time_of_run user_available : list bool)
    (start_day : Z) (vary_appliance : bool) : M Frame :=
  activity_power <- lift (np_zeros (num_days * Tools.secs_per_day));;
  let fr := mkFrame activity_power 0 0 time_of_run user_available [] in
  if negb (all_bindings_satisfied a) then
    logger WARNING
      "Unsatisfied bindings ({})! Will NOT synthesize this activity!" [];;;
    ret fr
  else
    powers <- get_powers;;
    (match powers !! activity_type a with
     | Some _ => ret tt
     | None =>
         z <- lift (np_zeros (num_days * Tools.secs_per_day));;
         set_power (activity_type a) z
     end);;;
    fr <- day_loop fuel a num_days runs_per_day vary_appliance
                   (seqZ 0 num_days) fr;;
    (if scheduling_success fr =? 0 then
       logger WARNING
         "Synthesis of '{}' failed: Could not fit any of the {:d} runs"
         [scheduling_failures fr]
     else if 0 <? scheduling_failures fr then
       logger INFO "Synthesis of '{}' done: {:d} scheduled, {:d} didn't fit"
              [scheduling_success fr; scheduling_failures fr]
     else
       logger INFO "Synthesis of '{}' done: {:d} runs scheduled"
              [scheduling_success fr]);;;
    ret fr.

(** [ActivityModel.synthesize(powers, events, num_days, runs_per_day,
    time_of_run, user_available, start_day, vary_appliance)]: the returned
    [activity_power], with the two bitmaps as the call leaves them. *)
Definition ActivityModel_synthesize (fuel : nat) (a : ActivityModel)
    (num_days : Z) (runs_per_day : Qc) (time_of_run user_available : list bool)
    (start_day : Z) (vary_appliance : bool)
  : M (list Qc * list bool * list bool) :=
  fr <- ActivityModel_synthesize_frame fuel a num_days runs_per_day time_of_run
          user_available start_day vary_appliance;;
  let '(mkFrame power _ _ tor ua _) := fr in
  ret (power, tor, ua).

(** *** UserModel.py *)

(** The keys of [sorted(..., key=lambda x: random.random())]: one draw per
    item, in the order of the items. *)
Fixpoint draw_keys {A} (items : list A) : M (list (Qc * A)) :=
  match items with
  | [] => ret []
  | x :: rest =>
      k <- random_random;;
      ks <- draw_keys rest;;
      ret ((k, x) :: ks)
  end.

Fixpoint insert_by_key {A} (x : Qc * A) (l : list (Qc * A)) : list (Qc * A) :=
  match l with
  | [] => [x]
  | y :: rest =>
      if Qcltb x.1 y.1 then x :: y :: rest else y :: insert_by_key x rest
  end.

(** [sorted] by key: ascending and stable. *)
Definition sorted_by_key {A} (l : list (Qc * A)) : list A :=
  map snd (foldl (λ acc x, insert_by_key x acc) [] l).

(** The loop of [UserModel.synthesize] over the shuffled activities; the
    user object is updated with the bitmaps the activities leave. *)
Fixpoint synthesize_activities (fuel : nat) (u : UserModel) (start_day : Z)
    (vary_appliance_runs : bool) (acts : list (string * ActivityModel))
  : M UserModel :=
  match acts with
  | [] => ret u
  | (nm, acti) :: rest =>
      r <- (match runs_per_day u !! nm, possible_runtimes u !! nm with
            | Some rate, Some runtimes =>
                ActivityModel_synthesize fuel acti (days u) rate runtimes
                                         (availability u) start_day
                                         vary_appliance_runs
            | _, _ => raise KeyError
            end);;
      let total := r.1.1 in
      let u := mkUser (name u) (days u) r.2 (activities u) (runs_per_day u)
                      (<[nm := r.1.2]> (possible_runtimes u)) in
      iadd_power (name u) total;;;
      iadd_power "total" total;;;
      synthesize_activities fuel u start_day vary_appliance_runs rest
  end.

(** [UserModel.synthesize(all_powers, all_events, start_day,
    vary_appliance_runs)] *)
Definition UserModel_synthesize (fuel : nat) (u : UserModel) (start_day : Z)
    (vary_appliance_runs : bool) : M UserModel :=
  z <- lift (np_zeros (days u * Tools.secs_per_day));;
  set_power (name u) z;;;
  keyed <- draw_keys (activities u);;
  synthesize_activities fuel u start_day vary_appliance_runs
                        (sorted_by_key keyed).

(** *** antgen.py *)

(** [for uid, user in users.items(): user.synthesize(...)] *)
Fixpoint synthesize_users (fuel : nat) (users : list UserModel)
    (first_day : Z) (vary_runs : bool) : M (list UserModel) :=
  match users with
  | [] => ret []
  | user :: rest =>
      user' <- UserModel_synthesize fuel user first_day vary_runs;;
      rest' <- synthesize_users fuel rest first_day vary_runs;;
      ret (user' :: rest')
  end.

(** [ApplianceModel(type, model_dir, num_days)], stored at the address
    [type]: empty busy bitmap, zero power, and a first model picked. *)
Definition ApplianceModel_init (type : string) (folder : list ModelFile)
    (num_days : Z) : M unit :=
  busy <- lift (bitarray (num_days * Tools.secs_per_day) false);;
  total_power <- lift (np_zeros (num_days * Tools.secs_per_day));;
  store type (mkAppliance type folder 0 [] busy total_power);;;
  ApplianceModel_pick_another_model (Some type).

Fixpoint init_appliances (mapping : list (string * list ModelFile))
    (num_days : Z) : M unit :=
  match mapping with
  | [] => ret tt
  | (appliance_key, folder) :: rest =>
      ApplianceModel_init appliance_key folder num_days;;;
      init_appliances rest num_days
  end.

(** [for an, ap in appliances.items(): all_powers[an] = ap.total_power] *)
Fixpoint export_appliances (keys : list string) : M unit :=
  match keys with
  | [] => ret tt
  | an :: rest =>
      ap <- deref (Some an);;
      set_power an (total_power ap);;;
      export_appliances rest
  end.

(** The noise added to the total when configured. *)
Definition add_noise (noise : NoiseArg) : M unit :=
  match noise with
  | NoNoise => ret tt
  | Gaussian amplitude =>
      let amplitude := Z.abs amplitude in
      ps <- get_powers;;
      match ps !! "total" with
      | None => raise KeyError
      | Some total =>
          samples <- np_random_normal_n
                       (Q2Qc (inject_Z amplitude))
                       (Q2Qc (inject_Z amplitude) / Q2Qc (inject_Z 10))%Qc
                       (length total);;
          total <- lift (np_iadd total samples);;
          set_power "total"
                    (map (λ x : Qc, if Qcltb x 0 then 0%Qc else x) total)
      end
  | Constant amplitude =>
      iadd_power "total" [Q2Qc (inject_Z (Z.abs amplitude))]
  end.

(** The synthesis part of [main]: seeding of the [random] module, the first
    weekday, the appliance models, the synthesis loop over the users, the
    export of the per-appliance arrays and the optional noise.
    [numpy_state] is the state in which the process finds [numpy.random],
    which [main] never seeds.  [users first_day] are the
    user objects as constructed for that first weekday, with their
    activities bound to the appliances of [mapping] (configuration parsing
    and binding draw no random numbers). *)
Definition main (fuel : nat) (seed : Z) (numpy_state : NP) (days : Z)
    (users : Z → list UserModel) (mapping : list (string * list ModelFile))
    (vary_runs : bool) (noise : NoiseArg) : res (list UserModel * World) :=
  (first_day <- random_randint 0 6;;
   init_appliances mapping days;;;
   z <- lift (np_zeros (days * Tools.secs_per_day));;
   set_power "total" z;;;
   users' <- synthesize_users fuel (users first_day) first_day vary_runs;;
   export_appliances (map fst mapping);;;
   add_noise noise;;;
   ret users')
    (mkWorld (rnd_seed seed) numpy_state ∅ ∅ [] []).

End Engine.

Notation "x <- m ;; k" := (bind m (λ x, k))
  (at level 100, m at next level, right associativity).
Notation "m ;;; k" := (bind m (λ _, k))
  (at level 100, right associativity).

(** ** A concrete pair of generators

    Both generators replay a tape and give 0 once the tape is used up.
    The tape of the [random] module holds raw integers: [random()] is the
    next one modulo 1000, over 1000, and a draw below [n] is the next one
    modulo [n].  The tape of [numpy.random] holds standard normal variates
    [z], a sample being [loc + scale * z]. *)

Definition Tape : Type := list Z.

Definition tape_next (t : Tape) : Z * Tape :=
  match t with
  | [] => (0, [])
  | x :: rest => (x, rest)
  end.

Definition tape_random (t : Tape) : Qc * Tape :=
  let (x, rest) := tape_next t in
  (Q2Qc (x `mod` 1000 # 1000), rest).

Definition tape_randbelow (n : Z) (t : Tape) : Z * Tape :=
  let (x, rest) := tape_next t in (x `mod` n, rest).

Definition NormalTape : Type := list Qc.

Definition normal_tape (loc scale : Qc) (t : NormalTape) : Qc * NormalTape :=
  match t with
  | [] => (loc, [])
  | z :: rest => ((loc + scale * z)%Qc, rest)
  end.

Lemma tape_random_unit (t : Tape) :
  (0 <= (tape_random t).1)%Qc ∧ ((tape_random t).1 < 1)%Qc.
Proof.
  unfold tape_random. destruct (tape_next t) as [x rest]. simpl.
  pose proof (Z.mod_pos_bound x 1000 ltac:(lia)) as Hx.
  unfold Qcle, Qclt. simpl. rewrite !Qred_correct.
  unfold Qle, Qlt. simpl. lia.
Qed.

Lemma tape_randbelow_range (n : Z) (t : Tape) :
  0 < n → 0 ≤ (tape_randbelow n t).1 < n.
Proof.
  intros Hn. unfold tape_randbelow. destruct (tape_next t) as [x rest].
  simpl. apply Z.mod_pos_bound. lia.
Qed.

#[export] Instance tape_PyRandom : PyRandom Tape := {
  rnd_seed seed := [seed];
  rnd_random := tape_random;
  rnd_randbelow := tape_randbelow;
  rnd_random_unit := tape_random_unit;
  rnd_randbelow_range := tape_randbelow_range
}.

(** The exponential and the logarithm of the instance are coarse rational
    stand-ins (first-order expansions at 0 and at 1); no example below
    uses a decay or growth component. *)
#[export] Instance tape_NumPy : NumPy NormalTape := {
  np_normal := normal_tape;
  np_exp x := (1 + x)%Qc;
  np_log x := (x - 1)%Qc
}.

Definition qc (z : Z) : Qc := Q2Qc (inject_Z z).

(** ** Tools.py: the bitmap constructors

    The text of a time specification is taken decoded.  A number is what
    [int] makes of a piece of text: since every '-' of a range is consumed
    by [split('-')], a decoded hour or minute is never negative. *)

Inductive IntText :=
  | IntOf (n : N)
  | NotInt.

(** One side of a range after [split(':')]: no colon at all, exactly one
    (hour and minute), or more than one. *)
Inductive ClockText :=
  | NoColon
  | HourMin (hr mn : IntText)
  | ManyColons.

(** One item of the comma-separated list after [split('-')]. *)
Inductive RangeText :=
  | NoDash
  | FromTo (fr to : ClockText)
  | ManyDashes.

(** [weekdays] *)
Definition weekdays (k : Z) : option string :=
  if k =? 0 then Some "monday"
  else if k =? 1 then Some "tuesday"
  else if k =? 2 then Some "wednesday"
  else if k =? 3 then Some "thursday"
  else if k =? 4 then Some "friday"
  else if k =? 5 then Some "saturday"
  else if k =? 6 then Some "sunday"
  else None.

Definition weekday_names : list string :=
  ["monday"; "tuesday"; "wednesday"; "thursday"; "friday"; "saturday";
   "sunday"].

(** The offset in seconds of a clock value: [(hr, mn) = text.split(':')],
    an hour of 24 or more is the end of the day (the minute is then not
    read), [60 * (int(hr) * 60 + int(mn))] otherwise. *)
Definition clock_offset (c : ClockText) : res Z :=
  match c with
  | NoColon => Raise ValueError
  | ManyColons => Raise ValueError
  | HourMin NotInt _ => Raise ValueError
  | HourMin (IntOf hr) mn =>
      if (24 <=? hr)%N then Ok (60 * (24 * 60 + 0))
      else match mn with
           | NotInt => Raise ValueError
           | IntOf mn => Ok (60 * (Z.of_N hr * 60 + Z.of_N mn))
           end
  end.

Definition has_colon (c : ClockText) : bool :=
  match c with NoColon => false | _ => true end.

(** The body of the loop of [get_bitmap_from_timerange] for one item. *)
Definition mark_range (bmp : list bool) (time_range : RangeText)
  : res (list bool) :=
  match time_range with
  | NoDash => Ok bmp
  | ManyDashes => Raise ValueError
  | FromTo fr to =>
      if negb (has_colon fr) || negb (has_colon to) then Ok bmp
      else
        match clock_offset fr with
        | Ok from_offset =>
            match clock_offset to with
            | Ok to_offset => Ok (slice_fill bmp from_offset to_offset true)
            | Raise e => Raise e
            | OutOfFuel => OutOfFuel
            end
        | Raise e => Raise e
        | OutOfFuel => OutOfFuel
        end
  end.

Fixpoint mark_ranges (bmp : list bool) (ranges : list RangeText)
  : res (list bool) :=
  match ranges with
  | [] => Ok bmp
  | time_range :: rest =>
      match mark_range bmp time_range with
      | Ok bmp' => mark_ranges bmp' rest
      | Raise e => Raise e
      | OutOfFuel => OutOfFuel
      end
  end.

(** [get_bitmap_from_timerange]: one day of bits, set within each range. *)
Definition get_bitmap_from_timerange (ranges : list RangeText)
  : res (list bool) :=
  mark_ranges (replicate (Z.to_nat Tools.secs_per_day) false) ranges.

(** [l[start:stop] = v] for a list [v] as long as the slice. *)
Definition slice_assign {A} (l : list A) (start stop : Z) (v : list A)
  : list A :=
  let len := Z.of_nat (length l) in
  let lo := clamp_index len start in
  let hi := clamp_index len stop in
  take (Z.to_nat lo) l ++ v ++ drop (Z.to_nat (Z.max lo hi)) l.

(** The dict [timespans]: the bitmap of every weekday the list defines, in
    the order of [weekdays.values()]. *)
Fixpoint read_timespans (days : list string)
    (weekday_list : gmap string (list RangeText))
  : res (gmap string (list bool)) :=
  match days with
  | [] => Ok ∅
  | day :: rest =>
      match weekday_list !! day with
      | None => read_timespans rest weekday_list
      | Some ranges =>
          match get_bitmap_from_timerange ranges with
          | Ok b =>
              match read_timespans rest weekday_list with
              | Ok ts => Ok (<[day := b]> ts)
              | Raise e => Raise e
              | OutOfFuel => OutOfFuel
              end
          | Raise e => Raise e
          | OutOfFuel => OutOfFuel
          end
      end
  end.

(** The loop [for i in range(num_days)] over the day indices [todo]. *)
Fixpoint fill_days (timespans : gmap string (list bool)) (start_day : Z)
    (todo : list Z) (bmp : list bool) : res (list bool) :=
  match todo with
  | [] => Ok bmp
  | i :: rest =>
      let lo := i * Tools.secs_per_day in
      let hi := (i + 1) * Tools.secs_per_day in
      match weekdays ((start_day + i) `mod` 7) ≫= (timespans !!.) with
      | Some span =>
          match bitand (slice bmp lo hi) span with
          | Ok block => fill_days timespans start_day rest
                                  (slice_assign bmp lo hi block)
          | Raise e => Raise e
          | OutOfFuel => OutOfFuel
          end
      | None =>
          fill_days timespans start_day rest (slice_fill bmp lo hi false)
      end
  end.

(** [get_bitmap_from_weekday_list(weekday_list, num_days, start_day)] *)
Definition get_bitmap_from_weekday_list
    (weekday_list : gmap string (list RangeText)) (num_days start_day : Z)
  : res (list bool) :=
  match bitarray (Tools.secs_per_day * num_days) true with
  | Ok bmp =>
      match read_timespans weekday_names weekday_list with
      | Ok timespans => fill_days timespans start_day (seqZ 0 num_days) bmp
      | Raise e => Raise e
      | OutOfFuel => OutOfFuel
      end
  | Raise e => Raise e
  | OutOfFuel => OutOfFuel
  end.

(** ** Construction and binding of the activities

    ActivityModel.py, UserModel.py and the binding loop of antgen.py.  The
    configuration file of an activity is taken parsed: the entries of its
    [devices] section (id, type) and of its [sequence] section (id, row),
    in file order.  An appliance object is referred to by its address in
    the dict [appliances] of [main], which is its type. *)

(** [ActivityModel.__init__]: every device type is required and unbound,
    id 0 is the 'None' device unless the file redefines it. *)
Definition ActivityModel_init (name : string) (devices : list (Z * string))
    (sequence : list (Z * Row)) : ActivityModel :=
  mkActivity name
    (map snd devices)
    (foldl (λ d (kv : Z * string), dict_set d kv.2 None) [] devices)
    (foldl (λ m (kv : Z * string), <[kv.1 := kv.2]> m) {[0 := "None"]} devices)
    (foldl (λ m (kv : Z * Row), <[kv.1 := kv.2]> m) ∅ sequence).

(** [unique_appliances]: the required types without repetition.  Python
    gives them in the unspecified order of a [set]; the callers only test
    membership or iterate over all of them. *)
Definition unique_appliances (a : ActivityModel) : list string :=
  remove_dups (required_appliances a).

(** The number of bindings that are not [None]. *)
Definition bound_count (a : ActivityModel) : Z :=
  Z.of_nat (length (filter (λ kv : string * option string, is_Some kv.2)
                           (appliance_binding a))).

(** [bind_to_appliance(appliance_type, appliance_model)]: the activity
    after the call and the record it logs. *)
Definition bind_to_appliance (a : ActivityModel) (appliance_type : string)
    (appliance_model : string) : ActivityModel * LogRecord :=
  if bool_decide (appliance_type ∈ required_appliances a)
     && bool_decide (appliance_type ∈ map fst (appliance_binding a))
  then
    let a' := mkActivity (activity_type a) (required_appliances a)
                (dict_set (appliance_binding a) appliance_type
                          (Some appliance_model))
                (appliance_lookup a) (state_machine a) in
    (a', mkLog INFO "Binding '{}' to activity '{}' ({}/{} requirements bound)"
               [bound_count a'; Z.of_nat (length (appliance_binding a'))])
  else
    (a, mkLog WARNING
              "No binding requested for appliance type {} - ignoring..." []).

(** [get_required_devices]: the types any activity of the user requires,
    without repetition (again in the order of a [set] in Python). *)
Definition get_required_devices (u : UserModel) : list string :=
  remove_dups (flat_map (λ na : string * ActivityModel, unique_appliances na.2)
                        (activities u)).

(** The loop of [bind_appliance_model] over the user's activities. *)
Fixpoint bind_activities (acts : list (string * ActivityModel))
    (dev_type model : string)
  : list (string * ActivityModel) * list LogRecord :=
  match acts with
  | [] => ([], [])
  | (nm, a) :: rest =>
      let r := bind_activities rest dev_type model in
      if bool_decide (dev_type ∈ unique_appliances a) then
        let b := bind_to_appliance a dev_type model in
        ((nm, b.1) :: r.1, b.2 :: r.2)
      else ((nm, a) :: r.1, r.2)
  end.

(** [UserModel.bind_appliance_model(dev_type, model)] *)
Definition bind_appliance_model (u : UserModel) (dev_type model : string)
  : UserModel * list LogRecord :=
  let r := bind_activities (activities u) dev_type model in
  (mkUser (name u) (days u) (availability u) r.1 (runs_per_day u)
          (possible_runtimes u), r.2).

(** The loop over the required devices of one user, taken in the order
    [required_devices]; [None] is [terminate]: a required type without
    appliance model. *)
Fixpoint bind_required (appliances : gmap string ApplianceModel)
    (required_devices : list string) (u : UserModel)
  : option (UserModel * list LogRecord) :=
  match required_devices with
  | [] => Some (u, [])
  | rd :: rest =>
      match appliances !! rd with
      | Some _ =>
          let r := bind_appliance_model u rd rd in
          match bind_required appliances rest r.1 with
          | Some r' => Some (r'.1, r.2 ++ r'.2)
          | None => None
          end
      | None => None
      end
  end.

(** The binding loop of [main] over the users; [order u] is the order in
    which Python iterates over the required devices of [u]. *)
Fixpoint bind_users (appliances : gmap string ApplianceModel)
    (order : UserModel → list string) (users : list UserModel)
  : option (list UserModel * list LogRecord) :=
  match users with
  | [] => Some ([], [])
  | user :: rest =>
      let required_devices := order user in
      let warn :=
        if decide (required_devices = []) then
          [mkLog WARNING "User '{}' does not operate any appliances!" []]
        else [] in
      match bind_required appliances required_devices user with
      | Some r =>
          match bind_users appliances order rest with
          | Some r' => Some (r.1 :: r'.1, warn ++ r.2 ++ r'.2)
          | None => None
          end
      | None => None
      end
  end.

(** ** Facts about the primitives *)

Section PrimitiveFacts.

Lemma clamp_index_inside len i : 0 ≤ i ≤ len → clamp_index len i = i.
Proof.
  intros Hi. unfold clamp_index.
  destruct (i <? 0) eqn:E; [apply Z.ltb_lt in E; lia | lia].
Qed.

Lemma clamp_index_range len i : 0 ≤ len → 0 ≤ clamp_index len i ≤ len.
Proof.
  intros Hlen. unfold clamp_index. destruct (i <? 0) eqn:E.
  - apply Z.ltb_lt in E. lia.
  - apply Z.ltb_ge in E. lia.
Qed.

Lemma length_fill_go {A} lo hi (v : A) i l :
  length (fill_go lo hi v i l) = length l.
Proof. revert i. induction l as [|x l IH]; intros i; simpl; [done|]. by rewrite IH. Qed.

Lemma fill_go_lookup {A} lo hi (v : A) i l (n : nat) :
  fill_go lo hi v i l !! n =
  (λ x, if (lo <=? i + Z.of_nat n) && (i + Z.of_nat n <? hi) then v else x)
    <$> l !! n.
Proof.
  revert i n. induction l as [|x l IH]; intros i n; simpl; [done|].
  destruct n as [|n]; simpl.
  - by rewrite Z.add_0_r.
  - rewrite IH. by replace (i + 1 + Z.of_nat n) with (i + Z.of_nat (S n)) by lia.
Qed.

Lemma length_slice_fill {A} (l : list A) start stop v :
  length (slice_fill l start stop v) = length l.
Proof. apply length_fill_go. Qed.

(** Reading a bitmap after a slice assignment whose bounds lie inside it. *)
Lemma slice_fill_lookup {A} (l : list A) start stop v (n : nat) :
  0 ≤ start → 0 ≤ stop ≤ Z.of_nat (length l) →
  slice_fill l start stop v !! n =
  (λ x, if (start <=? Z.of_nat n) && (Z.of_nat n <? stop) then v else x)
    <$> l !! n.
Proof.
  intros Hs He. unfold slice_fill. rewrite fill_go_lookup.
  destruct (l !! n) as [x|] eqn:Hn; [|done]. simpl. f_equal.
  pose proof (lookup_lt_Some _ _ _ Hn) as Hlt.
  match goal with
  | |- (if ?c1 then _ else _) = (if ?c2 then _ else _) =>
      replace c1 with c2; [done|]
  end.
  apply eq_true_iff_eq.
  rewrite !andb_true_iff, !Z.leb_le, !Z.ltb_lt. unfold clamp_index.
  destruct (start <? 0) eqn:E1; [apply Z.ltb_lt in E1; lia|].
  destruct (stop <? 0) eqn:E2;
    [apply Z.ltb_lt in E2 | apply Z.ltb_ge in E2]; lia.
Qed.

(** A slice assignment of [false] never sets a bit. *)
Lemma slice_fill_false_mono (l : list bool) start stop (n : nat) :
  l !! n = Some false → slice_fill l start stop false !! n = Some false.
Proof.
  intros Hn. unfold slice_fill. rewrite fill_go_lookup, Hn. simpl.
  by case_match.
Qed.

Lemma length_add_go lo hi f i l : length (add_go lo hi f i l) = length l.
Proof. revert i. induction l as [|x l IH]; intros i; simpl; [done|]. by rewrite IH. Qed.

Lemma add_go_lookup lo hi f i l (n : nat) :
  add_go lo hi f i l !! n =
  (λ x, if (lo <=? i + Z.of_nat n) && (i + Z.of_nat n <? hi)
        then (x + f (i + Z.of_nat n - lo)%Z)%Qc else x) <$> l !! n.
Proof.
  revert i n. induction l as [|x l IH]; intros i n; simpl; [done|].
  destruct n as [|n]; simpl.
  - by rewrite Z.add_0_r.
  - rewrite IH. by replace (i + 1 + Z.of_nat n) with (i + Z.of_nat (S n)) by lia.
Qed.

(** [all] of a slice inside the bitmap: every addressed bit is set. *)
Lemma all_slice (l : list bool) start stop :
  0 ≤ start → 0 ≤ stop ≤ Z.of_nat (length l) →
  all (slice l start stop) = true ↔
  ∀ n : nat, start ≤ Z.of_nat n < stop → l !! n = Some true.
Proof.
  intros Hs He. unfold all, slice.
  destruct (decide (start ≤ stop)) as [Hle|Hgt].
  - rewrite !clamp_index_inside by lia.
    rewrite forallb_forall. split.
    + intros Hall n Hn.
      assert (is_Some (l !! n)) as [b Hb] by (apply lookup_lt_is_Some; lia).
      rewrite Hb. f_equal. apply (Hall b).
      apply list_elem_of_In, list_elem_of_lookup.
      exists (n - Z.to_nat start)%nat.
      rewrite lookup_take_lt by lia. rewrite lookup_drop.
      by replace (Z.to_nat start + (n - Z.to_nat start))%nat with n by lia.
    + intros Hall b Hb.
      apply list_elem_of_In, list_elem_of_lookup in Hb as [k Hk].
      apply lookup_take_Some in Hk as [Hk Hlt]. rewrite lookup_drop in Hk.
      rewrite Hall in Hk by lia. by inversion Hk.
  - split; [|intros _].
    + intros _ n Hn. lia.
    + rewrite (clamp_index_inside _ stop) by lia. unfold clamp_index.
      destruct (start <? 0) eqn:E; [apply Z.ltb_lt in E; lia|].
      replace (Z.to_nat (stop - Z.min start (Z.of_nat (length l))))
        with 0%nat by lia.
      done.
Qed.

Lemma bitand_Ok a b c :
  bitand a b = Ok c →
  length a = length b ∧ length c = length a ∧
  ∀ n : nat, c !! n = Some true ↔ a !! n = Some true ∧ b !! n = Some true.
Proof.
  unfold bitand. case_decide as Hlen; [|done]. intros [= <-].
  split; [done|]. split.
  - rewrite length_zip_with. lia.
  - intros n. rewrite lookup_zip_with.
    destruct (a !! n) as [[]|], (b !! n) as [[]|]; simpl;
      intuition (try done; try congruence).
Qed.

Lemma bitand_same_length a b :
  length a = length b → bitand a b = Ok (zip_with andb a b).
Proof. intros Hlen. unfold bitand. by rewrite decide_True. Qed.

(** A constant [linspace]. *)
Lemma np_linspace_const (a : Qc) (n : Z) :
  np_linspace a a n = replicate (Z.to_nat n) a.
Proof.
  unfold np_linspace.
  assert (∀ (step : Qc) l, step = 0%Qc →
            map (λ i : Z, (a + Q2Qc (inject_Z i) * step)%Qc) l
            = replicate (length l) a) as Hmap.
  { intros step l ->. induction l as [|i l IH]; simpl; [done|].
    rewrite IH. f_equal. rewrite Qcmult_0_r. apply Qcplus_0_r. }
  rewrite Hmap, length_seqZ; [done|].
  destruct (n =? 1); [done|].
  unfold Qcdiv, Qcminus. rewrite Qcplus_opp_r. apply Qcmult_0_l.
Qed.

End PrimitiveFacts.

(** ** Properties of the waveform synthesizer *)

Section ApplianceFacts.

Context {G NP : Type} `{!PyRandom G} `{!NumPy NP}.

(** The bits of the window [t, t + d). *)
Definition in_window (t d : Z) (n : nat) : bool :=
  (t <=? Z.of_nat n) && (Z.of_nat n <? t + d).

(** The contract of [ApplianceModel.synthesize] for an appliance whose
    program is one ON_OFF component with duration fraction 1.0 and
    on-power 60, invoked at an offset [t] with duration 10 such that the
    seconds [t, t+10) lie in the horizon: the returned per-cycle array is
    60 on exactly those ten seconds and 0 elsewhere, the cumulative power
    array of the appliance grows by that array, the slice [t, t+10) of the
    busy bitmap is set, and nothing else in the state changes. *)
Lemma onoff_cycle_in_window (fuel : nat) (w : @World G NP)
    (addr : string) (app : ApplianceModel) (t : Z) :
  w_appliances w !! addr = Some app →
  comps app = [OnOffModel (qc 60) (qc 1)] →
  0 ≤ t →
  t + 10 ≤ Z.of_nat (length (total_power app)) →
  ∃ cycle total',
    ApplianceModel_synthesize fuel (Some addr) t 10 w
    = Ok (cycle,
          mkWorld (w_random w) (w_numpy w)
                  (<[addr := mkAppliance (appliance_type app) (model_folder app)
                               (usual_duration app) (comps app)
                               (slice_fill (busy app) t (t + 10) true)
                               total']>
                     (w_appliances w))
                  (w_powers w) (w_events w) (w_log w)) ∧
    length cycle = length (total_power app) ∧
    (∀ n : nat, (n < length cycle)%nat →
       cycle !! n = Some (if in_window t 10 n then qc 60 else 0%Qc)) ∧
    total' = zip_with Qcplus (total_power app) cycle ∧
    (∀ (n : nat) x, total_power app !! n = Some x →
       total' !! n = Some (if in_window t 10 n then (x + qc 60)%Qc else x)).
Proof.
  intros Happ Hcomps Ht Hend.
  unfold ApplianceModel_synthesize, bind, deref. rewrite Happ, Hcomps.
  cbn [synthesize_comps comp_dur].
  assert (round (qc 1 * Q2Qc (inject_Z 10))%Qc = 10) as -> by reflexivity.
  change (0 + 10 - 0) with 10. change ((10 <=? 0) || (86400 <? 10)) with false.
  cbv iota. unfold Component_synthesize, bind, ret, lift, store.
  rewrite np_linspace_const. unfold np_slice_iadd.
  rewrite !length_replicate.
  rewrite !clamp_index_inside by lia.
  rewrite decide_True by lia.
  set (cycle := add_go (t + 0) (t + (0 + 10))
                       (λ k, default 0%Qc (replicate (Z.to_nat 10) (qc 60) !! Z.to_nat k))
                       0 (replicate (length (total_power app)) 0%Qc)).
  assert (length cycle = length (total_power app)) as Hlen.
  { unfold cycle. by rewrite length_add_go, length_replicate. }
  assert (∀ n : nat, (n < length cycle)%nat →
            cycle !! n = Some (if in_window t 10 n then qc 60 else 0%Qc))
    as Hcycle.
  { intros n Hn. unfold cycle. rewrite add_go_lookup.
    rewrite (lookup_replicate_2 (length (total_power app)) _ n) by lia.
    cbn [fmap option_fmap option_map]. f_equal.
    unfold in_window.
    replace (t + 0 <=? 0 + Z.of_nat n) with (t <=? Z.of_nat n)
      by (f_equal; lia).
    replace (0 + Z.of_nat n <? t + (0 + 10)) with (Z.of_nat n <? t + 10)
      by (f_equal; lia).
    destruct ((t <=? Z.of_nat n) && (Z.of_nat n <? t + 10)) eqn:E; [|done].
    apply andb_true_iff in E as [E1 E2].
    apply Z.leb_le in E1. apply Z.ltb_lt in E2.
    rewrite lookup_replicate_2 by lia. simpl. apply Qcplus_0_l. }
  unfold np_iadd. rewrite decide_True by done.
  exists cycle, (zip_with Qcplus (total_power app) cycle).
  split; [done|]. split; [done|]. split; [done|]. split; [done|].
  intros n x Hx. rewrite lookup_zip_with, Hx.
  pose proof (lookup_lt_Some _ _ _ Hx) as Hn.
  rewrite Hcycle by lia. simpl. f_equal.
  destruct (in_window t 10 n); [done | apply Qcplus_0_r].
Qed.

End ApplianceFacts.

(** ** Properties of the state-machine interpreter *)

Section InterpreterFacts.

Context {G NP : Type} `{!PyRandom G} `{!NumPy NP}.

Lemma Qcltb_lt (x y : Qc) : Qcltb x y = true ↔ (x < y)%Qc.
Proof.
  unfold Qcltb. rewrite Qclt_alt.
  destruct (x ?= y)%Qc; split; congruence.
Qed.

Lemma Qcleb_le (x y : Qc) : Qcleb x y = true ↔ (x <= y)%Qc.
Proof.
  unfold Qcleb. rewrite Qcle_alt.
  destruct (x ?= y)%Qc; split; congruence.
Qed.

(** The world after a draw from the [random] module and after a log
    record. *)
Definition with_random (g : G) (w : @World G NP) : World :=
  mkWorld g (w_numpy w) (w_appliances w) (w_powers w) (w_events w) (w_log w).

Definition with_log (r : LogRecord) (w : @World G NP) : World :=
  mkWorld (w_random w) (w_numpy w) (w_appliances w) (w_powers w) (w_events w)
          (w_log w ++ [r]).

(** [randint(a, b)] on a non-empty range returns an integer of the range
    and only advances the generator. *)
Lemma random_randint_range (a b : Z) (w : @World G NP) :
  a ≤ b →
  ∃ k g, random_randint a b w = Ok (k, with_random g w) ∧ a ≤ k ≤ b.
Proof.
  intros Hab. unfold random_randint.
  replace (0 <? b - a + 1) with true by (symmetry; apply Z.ltb_lt; lia).
  pose proof (rnd_randbelow_range (b - a + 1) (w_random w) ltac:(lia)) as Hk.
  destruct (rnd_randbelow (b - a + 1) (w_random w)) as [k g]. simpl in Hk.
  exists (a + k), g. split; [done | lia].
Qed.

(** C5.  Duration of a state.  (1) With min = max = 0 and no appliance,
    a warning is logged and the duration is [randint(5, 10)], an integer
    of [5, 10].  (2) With min = max = 0 and a bound appliance, it is that
    appliance's usual duration, and nothing is drawn.  (3) In every other
    case it is [randint(min(min, max), max(min, max))], an integer of
    that range. *)
Theorem state_duration_resolution (a : ActivityModel) (st : State)
    (w : @World G NP) :
  (mn st = 0 → mx st = 0 → devID st = 0 →
   let w1 :=
     with_log (mkLog WARNING
       "Invalid duration of state '{}'! Will assume 5-10 seconds..." []) w in
   state_duration a st w = random_randint 5 10 w1 ∧
   ∃ k g, state_duration a st w = Ok (k, with_random g w1) ∧ 5 ≤ k ≤ 10) ∧
  (mn st = 0 → mx st = 0 → devID st ≠ 0 →
   ∀ ty addr app,
     appliance_lookup a !! devID st = Some ty →
     dict_get (appliance_binding a) ty = Some (Some addr) →
     w_appliances w !! addr = Some app →
     state_duration a st w = Ok (usual_duration app, w)) ∧
  (¬ (mn st = 0 ∧ mx st = 0) →
   state_duration a st w
   = random_randint (Z.min (mn st) (mx st)) (Z.max (mn st) (mx st)) w ∧
   ∃ k g, state_duration a st w = Ok (k, with_random g w) ∧
          Z.min (mn st) (mx st) ≤ k ≤ Z.max (mn st) (mx st)).
Proof.
  split; [|split].
  - intros Hmn Hmx Hdev w1.
    assert (state_duration a st w = random_randint 5 10 w1) as Heq.
    { unfold state_duration, bind. rewrite Hmn, Hmx, Hdev. reflexivity. }
    split; [done|]. rewrite Heq.
    apply (random_randint_range 5 10 w1). lia.
  - intros Hmn Hmx Hdev ty addr app Hty Hbind Happ.
    unfold state_duration, bind. rewrite Hmn, Hmx.
    replace (devID st =? 0) with false by (symmetry; by apply Z.eqb_neq).
    simpl. unfold lookup_binding. rewrite Hty, Hbind. simpl.
    by rewrite Happ.
  - intros Hne.
    assert (state_duration a st w
            = random_randint (Z.min (mn st) (mx st)) (Z.max (mn st) (mx st)) w)
      as Heq.
    { unfold state_duration, bind.
      assert ((mn st =? mx st) && (mx st =? 0) = false) as Hc.
      { apply andb_false_iff.
        destruct (Z.eqb_spec (mn st) (mx st)) as [E1|]; [|by left].
        destruct (Z.eqb_spec (mx st) 0) as [E2|]; [|by right].
        exfalso. apply Hne. lia. }
      rewrite Hc. simpl. by rewrite Hc. }
    split; [done|]. rewrite Heq.
    apply (random_randint_range _ _ w). lia.
Qed.

(** C8.  The transition out of a state draws one number from the [random]
    module and moves to successor-a exactly when the draw is strictly
    below the transition probability, to successor-b otherwise; with
    probability 1 the successor is always a, with probability 0 always b. *)
Theorem next_state_by_draw (st : State) (w : @World G NP) :
  let draw := (rnd_random (w_random w)).1 in
  ∃ nxt, next_state st w
         = Ok (nxt, with_random (rnd_random (w_random w)).2 w) ∧
    ((draw < pa st)%Qc → nxt = sa st) ∧
    (¬ (draw < pa st)%Qc → nxt = sb st) ∧
    (pa st = 1%Qc → nxt = sa st) ∧
    (pa st = 0%Qc → nxt = sb st).
Proof.
  intros draw. unfold next_state, bind, random_random, ret.
  pose proof (rnd_random_unit (w_random w)) as [H0 H1].
  fold draw in H0, H1. subst draw.
  destruct (rnd_random (w_random w)) as [x g]. simpl in *.
  eexists. split; [reflexivity|].
  destruct (Qcltb x (pa st)) eqn:E.
  - apply Qcltb_lt in E. repeat split; try done.
    intros Hp. rewrite Hp in E. by apply Qclt_not_le in E.
  - assert (¬ (x < pa st)%Qc) as Hn.
    { intros Hlt. apply Qcltb_lt in Hlt. congruence. }
    repeat split; try done.
    intros Hp. rewrite Hp in Hn. done.
Qed.

End InterpreterFacts.

(** ** Properties of the scheduler *)

Section SchedulerFacts.

Context {G NP : Type} `{!PyRandom G} `{!NumPy NP}.

Abbreviation World := (@World G NP).
Abbreviation M := (@M G NP).

(** *** Reasoning about the monad *)

Lemma bind_Ok {A B} (m : M A) (f : A → M B) (w : World) r :
  bind m f w = Ok r ↔ ∃ a w1, m w = Ok (a, w1) ∧ f a w1 = Ok r.
Proof.
  unfold bind. split.
  - destruct (m w) as [[a w1]| |]; [|done..]. intros Hf. by exists a, w1.
  - intros (a & w1 & -> & Hf). done.
Qed.

Lemma bind_step {A B} (m : M A) (f : A → M B) (w : World) a w1 :
  m w = Ok (a, w1) → bind m f w = f a w1.
Proof. intros Hm. unfold bind. by rewrite Hm. Qed.

Lemma lift_Ok {A} (x : res A) (w : World) r :
  lift x w = Ok r ↔ ∃ a, x = Ok a ∧ r = (a, w).
Proof.
  unfold lift. destruct x as [a| |]; split;
    try done; try (by intros (? & ? & ?)).
  - intros [= <-]. by exists a.
  - intros (a' & [= <-] & ->). done.
Qed.

(** [effect P m]: whenever [m] returns, the worlds before and after are
    related by [P]. *)
Definition effect {A} (P : World → World → Prop) (m : M A) : Prop :=
  ∀ w r w', m w = Ok (r, w') → P w w'.

(** [result Q m]: whenever [m] returns, its value satisfies [Q]. *)
Definition result {A} (Q : A → Prop) (m : M A) : Prop :=
  ∀ w r w', m w = Ok (r, w') → Q r.

Section Effect.

Context (P : World → World → Prop) `{!PreOrder P}.

Lemma effect_ret {A} (a : A) : effect P (ret a).
Proof. intros w r w' [= _ <-]. reflexivity. Qed.

Lemma effect_bind {A B} (m : M A) (f : A → M B) :
  effect P m → (∀ a, effect P (f a)) → effect P (bind m f).
Proof.
  intros Hm Hf w r w' Hb. apply bind_Ok in Hb as (a & w1 & H1 & H2).
  etrans; [by eapply Hm | by eapply Hf].
Qed.

Lemma effect_lift {A} (x : res A) : effect P (lift x).
Proof. intros w r w' Hl. apply lift_Ok in Hl as (a & _ & [= _ <-]). reflexivity. Qed.

Lemma effect_raise {A} e : effect P (raise (A:=A) e).
Proof. intros w r w' Hr. discriminate. Qed.

Lemma effect_out_of_fuel {A} : effect P (out_of_fuel (A:=A)).
Proof. intros w r w' Hr. discriminate. Qed.

End Effect.

Lemma result_ret {A} (Q : A → Prop) (a : A) : Q a → result Q (ret a : M A).
Proof. intros Ha w r w' [= <- _]. done. Qed.

Lemma result_bind {A B} (Q : B → Prop) (m : M A) (f : A → M B) :
  (∀ a, result Q (f a)) → result Q (bind m f).
Proof.
  intros Hf w r w' Hb. apply bind_Ok in Hb as (a & w1 & H1 & H2).
  by eapply Hf.
Qed.

Lemma result_bind_with {A B} (R : A → Prop) (Q : B → Prop) (m : M A)
    (f : A → M B) :
  result R m → (∀ a, R a → result Q (f a)) → result Q (bind m f).
Proof.
  intros Hm Hf w r w' Hb. apply bind_Ok in Hb as (a & w1 & H1 & H2).
  eapply Hf; [by eapply Hm | done].
Qed.

Lemma result_lift {A} (Q : A → Prop) (x : res A) :
  (∀ a, x = Ok a → Q a) → result Q (lift x : M A).
Proof. intros Hx w r w' Hl. apply lift_Ok in Hl as (a & Ha & [= <- _]). auto. Qed.

Lemma result_raise {A} (Q : A → Prop) e : result Q (raise e : M A).
Proof. intros w r w' Hr. discriminate. Qed.

(** *** What the calls below the scheduler leave alone *)

(** The shared [powers] map and the event list are untouched. *)
Definition quiet (w w' : World) : Prop :=
  w_powers w' = w_powers w ∧ w_events w' = w_events w.

#[local] Instance quiet_preorder : PreOrder quiet.
Proof.
  split.
  - by intros w.
  - intros w1 w2 w3 [H1 H2] [H3 H4]. split; congruence.
Qed.

Ltac effect_step :=
  match goal with
  | |- effect _ (bind _ _) => apply effect_bind; [apply _ | | intros ?]
  | |- effect _ (ret _) => apply effect_ret; apply _
  | |- effect _ (lift _) => apply effect_lift; apply _
  | |- effect _ (raise _) => apply effect_raise
  | |- effect _ out_of_fuel => apply effect_out_of_fuel
  | |- effect _ (if ?b then _ else _) => destruct b
  | |- effect _ (match ?x with _ => _ end) => destruct x
  | |- effect _ (let _ := _ in _) => cbv zeta
  | |- effect _ _ => solve [eauto with effects]
  end.

Ltac effect_auto := repeat effect_step.

Create HintDb effects.

Lemma quiet_random_random : effect quiet random_random.
Proof.
  intros w r w'. unfold random_random.
  destruct (rnd_random _). by intros [= _ <-].
Qed.

Lemma quiet_random_randint a b : effect quiet (random_randint a b).
Proof.
  intros w r w'. unfold random_randint. case_match; [|done].
  destruct (rnd_randbelow _ _). by intros [= _ <-].
Qed.

Lemma quiet_random_choice {A} (seq : list A) : effect quiet (random_choice seq).
Proof.
  intros w r w'. unfold random_choice. destruct seq; [done|].
  destruct (rnd_randbelow _ _). case_match; [|done]. by intros [= _ <-].
Qed.

Lemma quiet_np_random_normal loc scale : effect quiet (np_random_normal loc scale).
Proof.
  intros w r w'. unfold np_random_normal. case_match; [done|].
  destruct (np_normal _ _ _). by intros [= _ <-].
Qed.

Lemma quiet_logger lvl msg args : effect quiet (logger lvl msg args).
Proof. intros w r w'. unfold logger. by intros [= _ <-]. Qed.

Lemma quiet_deref r : effect quiet (deref r).
Proof.
  intros w a w'. unfold deref. destruct r; [|done].
  case_match; [|done]. by intros [= _ <-].
Qed.

Lemma quiet_store addr app : effect quiet (store addr app).
Proof. intros w r w'. unfold store. by intros [= _ <-]. Qed.

Hint Resolve quiet_random_random quiet_random_randint quiet_random_choice
  quiet_np_random_normal quiet_logger quiet_deref quiet_store : effects.

Lemma quiet_np_random_normal_n loc scale n :
  effect quiet (np_random_normal_n loc scale n).
Proof. induction n; simpl; effect_auto. Qed.

Lemma quiet_NoiseModel_bound fuel low mean stdev high val :
  effect quiet (NoiseModel_bound fuel low mean stdev high val).
Proof. revert val. induction fuel; intros val; simpl; effect_auto. Qed.

Hint Resolve quiet_np_random_normal_n quiet_NoiseModel_bound : effects.

Lemma quiet_NoiseModel_bound_all fuel low mean stdev high data :
  effect quiet (NoiseModel_bound_all fuel low mean stdev high data).
Proof. induction data; simpl; effect_auto. Qed.

Hint Resolve quiet_NoiseModel_bound_all : effects.

Lemma quiet_Component_synthesize fuel c length :
  effect quiet (Component_synthesize fuel c length).
Proof. destruct c; simpl; effect_auto. Qed.

Hint Resolve quiet_Component_synthesize : effects.

Lemma quiet_synthesize_comps fuel cs offset duration start_offset entry :
  effect quiet (synthesize_comps fuel cs offset duration start_offset entry).
Proof.
  revert start_offset entry.
  induction cs as [|c cs IH]; intros start_offset entry; simpl; effect_auto.
Qed.

Hint Resolve quiet_synthesize_comps : effects.

Lemma quiet_pick_another_model addr :
  effect quiet (ApplianceModel_pick_another_model addr).
Proof. unfold ApplianceModel_pick_another_model. effect_auto. Qed.

Lemma quiet_ApplianceModel_synthesize fuel addr offset duration :
  effect quiet (ApplianceModel_synthesize fuel addr offset duration).
Proof. unfold ApplianceModel_synthesize. effect_auto. Qed.

Hint Resolve quiet_pick_another_model quiet_ApplianceModel_synthesize : effects.

Lemma quiet_lookup_binding a devID : effect quiet (lookup_binding a devID).
Proof. unfold lookup_binding. effect_auto. Qed.

Lemma quiet_pick_all devs : effect quiet (pick_all devs).
Proof. induction devs; simpl; effect_auto. Qed.

Hint Resolve quiet_lookup_binding quiet_pick_all : effects.

Lemma quiet_state_duration a st : effect quiet (state_duration a st).
Proof. unfold state_duration. effect_auto. Qed.

Lemma quiet_next_state st : effect quiet (next_state st).
Proof. unfold next_state. effect_auto. Qed.

Hint Resolve quiet_state_duration quiet_next_state : effects.

Lemma quiet_walk fuel a cur schedule total umin umax :
  effect quiet (walk fuel a cur schedule total umin umax).
Proof.
  revert cur schedule total umin umax.
  induction fuel as [|fuel IH]; intros cur schedule total umin umax; simpl;
    effect_auto.
Qed.

Hint Resolve quiet_walk : effects.

Lemma quiet_process_model fuel a vary : effect quiet (process_model fuel a vary).
Proof. unfold process_model. effect_auto. Qed.

Lemma quiet_visualize_map_row bm d : effect quiet (visualize_map_row bm d).
Proof. unfold visualize_map_row. effect_auto. Qed.

Lemma quiet_probe n av e l d hz : effect quiet (probe n av e l d hz).
Proof. induction n; simpl; effect_auto. Qed.

Hint Resolve quiet_process_model quiet_visualize_map_row quiet_probe : effects.

Lemma quiet_find_slot av e l d hz : effect quiet (find_slot av e l d hz).
Proof. unfold find_slot. effect_auto. Qed.

Hint Resolve quiet_find_slot : effects.

(** *** Finding a slot *)

(** A candidate start that the probes or the scan accept. *)
Definition accepted (availability : list bool) (duration horizon s : Z) : Prop :=
  all (slice availability s (s + duration)) = true ∧ s + duration ≤ horizon.

Lemma accepted_test availability duration horizon s :
  all (slice availability s (s + duration)) && (s + duration <=? horizon) = true
  ↔ accepted availability duration horizon s.
Proof. unfold accepted. rewrite andb_true_iff, Z.leb_le. done. Qed.

Lemma result_random_randint a b :
  result (λ k, a ≤ k ≤ b) (random_randint a b : M Z).
Proof.
  intros w r w'. unfold random_randint.
  destruct (0 <? b - a + 1) eqn:E; [|done]. apply Z.ltb_lt in E.
  pose proof (rnd_randbelow_range (b - a + 1) (w_random w) E) as Hk.
  destruct (rnd_randbelow _ _) as [k g]. simpl in Hk.
  intros [= <- _]. lia.
Qed.

Lemma result_probe n av e l d hz :
  result (λ s, s = -1 ∨ (e ≤ s ∧ accepted av d hz s)) (probe n av e l d hz : M Z).
Proof.
  induction n as [|n IH]; simpl.
  - apply result_ret. by left.
  - eapply result_bind_with; [apply result_random_randint|].
    intros s Hs. cbv beta zeta in *.
    destruct (all _ && _) eqn:E; [|done].
    apply result_ret. right. split; [lia|]. by apply accepted_test.
Qed.

Lemma scan_spec cands av d hz :
  scan cands av d hz = -1 ∨
  (scan cands av d hz ∈ cands ∧ accepted av d hz (scan cands av d hz)).
Proof.
  induction cands as [|c cands IH]; simpl; [by left|].
  destruct (all _ && _) eqn:E.
  - right. split; [apply list_elem_of_here | by apply accepted_test].
  - destruct IH as [IH|[IH1 IH2]]; [by left|].
    right. split; [by apply list_elem_of_further | done].
Qed.

Lemma result_find_slot av e l d hz :
  result (λ s, s = -1 ∨ (e ≤ s ∧ accepted av d hz s))
         (find_slot av e l d hz : M Z).
Proof.
  unfold find_slot. eapply result_bind_with; [apply result_probe|].
  intros s Hs. cbv beta in Hs. destruct (s =? -1) eqn:E.
  - apply result_ret.
    destruct (scan_spec (seqZ e (l + 1 - d - e)) av d hz) as [Hn|[Hin Hacc]];
      [by left|].
    right. split; [|done]. apply elem_of_seqZ in Hin. lia.
  - apply result_ret. done.
Qed.

(** *** Committed windows *)

(** Every second of the window [s, s + d) is free, respectively busy, in
    the bitmap. *)
Definition window_free (bitmap : list bool) (s d : Z) : Prop :=
  ∀ n : nat, s ≤ Z.of_nat n < s + d → bitmap !! n = Some true.

Definition window_busy (bitmap : list bool) (s d : Z) : Prop :=
  ∀ n : nat, s ≤ Z.of_nat n < s + d → bitmap !! n = Some false.

(** Two windows share no second. *)
Definition disjoint_windows (w1 w2 : Z * Z) : Prop :=
  ∀ n : Z, ¬ (w1.1 ≤ n < w1.1 + w1.2 ∧ w2.1 ≤ n < w2.1 + w2.2).

Fixpoint pairwise_disjoint (l : list (Z * Z)) : Prop :=
  match l with
  | [] => True
  | w :: rest => Forall (disjoint_windows w) rest ∧ pairwise_disjoint rest
  end.

(** No bit that is busy before is free after. *)
Definition never_freed (before after : list bool) : Prop :=
  ∀ n : nat, before !! n = Some false → after !! n = Some false.

(** [extends fr fr']: how the activity's bitmap and the list of committed
    windows evolve from the frame [fr] to a later frame [fr']. *)
Definition extends (fr fr' : Frame) : Prop :=
  length (time_of_run fr') = length (time_of_run fr) ∧
  never_freed (time_of_run fr) (time_of_run fr') ∧
  ∃ new, committed fr' = committed fr ++ new ∧
         pairwise_disjoint new ∧
         ∀ s d, (s, d) ∈ new →
                0 ≤ s ∧ s + d ≤ Z.of_nat (length (time_of_run fr)) ∧
                window_free (time_of_run fr) s d ∧
                window_busy (time_of_run fr') s d.

Lemma pairwise_disjoint_app l1 l2 :
  pairwise_disjoint (l1 ++ l2) ↔
  pairwise_disjoint l1 ∧ pairwise_disjoint l2 ∧
  ∀ w1 w2, w1 ∈ l1 → w2 ∈ l2 → disjoint_windows w1 w2.
Proof.
  induction l1 as [|w l1 IH]; simpl.
  - split; [intros Hl2; repeat split; try done|tauto].
    intros w1 w2 Hw1. by apply elem_of_nil in Hw1.
  - rewrite Forall_app, IH. split.
    + intros [[H1 H2] (H3 & H4 & H5)]. repeat split; try done.
      intros w1 w2 Hw1 Hw2. apply elem_of_cons in Hw1 as [->|Hw1].
      * by eapply Forall_forall in H2.
      * by apply H5.
    + intros [[H1 H2] [H3 H4]]. repeat split; try done.
      * apply Forall_forall. intros w2 Hw2. apply H4; [left|done].
      * intros w1 w2 Hw1 Hw2. apply H4; [by right|done].
Qed.

Lemma extends_refl fr fr' :
  time_of_run fr' = time_of_run fr → committed fr' = committed fr →
  extends fr fr'.
Proof.
  intros Ht Hc. unfold extends. rewrite Ht, Hc. split; [done|].
  split; [by intros n|]. exists []. rewrite app_nil_r.
  split; [done|]. split; [done|]. intros s d Hin. by apply elem_of_nil in Hin.
Qed.

Lemma extends_trans fr1 fr2 fr3 :
  extends fr1 fr2 → extends fr2 fr3 → extends fr1 fr3.
Proof.
  intros (Hl12 & Hm12 & new12 & Hc12 & Hd12 & Hw12)
         (Hl23 & Hm23 & new23 & Hc23 & Hd23 & Hw23).
  split; [congruence|]. split; [intros n Hn; by apply Hm23, Hm12|].
  assert (∀ s d, (s, d) ∈ new23 → window_free (time_of_run fr1) s d) as Hfree.
  { intros s d Hin n Hn. destruct (Hw23 s d Hin) as (Hs & He & Hf & _).
    specialize (Hf n Hn).
    assert (is_Some (time_of_run fr1 !! n)) as [[] Hb]
      by (apply lookup_lt_is_Some; lia); [done|].
    apply Hm12 in Hb. congruence. }
  exists (new12 ++ new23). split; [by rewrite Hc23, Hc12, app_assoc|].
  split.
  - apply pairwise_disjoint_app. split; [done|]. split; [done|].
    intros [s1 d1] [s2 d2] H1 H2 n [Hn1 Hn2]. simpl in *.
    destruct (Hw12 s1 d1 H1) as (Hs1 & _ & _ & Hbusy).
    destruct (Hw23 s2 d2 H2) as (Hs2 & _ & Hfree2 & _).
    specialize (Hbusy (Z.to_nat n) ltac:(lia)).
    specialize (Hfree2 (Z.to_nat n) ltac:(lia)). congruence.
  - intros s d Hin. apply elem_of_app in Hin as [Hin|Hin].
    + destruct (Hw12 s d Hin) as (Hs & He & Hf & Hb).
      repeat split; try done. intros n Hn. by apply Hm23, Hb.
    + destruct (Hw23 s d Hin) as (Hs & He & Hf & Hb).
      repeat split; try done; [lia | by apply Hfree].
Qed.

(** The frame relation only looks at the bitmap and the committed list. *)
Lemma extends_same fr1 fr2 fr2' :
  extends fr1 fr2 →
  time_of_run fr2' = time_of_run fr2 → committed fr2' = committed fr2 →
  extends fr1 fr2'.
Proof.
  intros Hext Ht Hc. eapply extends_trans; [done|]. by apply extends_refl.
Qed.

(** *** One attempt *)

(** The bitmap in which [place] looks for a window. *)
Definition availability_of (user_earliest : option Z) (fr : Frame)
    (day_filter : list bool) : list bool :=
  match user_earliest with
  | Some _ =>
      zip_with andb (zip_with andb (user_available fr) (time_of_run fr))
               day_filter
  | None => zip_with andb (time_of_run fr) day_filter
  end.

Lemma result_availability (user_earliest : option Z) fr day_filter :
  result (λ av, av = availability_of user_earliest fr day_filter ∧
                length av = length (time_of_run fr) ∧
                length av = length day_filter ∧
                ∀ n : nat, av !! n = Some true →
                           time_of_run fr !! n = Some true)
    (match user_earliest with
     | Some _ =>
         b <- lift (bitand (user_available fr) (time_of_run fr));;
         lift (bitand b day_filter)
     | None => lift (bitand (time_of_run fr) day_filter)
     end : M (list bool)).
Proof.
  destruct user_earliest as [ue|]; simpl.
  - intros w r w' Hb. apply bind_Ok in Hb as (b & w1 & H1 & H2).
    apply lift_Ok in H1 as (b' & Hb' & [= <- <-]).
    apply lift_Ok in H2 as (av & Hav & [= <- <-]).
    pose proof Hb' as Hb''. pose proof Hav as Hav''.
    apply bitand_Ok in Hb' as (L1 & L2 & B1).
    apply bitand_Ok in Hav as (L3 & L4 & B2).
    unfold bitand in Hb'', Hav''.
    rewrite decide_True in Hb'' by done. rewrite decide_True in Hav'' by done.
    inversion Hb''; inversion Hav''; subst.
    repeat split; try congruence.
    intros n Hn. apply B2 in Hn as [Hn _]. by apply B1 in Hn as [_ Hn].
  - apply result_lift. intros av Hav. pose proof Hav as Hav'.
    apply bitand_Ok in Hav as (L1 & L2 & B1).
    unfold bitand in Hav'. rewrite decide_True in Hav' by done.
    inversion Hav'; subst.
    repeat split; try congruence.
    intros n Hn. by apply B1 in Hn as [Hn _].
Qed.

(** What one call of [place] does to the bitmap and to the committed
    list: nothing when it breaks, one window when it commits. *)
Definition place_post (fr : Frame) (duration : Z) (r : Step * Frame) : Prop :=
  match r.1 with
  | Break =>
      committed r.2 = committed fr ∧ time_of_run r.2 = time_of_run fr
  | Continue =>
      ∃ s, committed r.2 = committed fr ++ [(s, duration)] ∧
           time_of_run r.2
           = slice_fill (time_of_run fr) s (s + duration) false ∧
           0 ≤ s ∧ s + duration ≤ Z.of_nat (length (time_of_run fr)) ∧
           window_free (time_of_run fr) s duration ∧
           window_busy (time_of_run r.2) s duration
  end.

(** A window [(s, duration)] accepted in the availability bitmap is free
    in the activity's bitmap and busy once the slice is cleared. *)
Lemma commit_facts (tor av : list bool) duration s :
  length av = length tor →
  (∀ n : nat, av !! n = Some true → tor !! n = Some true) →
  0 ≤ s →
  accepted av duration (Z.of_nat (length av)) s →
  s + duration ≤ Z.of_nat (length tor) ∧
  window_free tor s duration ∧
  window_busy (slice_fill tor s (s + duration) false) s duration.
Proof.
  intros Hlen Hav Hs [Hall Hend]. split; [lia|]. split.
  - intros n Hn. apply Hav.
    apply (proj1 (all_slice av s (s + duration) Hs ltac:(lia)) Hall n Hn).
  - intros n Hn. rewrite slice_fill_lookup by lia.
    assert (is_Some (tor !! n)) as [b Hb] by (apply lookup_lt_is_Some; lia).
    rewrite Hb. simpl.
    replace (s <=? Z.of_nat n) with true by (symmetry; apply Z.leb_le; lia).
    replace (Z.of_nat n <? s + duration) with true
      by (symmetry; apply Z.ltb_lt; lia).
    done.
Qed.

Lemma place_post_extends fr duration r :
  place_post fr duration r → extends fr r.2.
Proof.
  unfold place_post. destruct r as [[] fr']; simpl.
  - intros (s & Hc & Ht & Hs & He & Hf & Hb). unfold extends.
    rewrite Ht. split; [apply length_slice_fill|].
    split; [intros n; apply slice_fill_false_mono|].
    exists [(s, duration)]. split; [done|]. split; [simpl; by split|].
    intros s' d' Hin. apply list_elem_of_singleton in Hin as [= -> ->].
    rewrite <- Ht. done.
  - intros [Hc Ht]. by apply extends_refl.
Qed.

Lemma result_place_step fuel a horizon d day_filter duration schedule
    user_earliest user_latest fr :
  Z.of_nat (length day_filter) = horizon →
  result (place_post fr duration)
         (place fuel a horizon d day_filter duration schedule user_earliest
                user_latest fr : M (Step * Frame)).
Proof.
  intros Hdf. unfold place.
  apply result_bind; intros _. apply result_bind; intros _.
  eapply result_bind_with; [apply result_availability|].
  intros av (_ & Hlen & Hlen' & Hav). apply result_bind; intros _.
  cbv zeta.
  assert (∀ today : list bool,
            place_post fr duration
              (Break, if 0 <? Tools.count today true
                      then mkFrame (activity_power fr)
                                   (scheduling_failures fr + 1)
                                   (scheduling_success fr) (time_of_run fr)
                                   (user_available fr) (committed fr)
                      else fr)) as Hbreak.
  { intros today. unfold place_post. simpl. by destruct (0 <? _). }
  destruct (Tools.get_earliest av) as [e|] eqn:He;
    [destruct (Tools.get_latest av) as [l|] eqn:Hl|].
  - destruct (l + 1 - duration <? e).
    + apply result_bind; intros today. apply result_ret. apply Hbreak.
    + eapply result_bind_with; [apply result_find_slot|].
      intros s Hs. cbv beta in Hs. destruct (s =? -1) eqn:E.
      * apply result_ret. by unfold place_post.
      * apply Z.eqb_neq in E. destruct Hs as [?|[Hes Hacc]]; [done|].
        apply result_bind; intros _. apply result_bind; intros power.
        apply result_ret. unfold place_post. simpl.
        pose proof (get_earliest_range _ _ He).
        exists s. split; [done|]. split; [done|]. split; [lia|].
        apply (commit_facts (time_of_run fr) av); try done; [lia|].
        by rewrite Hlen', Hdf.
  - apply result_bind; intros today. apply result_ret. apply Hbreak.
  - apply result_bind; intros today. apply result_ret. apply Hbreak.
Qed.

Lemma result_place fuel a horizon d day_filter duration schedule
    user_earliest user_latest fr :
  Z.of_nat (length day_filter) = horizon →
  result (λ r, extends fr r.2)
         (place fuel a horizon d day_filter duration schedule user_earliest
                user_latest fr : M (Step * Frame)).
Proof.
  intros Hdf w r w' Hr. eapply place_post_extends.
  by eapply result_place_step.
Qed.

Lemma result_attempt fuel a horizon d vary reps day_filter fr :
  Z.of_nat (length day_filter) = horizon →
  result (λ r, extends fr r.2)
         (attempt fuel a horizon d vary reps day_filter fr : M (Step * Frame)).
Proof.
  intros Hdf. unfold attempt. apply result_bind; intros r. cbv zeta.
  destruct (r.1.1.2).
  - by apply result_place.
  - apply result_bind; intros _. apply result_ret. by apply extends_refl.
Qed.

Lemma result_rep_loop n fuel a horizon d vary reps day_filter scheduled fr :
  Z.of_nat (length day_filter) = horizon →
  result (λ r, extends fr r.1)
         (rep_loop n fuel a horizon d vary reps day_filter scheduled fr
          : M (Frame * Z)).
Proof.
  intros Hdf. revert scheduled fr.
  induction n as [|n IH]; intros scheduled fr; simpl.
  - apply result_ret. by apply extends_refl.
  - eapply result_bind_with; [by apply result_attempt|].
    intros [st fr1] Hext. simpl in *. destruct st.
    + intros w r w' Hr. eapply extends_trans; [done|]. by eapply IH.
    + by apply result_ret.
Qed.

Lemma result_day_body fuel a num_days rate vary d fr :
  result (λ fr', extends fr fr')
         (day_body fuel a num_days rate vary d fr : M Frame).
Proof.
  unfold day_body. cbv zeta. apply result_bind; intros reps.
  eapply result_bind_with.
  { apply (result_lift (λ df, Z.of_nat (length df)
                              = num_days * Tools.secs_per_day)).
    intros df. unfold bitarray.
    destruct (_ <? 0) eqn:E; [done|]. apply Z.ltb_ge in E.
    intros [= <-]. rewrite length_replicate. lia. }
  intros df Hdf. cbv beta in Hdf.
  eapply result_bind_with.
  { apply result_rep_loop. by rewrite length_slice_fill. }
  intros [fr1 sch] Hext. apply result_ret. simpl in *.
  by eapply extends_same.
Qed.

Lemma result_day_loop fuel a num_days rate vary ds fr :
  result (λ fr', extends fr fr')
         (day_loop fuel a num_days rate vary ds fr : M Frame).
Proof.
  revert fr. induction ds as [|d ds IH]; intros fr; simpl.
  - apply result_ret. by apply extends_refl.
  - eapply result_bind_with; [apply result_day_body|].
    intros fr1 Hext w r w' Hr. eapply extends_trans; [done|]. by eapply IH.
Qed.

Lemma result_synthesize_frame fuel a num_days rate tor ua start_day vary :
  result (λ fr, ∃ power, extends (mkFrame power 0 0 tor ua []) fr)
         (ActivityModel_synthesize_frame fuel a num_days rate tor ua start_day
                                         vary : M Frame).
Proof.
  unfold ActivityModel_synthesize_frame.
  apply result_bind; intros power. cbv zeta.
  destruct (negb _).
  - apply result_bind; intros _. apply result_ret.
    exists power. by apply extends_refl.
  - apply result_bind; intros ps. apply result_bind; intros _.
    eapply result_bind_with; [apply result_day_loop|].
    intros fr Hext. apply result_bind; intros _. apply result_ret.
    by exists power.
Qed.

(** C3.  Committed windows of one activity.  (1) Whenever an attempt
    commits a window [s, s + duration), every second of it was free in the
    activity's time-of-run bitmap before and is busy in it after, and the
    attempt frees no bit.  (2) Over a whole call of [synthesize], no two
    committed windows overlap, each lies in the bitmap and is still busy in
    the final bitmap, and no bit that was busy at the start is free at the
    end. *)
Theorem committed_windows_never_overlap :
  (∀ fuel a horizon d day_filter duration schedule user_earliest user_latest
     (fr fr' : Frame) (st : Step) (w w' : World),
     Z.of_nat (length day_filter) = horizon →
     place fuel a horizon d day_filter duration schedule user_earliest
           user_latest fr w = Ok ((st, fr'), w') →
     never_freed (time_of_run fr) (time_of_run fr') ∧
     (st = Break → committed fr' = committed fr ∧
                   time_of_run fr' = time_of_run fr) ∧
     (st = Continue →
      ∃ s, committed fr' = committed fr ++ [(s, duration)] ∧
           0 ≤ s ∧ s + duration ≤ Z.of_nat (length (time_of_run fr)) ∧
           window_free (time_of_run fr) s duration ∧
           window_busy (time_of_run fr') s duration)) ∧
  (∀ fuel a num_days rate tor ua start_day vary (fr : Frame) (w w' : World),
     ActivityModel_synthesize_frame fuel a num_days rate tor ua start_day vary w
     = Ok (fr, w') →
     pairwise_disjoint (committed fr) ∧
     (∀ s d, (s, d) ∈ committed fr →
             0 ≤ s ∧ s + d ≤ Z.of_nat (length tor) ∧
             window_free tor s d ∧ window_busy (time_of_run fr) s d) ∧
     never_freed tor (time_of_run fr)).
Proof.
  split.
  - intros fuel a horizon d day_filter duration schedule ue ul fr fr' st w w'
           Hdf Hplace.
    pose proof (result_place_step _ _ _ _ _ _ _ _ _ _ Hdf _ _ _ Hplace)
      as Hpost.
    unfold place_post in Hpost. simpl in Hpost. destruct st.
    + destruct Hpost as (s & Hc & Ht & Hs & He & Hf & Hb).
      split; [rewrite Ht; intros n; apply slice_fill_false_mono|].
      split; [done|]. intros _. by exists s.
    + destruct Hpost as [Hc Ht]. rewrite Ht.
      split; [by intros n|]. split; [done|]. done.
  - intros fuel a num_days rate tor ua start_day vary fr w w' Hsyn.
    destruct (result_synthesize_frame _ _ _ _ _ _ _ _ _ _ _ Hsyn)
      as (power & Hl & Hm & new & Hc & Hd & Hw).
    simpl in *. subst new. done.
Qed.

(** *** Unsatisfied bindings *)

Lemma all_bindings_satisfied_false a ty :
  (ty, None) ∈ appliance_binding a → all_bindings_satisfied a = false.
Proof.
  intros Hin. unfold all_bindings_satisfied.
  apply not_true_iff_false. intros Hall.
  rewrite forallb_forall in Hall.
  apply list_elem_of_In, Hall in Hin. simpl in Hin. done.
Qed.

(** C6.  When a required appliance type is unbound, [synthesize] returns
    an all-zero power array of horizon length and changes nothing but the
    log, which receives the warning: the shared powers map, the event
    list, both bitmaps, the appliances and the random generators are as
    before, and no exception is raised. *)
Theorem unsatisfied_bindings_zero_contribution fuel a num_days rate
    (tor ua : list bool) start_day vary (w : World) ty :
  0 ≤ num_days →
  (ty, None) ∈ appliance_binding a →
  ActivityModel_synthesize fuel a num_days rate tor ua start_day vary w
  = Ok ((replicate (Z.to_nat (num_days * Tools.secs_per_day)) 0%Qc, tor, ua),
        with_log (mkLog WARNING
          "Unsatisfied bindings ({})! Will NOT synthesize this activity!" [])
          w).
Proof.
  intros Hdays Hin.
  unfold ActivityModel_synthesize, ActivityModel_synthesize_frame, bind, lift,
    np_zeros.
  replace (num_days * Tools.secs_per_day <? 0) with false
    by (symmetry; apply Z.ltb_ge; unfold Tools.secs_per_day; lia).
  by rewrite (all_bindings_satisfied_false a ty Hin).
Qed.

(** *** Scheduling exhaustion *)

(** A free run of length [d] starting at [s]. *)
Definition free_run (bitmap : list bool) (s d : Z) : Prop :=
  0 ≤ s ∧ s + d ≤ Z.of_nat (length bitmap) ∧ window_free bitmap s d.

(** The frame after a counted failure. *)
Definition count_failure (fr : Frame) : Frame :=
  mkFrame (activity_power fr) (scheduling_failures fr + 1)
          (scheduling_success fr) (time_of_run fr) (user_available fr)
          (committed fr).

Lemma accepted_free_run av d s :
  0 ≤ s → accepted av d (Z.of_nat (length av)) s → free_run av s d.
Proof.
  intros Hs [Hall Hend]. split; [done|]. split; [done|].
  intros n Hn. by apply (proj1 (all_slice av s (s + d) Hs ltac:(lia)) Hall).
Qed.

Lemma with_random_id (w : World) : with_random (w_random w) w = w.
Proof. by destruct w. Qed.

Lemma probe_total n av e l d hz (w : World) :
  e ≤ l + 1 - d →
  ∃ s g, probe n av e l d hz w = Ok (s, with_random g w) ∧
         (s = -1 ∨ (e ≤ s ∧ accepted av d hz s)).
Proof.
  intros Hel. revert w. induction n as [|n IH]; intros w; simpl.
  - exists (-1), (w_random w). rewrite with_random_id. split; [done | by left].
  - destruct (random_randint_range e (l + 1 - d) w Hel) as (k & g & Hk & Hr).
    unfold bind. rewrite Hk. destruct (all _ && _) eqn:E.
    + exists k, g. split; [done|]. right. split; [lia|].
      by apply accepted_test.
    + destruct (IH (with_random g w)) as (s & g' & Hs & Hspec).
      exists s, g'. split; [|done]. by rewrite Hs.
Qed.

Lemma find_slot_exhausted av e l d (w : World) :
  0 ≤ e → e ≤ l + 1 - d →
  (∀ s, ¬ free_run av s d) →
  ∃ g, find_slot av e l d (Z.of_nat (length av)) w = Ok (-1, with_random g w).
Proof.
  intros He Hel Hnone. unfold find_slot, bind.
  destruct (probe_total 10 av e l d (Z.of_nat (length av)) w Hel)
    as (s & g & -> & [->|[Hs Hacc]]).
  - exists g. simpl. unfold ret. do 2 f_equal.
    destruct (scan_spec (seqZ e (l + 1 - d - e)) av d (Z.of_nat (length av)))
      as [Hn|[Hin Hacc]]; [done|].
    apply elem_of_seqZ in Hin. exfalso.
    apply (Hnone (scan (seqZ e (l + 1 - d - e)) av d (Z.of_nat (length av)))).
    apply accepted_free_run; [lia | done].
  - exfalso. apply (Hnone s). apply accepted_free_run; [lia | done].
Qed.

Lemma count_true_pos (bitmap : list bool) (n : nat) :
  bitmap !! n = Some true → 0 < Tools.count bitmap true.
Proof.
  intros Hn. unfold Tools.count.
  assert (true ∈ filter (λ b : bool, b = true) bitmap) as Hin.
  { apply list_elem_of_filter. split; [done|].
    apply list_elem_of_lookup. by exists n. }
  destruct (filter _ bitmap); [by apply elem_of_nil in Hin | simpl; lia].
Qed.

Lemma visualize_map_row_whole (bitmap : list bool) num_days d (w : World) :
  0 ≤ d < num_days →
  Z.of_nat (length bitmap) = num_days * Tools.secs_per_day →
  visualize_map_row bitmap d w = Ok (tt, w).
Proof.
  intros Hd Hlen. unfold visualize_map_row. rewrite Hlen.
  rewrite Z.div_mul by done.
  by replace (d <? num_days) with true by (symmetry; apply Z.ltb_lt; lia).
Qed.

(** With bitmaps of horizon length and no free run of the candidate
    duration in the availability bitmap, [place] breaks without raising,
    commits nothing, and counts one failure unless the activity has no
    free second at all on the current day. *)
Lemma place_exhausted fuel a num_days d day_filter duration schedule
    user_earliest user_latest fr (w : World) :
  let horizon := num_days * Tools.secs_per_day in
  let today := zip_with andb (time_of_run fr) day_filter in
  0 ≤ d < num_days →
  Z.of_nat (length (time_of_run fr)) = horizon →
  Z.of_nat (length (user_available fr)) = horizon →
  Z.of_nat (length day_filter) = horizon →
  (∀ s, ¬ free_run (availability_of user_earliest fr day_filter) s duration) →
  ∃ g, place fuel a horizon d day_filter duration schedule user_earliest
             user_latest fr w
       = Ok ((Break, if 0 <? Tools.count today true then count_failure fr
                     else fr),
             with_random g w).
Proof.
  intros horizon today Hd Htor Hua Hdf Hnone.
  set (av := availability_of user_earliest fr day_filter) in *.
  assert (Z.of_nat (length av) = horizon) as Hav.
  { unfold av, availability_of. destruct user_earliest;
      rewrite !length_zip_with; lia. }
  assert (∀ n : nat, av !! n = Some true → today !! n = Some true) as Hbits.
  { intros n. unfold av, today, availability_of.
    destruct user_earliest; rewrite !lookup_zip_with; [|done].
    destruct (user_available fr !! n) as [[]|],
             (time_of_run fr !! n) as [[]|],
             (day_filter !! n) as [[]|]; simpl; congruence. }
  assert (∃ g, Ok ((Break, if 0 <? Tools.count today true
                           then count_failure fr else fr), w)
               = Ok ((Break, if 0 <? Tools.count today true
                             then count_failure fr else fr),
                     with_random g w)) as Hquiet.
  { exists (w_random w). by rewrite with_random_id. }
  unfold place.
  rewrite (bind_step _ _ w tt w).
  2:{ destruct (negb _); [|done]. by apply (visualize_map_row_whole _ num_days). }
  rewrite (bind_step _ _ w tt w)
    by (by apply (visualize_map_row_whole _ num_days)).
  rewrite (bind_step _ _ w av w).
  2:{ unfold av, availability_of. destruct user_earliest.
      - unfold bind. rewrite bitand_same_length by lia. simpl.
        rewrite bitand_same_length by (rewrite length_zip_with; lia). done.
      - rewrite bitand_same_length by lia. done. }
  rewrite (bind_step _ _ w tt w)
    by (by apply (visualize_map_row_whole _ num_days)).
  cbv zeta.
  destruct (Tools.get_earliest av) as [e|] eqn:He;
    [destruct (Tools.get_latest av) as [l|] eqn:Hl|].
  - destruct (l + 1 - duration <? e) eqn:Hfit.
    + rewrite (bind_step _ _ w today w)
        by (by rewrite bitand_same_length by lia).
      apply Hquiet.
    + apply Z.ltb_ge in Hfit.
      pose proof (get_earliest_range _ _ He) as Hrange.
      destruct (find_slot_exhausted av e l duration w ltac:(lia) Hfit Hnone)
        as [g Hg].
      rewrite Hav in Hg. rewrite (bind_step _ _ _ _ _ Hg). simpl.
      exists g. unfold ret. do 3 f_equal.
      apply index_true_Some in He as (n & _ & Hn & _).
      apply Hbits, count_true_pos in Hn.
      by replace (0 <? Tools.count today true) with true
        by (symmetry; by apply Z.ltb_lt).
  - rewrite (bind_step _ _ w today w)
      by (by rewrite bitand_same_length by lia).
    apply Hquiet.
  - rewrite (bind_step _ _ w today w)
      by (by rewrite bitand_same_length by lia).
    apply Hquiet.
Qed.

(** C7, as the code has it.  The horizon is [num_days] whole days, the
    bitmaps have horizon length and [d] is a day of the horizon.  When the
    interpreter yields a candidate and the intersection of the legal-time
    bitmap, the day mask and (if the user is involved) the user's bitmap
    has no free run of the candidate's duration, the attempt raises
    nothing, commits nothing and only advances the [random] generator; it
    counts one scheduling failure, except when the activity has no free
    second at all on that day, in which case nothing is counted; the loop
    over the day's repetitions ends there; and the loop over the days goes
    on with the next day. *)
Theorem exhausted_day_counts_and_stops fuel a num_days d day_filter vary reps
    (n : nat) scheduled fr (w w1 : World) duration schedule user_earliest
    user_latest :
  let horizon := num_days * Tools.secs_per_day in
  let today := zip_with andb (time_of_run fr) day_filter in
  let fr' := if 0 <? Tools.count today true then count_failure fr else fr in
  0 ≤ d < num_days →
  Z.of_nat (length (time_of_run fr)) = horizon →
  Z.of_nat (length (user_available fr)) = horizon →
  Z.of_nat (length day_filter) = horizon →
  process_model fuel a vary w
  = Ok ((duration, Some schedule, user_earliest, user_latest), w1) →
  (∀ s, ¬ free_run (availability_of user_earliest fr day_filter) s duration) →
  (∃ g,
     attempt fuel a horizon d vary reps day_filter fr w
     = Ok ((Break, fr'), with_random g w1) ∧
     rep_loop (S n) fuel a horizon d vary reps day_filter scheduled fr w
     = Ok ((fr', scheduled), with_random g w1)) ∧
  (∀ rate rest fr0 fr1 (w0 w2 : World),
     day_body fuel a num_days rate vary d fr0 w0 = Ok (fr1, w2) →
     day_loop fuel a num_days rate vary (d :: rest) fr0 w0
     = day_loop fuel a num_days rate vary rest fr1 w2).
Proof.
  intros horizon today fr' Hd Htor Hua Hdf Hmodel Hnone. split.
  - destruct (place_exhausted fuel a num_days d day_filter duration schedule
                user_earliest user_latest fr w1 Hd Htor Hua Hdf Hnone)
      as [g Hplace].
    assert (attempt fuel a horizon d vary reps day_filter fr w
            = Ok ((Break, fr'), with_random g w1)) as Hattempt.
    { unfold attempt. rewrite (bind_step _ _ _ _ _ Hmodel). simpl.
      apply Hplace. }
    exists g. split; [done|].
    simpl. by rewrite (bind_step _ _ _ _ _ Hattempt).
  - intros rate rest fr0 fr1 w0 w2 Hbody. simpl.
    by rewrite (bind_step _ _ _ _ _ Hbody).
Qed.

(** *** The events of one instance *)

(** The event list is untouched. *)
Definition same_events (w w' : World) : Prop := w_events w' = w_events w.

#[local] Instance same_events_preorder : PreOrder same_events.
Proof. split; [by intros w | intros w1 w2 w3 H1 H2; unfold same_events in *; congruence]. Qed.

Lemma quiet_same_events {A} (m : M A) : effect quiet m → effect same_events m.
Proof. intros Hm w r w' Hr. by destruct (Hm w r w' Hr). Qed.

Lemma same_events_iadd_power k v : effect same_events (iadd_power k v).
Proof.
  unfold iadd_power, get_powers, set_power. intros w r w' Hr.
  apply bind_Ok in Hr as (ps & w1 & [= <- <-] & Hr).
  destruct (w_powers w !! k); [|done].
  apply bind_Ok in Hr as (a' & w2 & Hl & [= _ <-]).
  apply lift_Ok in Hl as (? & _ & [= _ <-]). done.
Qed.

(** Offset, kind and transition of an event. *)
Definition mark (e : Event) : Z * EventKind * Transition :=
  (ev_offset e, ev_kind e, ev_transition e).

(** The DEVICE events of a schedule started at [s]: for each entry, ON at
    its offset and OFF at its offset plus its runtime minus one. *)
Definition device_marks (s : Z) (items : Schedule)
  : list (Z * EventKind * Transition) :=
  flat_map (λ item : Z * (option string * Z),
              [(s + item.1, DEV, ON); (s + item.1 + item.2.2 - 1, DEV, OFF)])
           items.

(** The running maximum [final] of the loop. *)
Definition final_of (s : Z) (items : Schedule) (final : Z) : Z :=
  fold_left (λ f (item : Z * (option string * Z)),
               if f <? s + item.1 + item.2.2 - 1
               then s + item.1 + item.2.2 - 1 else f)
            items final.

Lemma run_schedule_events fuel a s items power final (w w' : World) power'
    final' :
  run_schedule fuel a s items power final w = Ok ((power', final'), w') →
  ∃ devs, w_events w' = w_events w ++ devs ∧
          mark <$> devs = device_marks s items ∧
          final' = final_of s items final.
Proof.
  revert power final w. induction items as [|[app_start [app dur]] rest IH];
    intros power final w; simpl.
  - intros [= <- <- <-]. exists []. by rewrite app_nil_r.
  - intros Hr.
    apply bind_Ok in Hr as (obj & w1 & H1 & Hr).
    apply quiet_deref in H1 as [_ E1].
    apply bind_Ok in Hr as ([] & w2 & [= <-] & Hr).
    apply bind_Ok in Hr as (app_power & w3 & H3 & Hr).
    apply quiet_ApplianceModel_synthesize in H3 as [_ E3].
    apply bind_Ok in Hr as (power1 & w4 & H4 & Hr).
    apply lift_Ok in H4 as (? & _ & [= _ <-]).
    apply bind_Ok in Hr as ([] & w5 & H5 & Hr).
    apply same_events_iadd_power in H5.
    apply bind_Ok in Hr as ([] & w6 & [= <-] & Hr).
    apply IH in Hr as (devs & Hev & Hmarks & Hfinal).
    simpl in *. unfold same_events in H5.
    eexists (_ :: _ :: devs). split; [|split].
    + rewrite Hev, H5, E3. simpl. rewrite E1.
      rewrite <- !app_assoc. reflexivity.
    + rewrite !fmap_cons, Hmarks. done.
    + done.
Qed.

Lemma final_of_ge s items final : final ≤ final_of s items final.
Proof.
  revert final. induction items as [|item rest IH]; intros final; simpl; [lia|].
  etrans; [|apply IH]. destruct (_ <? _) eqn:E; [apply Z.ltb_lt in E|]; lia.
Qed.

Lemma final_of_bound s items final item :
  item ∈ items → s + item.1 + item.2.2 - 1 ≤ final_of s items final.
Proof.
  revert final. induction items as [|item' rest IH]; intros final Hin; simpl.
  - by apply elem_of_nil in Hin.
  - apply elem_of_cons in Hin as [->|Hin]; [|by apply IH].
    etrans; [|apply final_of_ge].
    destruct (_ <? _) eqn:E; [lia | apply Z.ltb_ge in E; lia].
Qed.

Lemma final_of_attained s items final :
  final_of s items final = final ∨
  ∃ item, item ∈ items ∧ final_of s items final = s + item.1 + item.2.2 - 1.
Proof.
  revert final. induction items as [|item rest IH]; intros final; simpl;
    [by left|].
  destruct (IH (if final <? s + item.1 + item.2.2 - 1
                then s + item.1 + item.2.2 - 1 else final))
    as [Heq|(item' & Hin & Heq)].
  - rewrite Heq. destruct (_ <? _); [|by left].
    right. exists item. split; [apply list_elem_of_here | done].
  - right. exists item'. split; [by apply list_elem_of_further | done].
Qed.

(** C4, as the code has it.  For an instance started at [s >= 0] whose
    scheduled sub-operations all have a relative offset of at least 0 and
    a runtime of at least one second, the events appended are ACTIVITY
    START at [s], the DEVICE ON/OFF pairs of the schedule and ACTIVITY END
    at [final]; every DEVICE event lies in [s, final]; and when the
    schedule is not empty, [final] is the largest DEVICE OFF offset. *)
Theorem device_events_within_activity fuel a s (schedule : Schedule) power
    power' (w w' : World) :
  0 ≤ s →
  (∀ item, item ∈ schedule → 0 ≤ item.1 ∧ 1 ≤ item.2.2) →
  emit_instance fuel a s schedule power w = Ok (power', w') →
  ∃ devs final,
    w_events w'
    = w_events w ++ [mkEvent s ACT (activity_type a) START] ++ devs
        ++ [mkEvent final ACT (activity_type a) END] ∧
    mark <$> devs = device_marks s schedule ∧
    (∀ e, e ∈ devs → ev_kind e = DEV ∧ s ≤ ev_offset e ≤ final) ∧
    (∀ e, e ∈ devs → ev_transition e = OFF → ev_offset e ≤ final) ∧
    (schedule ≠ [] →
     ∃ e, e ∈ devs ∧ ev_transition e = OFF ∧ ev_offset e = final).
Proof.
  intros Hs Hitems Hemit. unfold emit_instance in Hemit.
  apply bind_Ok in Hemit as ([] & w1 & [= <-] & Hemit).
  apply bind_Ok in Hemit as ([power1 final] & w2 & Hrun & Hemit).
  apply bind_Ok in Hemit as ([] & w3 & [= <-] & [= <- <-]).
  apply run_schedule_events in Hrun as (devs & Hev & Hmarks & Hfinal).
  simpl in *. exists devs, final.
  assert (∀ e, e ∈ devs →
            ∃ item, item ∈ schedule ∧
                    (mark e = (s + item.1, DEV, ON) ∨
                     mark e = (s + item.1 + item.2.2 - 1, DEV, OFF))) as Hdev.
  { intros e He. apply (list_elem_of_fmap_2 mark) in He.
    rewrite Hmarks in He. unfold device_marks in He.
    apply list_elem_of_In, in_flat_map in He as (item & Hin & Hm).
    exists item. split; [by apply list_elem_of_In|].
    simpl in Hm. destruct Hm as [<-|[<-|[]]]; [by left | by right]. }
  split; [|split; [|split; [|split]]].
  - rewrite Hev. simpl. by rewrite <- !app_assoc.
  - done.
  - intros e He. destruct (Hdev e He) as (item & Hin & Hm).
    destruct (Hitems item Hin) as [Hoff Hdur].
    pose proof (final_of_bound s schedule 0 item Hin) as Hb.
    rewrite <- Hfinal in Hb. unfold mark in Hm.
    destruct Hm as [[= -> -> _]|[= -> -> _]]; split; try done; lia.
  - intros e He Hoff. destruct (Hdev e He) as (item & Hin & Hm).
    pose proof (final_of_bound s schedule 0 item Hin) as Hb.
    rewrite <- Hfinal in Hb. unfold mark in Hm.
    destruct Hm as [[= _ _ Ht]|[= -> _ _]]; [congruence | lia].
  - intros Hne.
    assert (∃ item, item ∈ schedule ∧ final = s + item.1 + item.2.2 - 1)
      as (item & Hin & Heq).
    { destruct (final_of_attained s schedule 0) as [H0|(item & Hin & Heq)].
      - destruct schedule as [|item rest]; [done|].
        exists item. split; [apply list_elem_of_here|].
        pose proof (final_of_bound s (item :: rest) 0 item
                      ltac:(apply list_elem_of_here)) as Hb.
        destruct (Hitems item ltac:(apply list_elem_of_here)). lia.
      - exists item. split; [done | congruence]. }
    assert ((final, DEV, OFF) ∈ mark <$> devs) as Hin'.
    { rewrite Hmarks. unfold device_marks.
      apply list_elem_of_In, in_flat_map. exists item.
      split; [by apply list_elem_of_In|]. simpl. right. left.
      by rewrite Heq. }
    apply list_elem_of_fmap in Hin' as (e & Hm & He).
    exists e. unfold mark in Hm. inversion Hm. done.
Qed.

(** *** Which entries of the powers map a call can change *)

(** Only the entry [k] of the shared powers map may differ. *)
Definition powers_frame (k : string) (w w' : World) : Prop :=
  ∀ j, j ≠ k → w_powers w' !! j = w_powers w !! j.

#[local] Instance powers_frame_preorder k : PreOrder (powers_frame k).
Proof.
  split.
  - by intros w j.
  - intros w1 w2 w3 H1 H2 j Hj. rewrite H2, H1; done.
Qed.

Lemma quiet_powers_frame {A} k (m : M A) :
  effect quiet m → effect (powers_frame k) m.
Proof. intros Hm w r w' Hr j _. destruct (Hm w r w' Hr) as [-> _]. done. Qed.

Lemma powers_frame_set_power k v : effect (powers_frame k) (set_power k v).
Proof.
  intros w r w'. unfold set_power. intros [= _ <-] j Hj. simpl.
  by rewrite lookup_insert_ne.
Qed.

Lemma powers_frame_iadd_power k v : effect (powers_frame k) (iadd_power k v).
Proof.
  unfold iadd_power, get_powers. intros w r w' Hr.
  apply bind_Ok in Hr as (ps & w1 & [= <- <-] & Hr).
  destruct (w_powers w !! k); [|done].
  apply bind_Ok in Hr as (a' & w2 & Hl & Hset).
  apply lift_Ok in Hl as (? & _ & [= _ <-]).
  by apply powers_frame_set_power in Hset.
Qed.

Lemma powers_frame_events_append k e :
  effect (powers_frame k) (events_append e).
Proof. intros w r w'. unfold events_append. by intros [= _ <-] j Hj. Qed.

Lemma powers_frame_get_powers k : effect (powers_frame k) get_powers.
Proof. intros w r w'. unfold get_powers. by intros [= _ <-] j Hj. Qed.

Hint Resolve quiet_powers_frame powers_frame_set_power
  powers_frame_iadd_power powers_frame_events_append
  powers_frame_get_powers : effects.

Lemma powers_frame_run_schedule fuel a s items power final :
  effect (powers_frame (activity_type a))
         (run_schedule fuel a s items power final).
Proof.
  revert power final.
  induction items as [|[app_start [app dur]] rest IH]; intros power final;
    simpl; effect_auto.
Qed.

Hint Resolve powers_frame_run_schedule : effects.

Lemma powers_frame_emit_instance fuel a s schedule power :
  effect (powers_frame (activity_type a))
         (emit_instance fuel a s schedule power).
Proof. unfold emit_instance. effect_auto. Qed.

Hint Resolve powers_frame_emit_instance : effects.

Lemma powers_frame_place fuel a hz d df duration schedule ue ul fr :
  effect (powers_frame (activity_type a))
         (place fuel a hz d df duration schedule ue ul fr).
Proof. unfold place. effect_auto. Qed.

Hint Resolve powers_frame_place : effects.

Lemma powers_frame_attempt fuel a hz d vary reps df fr :
  effect (powers_frame (activity_type a))
         (attempt fuel a hz d vary reps df fr).
Proof. unfold attempt. effect_auto. Qed.

Hint Resolve powers_frame_attempt : effects.

Lemma powers_frame_rep_loop n fuel a hz d vary reps df scheduled fr :
  effect (powers_frame (activity_type a))
         (rep_loop n fuel a hz d vary reps df scheduled fr).
Proof.
  revert scheduled fr. induction n as [|n IH]; intros scheduled fr; simpl;
    effect_auto.
Qed.

Hint Resolve powers_frame_rep_loop : effects.

Lemma powers_frame_day_body fuel a num_days rate vary d fr :
  effect (powers_frame (activity_type a))
         (day_body fuel a num_days rate vary d fr).
Proof. unfold day_body, draw_reps. effect_auto. Qed.

Hint Resolve powers_frame_day_body : effects.

Lemma powers_frame_day_loop fuel a num_days rate vary ds fr :
  effect (powers_frame (activity_type a))
         (day_loop fuel a num_days rate vary ds fr).
Proof. revert fr. induction ds as [|d ds IH]; intros fr; simpl; effect_auto. Qed.

Hint Resolve powers_frame_day_loop : effects.

Lemma powers_frame_synthesize fuel a num_days rate tor ua start_day vary :
  effect (powers_frame (activity_type a))
         (ActivityModel_synthesize fuel a num_days rate tor ua start_day vary).
Proof.
  unfold ActivityModel_synthesize, ActivityModel_synthesize_frame.
  effect_auto.
Qed.

(** *** The total and the per-user arrays *)

(** Elementwise sum of arrays of length [n]. *)
Definition sum_arrays (n : nat) (arrs : list (list Qc)) : list Qc :=
  foldr (zip_with Qcplus) (replicate n 0%Qc) arrs.

(** What [a += v] adds to an array of length [n]: [v] itself, or its single
    element broadcast. *)
Definition increment (n : nat) (v : list Qc) : list Qc :=
  if decide (length v = n) then v
  else match v with
       | [x] => replicate n x
       | _ => []
       end.

Lemma np_iadd_increment a v a' :
  np_iadd a v = Ok a' →
  a' = zip_with Qcplus a (increment (length a) v) ∧
  length (increment (length a) v) = length a.
Proof.
  unfold np_iadd, increment. case_decide as Hlen.
  - intros [= <-]. done.
  - destruct v as [|x [|y v]]; [done| |done]. intros [= <-].
    rewrite length_replicate. split; [|done].
    clear Hlen. induction a as [|y a IH]; simpl; [done|]. by rewrite IH.
Qed.

Lemma zip_with_Qcplus_assoc (a b c : list Qc) :
  zip_with Qcplus (zip_with Qcplus a b) c
  = zip_with Qcplus a (zip_with Qcplus b c).
Proof.
  revert b c. induction a as [|x a IH]; intros [|y b] [|z c]; simpl; try done.
  by rewrite IH, Qcplus_assoc.
Qed.

Lemma zip_with_Qcplus_comm (a b : list Qc) :
  zip_with Qcplus a b = zip_with Qcplus b a.
Proof.
  revert b. induction a as [|x a IH]; intros [|y b]; simpl; try done.
  by rewrite IH, Qcplus_comm.
Qed.

Lemma zip_with_Qcplus_zeros (a : list Qc) :
  zip_with Qcplus a (replicate (length a) 0%Qc) = a.
Proof. induction a as [|x a IH]; simpl; [done|]. by rewrite IH, Qcplus_0_r. Qed.

Lemma length_sum_arrays n arrs :
  Forall (λ arr, length arr = n) arrs → length (sum_arrays n arrs) = n.
Proof.
  induction 1 as [|arr arrs Harr _ IH]; simpl.
  - apply length_replicate.
  - rewrite length_zip_with. cbv beta in Harr. fold (sum_arrays n arrs). lia.
Qed.

Lemma sum_arrays_snoc n arrs x :
  Forall (λ arr, length arr = n) arrs → length x = n →
  sum_arrays n (arrs ++ [x]) = zip_with Qcplus (sum_arrays n arrs) x.
Proof.
  intros Harrs Hx. induction Harrs as [|arr arrs Harr _ IH]; simpl.
  - by rewrite zip_with_Qcplus_comm.
  - fold (sum_arrays n (arrs ++ [x])). fold (sum_arrays n arrs).
    by rewrite IH, zip_with_Qcplus_assoc.
Qed.

(** The invariant of the loop over the users: the total has length [n]
    and is the elementwise sum of the arrays of the users done, each of
    length [n]. *)
Definition total_is_sum (n : nat) (done : list UserModel) (w : World) : Prop :=
  ∃ arrs,
    Forall2 (λ u arr, w_powers w !! name u = Some arr ∧ length arr = n)
            done arrs ∧
    w_powers w !! "total" = Some (sum_arrays n arrs).

(** The invariant of the loop over the activities of the user [nm]: his
    array is [acc] and the total is [base] plus [acc]. *)
Definition user_in_progress (n : nat) (nm : string) (base acc : list Qc)
    (w : World) : Prop :=
  length base = n ∧ length acc = n ∧
  w_powers w !! nm = Some acc ∧
  w_powers w !! "total" = Some (zip_with Qcplus base acc).

Lemma iadd_power_Ok k v (w w' : World) r :
  iadd_power k v w = Ok (r, w') →
  ∃ a, w_powers w !! k = Some a ∧
       length (increment (length a) v) = length a ∧
       w_powers w'
       = <[k := zip_with Qcplus a (increment (length a) v)]> (w_powers w).
Proof.
  unfold iadd_power, get_powers, set_power. intros Hr.
  apply bind_Ok in Hr as (ps & w1 & [= <- <-] & Hr).
  destruct (w_powers w !! k) as [a|]; [|done].
  apply bind_Ok in Hr as (a' & w2 & Hl & [= _ <-]).
  apply lift_Ok in Hl as (? & Hadd & [= <- <-]).
  apply np_iadd_increment in Hadd as [-> Hlen]. by exists a.
Qed.

Lemma draw_keys_snd {A} (items : list A) :
  result (λ ks, ks.*2 = items) (draw_keys items : M (list (Qc * A))).
Proof.
  induction items as [|x items IH]; simpl.
  - by apply result_ret.
  - apply result_bind; intros k.
    eapply result_bind_with; [apply IH|].
    intros ks Hks. apply result_ret. cbv beta in Hks.
    by rewrite fmap_cons, Hks.
Qed.

Lemma elem_of_insert_by_key {A} (x y : Qc * A) l :
  y ∈ insert_by_key x l → y = x ∨ y ∈ l.
Proof.
  induction l as [|z l IH]; simpl.
  - intros Hy. apply list_elem_of_singleton in Hy. by left.
  - destruct (Qcltb x.1 z.1).
    + intros Hy. apply elem_of_cons in Hy as [->|Hy]; [by left | by right].
    + intros Hy. apply elem_of_cons in Hy as [->|Hy].
      * right. apply list_elem_of_here.
      * destruct (IH Hy) as [->|Hin]; [by left|].
        right. by apply list_elem_of_further.
Qed.

Lemma elem_of_sorted_by_key {A} (l : list (Qc * A)) x :
  x ∈ sorted_by_key l → x ∈ l.*2.
Proof.
  unfold sorted_by_key.
  assert (∀ acc (y : Qc * A),
            y ∈ foldl (λ acc x, insert_by_key x acc) acc l → y ∈ acc ∨ y ∈ l)
    as Hfold.
  { induction l as [|z l IH]; intros acc y; simpl; [by left|].
    intros Hy. destruct (IH _ _ Hy) as [Hin|Hin].
    - destruct (elem_of_insert_by_key _ _ _ Hin) as [->|Hacc];
        [right; apply list_elem_of_here | by left].
    - right. by apply list_elem_of_further. }
  intros Hx. apply list_elem_of_In, in_map_iff in Hx as (y & <- & Hy).
  apply list_elem_of_In in Hy.
  destruct (Hfold [] y Hy) as [Hnil|Hin]; [by apply elem_of_nil in Hnil|].
  by apply list_elem_of_fmap_2.
Qed.

Lemma quiet_draw_keys {A} (items : list A) :
  effect quiet (draw_keys items : M (list (Qc * A))).
Proof. induction items; simpl; effect_auto. Qed.

Lemma synthesize_activities_inv fuel start_day vary (keep : list string)
    (n : nat) (base : list Qc) acts :
  ∀ u acc (w w' : World) u',
    user_in_progress n (name u) base acc w →
    name u ≠ "total" →
    (∀ nm acti, (nm, acti) ∈ acts →
                activity_type acti ≠ "total" ∧ activity_type acti ≠ name u ∧
                activity_type acti ∉ keep) →
    name u ∉ keep → "total" ∉ keep →
    synthesize_activities fuel u start_day vary acts w = Ok (u', w') →
    ∃ acc', user_in_progress n (name u) base acc' w' ∧
            ∀ j, j ∈ keep → w_powers w' !! j = w_powers w !! j.
Proof.
  induction acts as [|[nm acti] acts IH];
    intros u acc w w' u' Hinv Hne Hacts Hu Ht; simpl.
  - intros [= _ <-]. by exists acc.
  - intros Hr.
    destruct (Hacts nm acti ltac:(apply list_elem_of_here))
      as (Hty_total & Hty_user & Hty_keep).
    apply bind_Ok in Hr as (r & w1 & Hsyn & Hr).
    assert (powers_frame (activity_type acti) w w1) as Hframe.
    { destruct (runs_per_day u !! nm); [|done].
      destruct (possible_runtimes u !! nm); [|done].
      by eapply powers_frame_synthesize. }
    cbv zeta in Hr. simpl in Hr.
    apply bind_Ok in Hr as ([] & w2 & Hadd1 & Hr).
    apply bind_Ok in Hr as ([] & w3 & Hadd2 & Hr).
    destruct Hinv as (Hbase & Hacc & Huser & Htotal).
    apply iadd_power_Ok in Hadd1 as (a1 & Ha1 & Hl1 & Hw2).
    rewrite Hframe, Huser in Ha1 by done. inversion Ha1; subst a1.
    apply iadd_power_Ok in Hadd2 as (a2 & Ha2 & Hl2 & Hw3).
    rewrite Hw2, lookup_insert_ne, Hframe, Htotal in Ha2 by done.
    inversion Ha2; subst a2.
    rewrite length_zip_with in Hw3, Hl2.
    replace (length base `min` length acc)%nat with (length acc) in Hw3, Hl2
      by lia.
    set (acc' := zip_with Qcplus acc (increment (length acc) r.1.1)) in *.
    eapply (IH _ acc') in Hr as (acc'' & Hinv' & Hkeep); simpl; try done.
    + exists acc''. split; [done|]. intros j Hj.
      rewrite Hkeep, Hw3, Hw2 by done.
      rewrite !lookup_insert_ne by (intros E; subst j; done).
      apply Hframe. intros E. by subst j.
    + split; [done|]. split; [unfold acc'; rewrite length_zip_with; lia|].
      split.
      * rewrite Hw3, lookup_insert_ne, Hw2 by done. apply lookup_insert_eq.
      * rewrite Hw3, lookup_insert_eq. f_equal.
        apply zip_with_Qcplus_assoc.
    + intros nm' acti' Hin. apply (Hacts nm' acti').
      by apply list_elem_of_further.
Qed.

Lemma UserModel_synthesize_inv fuel start_day vary (n : nat) done u
    (w w' : World) u' :
  total_is_sum n done w →
  Z.to_nat (days u * Tools.secs_per_day) = n →
  name u ≠ "total" →
  name u ∉ name <$> done →
  "total" ∉ name <$> done →
  (∀ nm acti, (nm, acti) ∈ activities u →
              activity_type acti ≠ "total" ∧ activity_type acti ≠ name u ∧
              activity_type acti ∉ name <$> done) →
  UserModel_synthesize fuel u start_day vary w = Ok (u', w') →
  total_is_sum n (done ++ [u]) w'.
Proof.
  intros (arrs & Harrs & Htotal) Hn Hne Hu Ht Hacts Hsyn.
  unfold UserModel_synthesize in Hsyn.
  apply bind_Ok in Hsyn as (z & w1 & Hz & Hsyn).
  apply lift_Ok in Hz as (z' & Hz & [= -> ->]).
  unfold np_zeros in Hz. destruct (_ <? 0); [done|]. inversion Hz; subst z'.
  rewrite Hn in Hsyn.
  apply bind_Ok in Hsyn as ([] & w2 & [= <-] & Hsyn).
  apply bind_Ok in Hsyn as (keyed & w3 & Hkeys & Hsyn).
  assert (w_powers w3 = <[name u := replicate n 0%Qc]> (w_powers w)) as Hp3.
  { by destruct (quiet_draw_keys _ _ _ _ Hkeys) as [-> _]. }
  assert (Forall (λ arr : list Qc, length arr = n) arrs) as Hlens.
  { clear -Harrs. induction Harrs as [|? ? ? ? [_ ?]]; by constructor. }
  pose proof (length_sum_arrays n arrs Hlens) as Hlen_total.
  eapply (synthesize_activities_inv _ _ _ (name <$> done) n
            (sum_arrays n arrs) _ u (replicate n 0%Qc))
    in Hsyn as (acc & (Hb & Hacc & Huser & Htot) & Hkeep); try done.
  - exists (arrs ++ [acc]). split.
    + apply Forall2_app.
      * assert (∀ v, v ∈ done → name v ∈ name <$> done) as Hnames
          by (intros v Hv; by apply list_elem_of_fmap_2).
        clear -Harrs Hkeep Hp3 Hu Hnames.
        induction Harrs as [|v arr done arrs [Hv Hl] _ IH]; constructor.
        -- split; [|done].
           assert (name u ≠ name v) as Hneq.
           { intros E. apply Hu. rewrite E. apply list_elem_of_fmap_2.
             apply list_elem_of_here. }
           rewrite Hkeep, Hp3 by (apply Hnames, list_elem_of_here).
           by rewrite lookup_insert_ne.
        -- apply IH.
           ++ intros Hin. apply Hu. rewrite fmap_cons.
              by apply list_elem_of_further.
           ++ intros j Hj. apply Hkeep. rewrite fmap_cons.
              by apply list_elem_of_further.
           ++ intros v' Hv'. by apply list_elem_of_fmap_2.
      * by repeat constructor.
    + by rewrite Htot, sum_arrays_snoc.
  - split; [done|]. split; [apply length_replicate|].
    rewrite Hp3. split; [apply lookup_insert_eq|].
    rewrite lookup_insert_ne, Htotal by done. f_equal.
    pose proof (zip_with_Qcplus_zeros (sum_arrays n arrs)) as Hzeros.
    rewrite Hlen_total in Hzeros. by rewrite Hzeros.
  - intros nm acti Hin. apply (Hacts nm acti).
    apply elem_of_sorted_by_key in Hin.
    by rewrite (draw_keys_snd _ _ _ _ Hkeys) in Hin.
Qed.

Lemma synthesize_users_inv fuel first_day vary (n : nat) users :
  ∀ done (w w' : World) us,
    total_is_sum n done w →
    NoDup (name <$> done ++ users) →
    "total" ∉ name <$> done ++ users →
    (∀ u, u ∈ users → Z.to_nat (days u * Tools.secs_per_day) = n) →
    (∀ u nm acti, u ∈ users → (nm, acti) ∈ activities u →
                  activity_type acti ≠ "total" ∧
                  activity_type acti ∉ name <$> done ++ users) →
    synthesize_users fuel users first_day vary w = Ok (us, w') →
    total_is_sum n (done ++ users) w'.
Proof.
  induction users as [|u rest IH]; intros done w w' us Hinv Hnd Ht Hdays Hacts;
    simpl.
  - intros [= _ <-]. by rewrite app_nil_r.
  - intros Hr.
    apply bind_Ok in Hr as (u' & w1 & Hu & Hr).
    apply bind_Ok in Hr as (rest' & w2 & Hrest & [= _ <-]).
    rewrite fmap_app, fmap_cons in Hnd, Ht.
    apply NoDup_app in Hnd as (Hnd1 & Hnd2 & Hnd3).
    assert (name u ∈ name <$> done ++ u :: rest) as Hin.
    { rewrite fmap_app, fmap_cons. apply elem_of_app. right.
      apply list_elem_of_here. }
    assert (total_is_sum n (done ++ [u]) w1) as Hinv1.
    { eapply UserModel_synthesize_inv; try done.
      - apply Hdays, list_elem_of_here.
      - intros E. apply Ht. rewrite <- E, <- fmap_cons, <- fmap_app. done.
      - intros Hd. apply (Hnd2 _ Hd), list_elem_of_here.
      - intros Hd. apply Ht, elem_of_app. by left.
      - intros nm acti Ha.
        destruct (Hacts u nm acti ltac:(apply list_elem_of_here) Ha)
          as [Ha1 Ha2].
        split; [done|]. split.
        + intros E. apply Ha2. by rewrite E.
        + intros Hd. apply Ha2. rewrite fmap_app. apply elem_of_app.
          by left. }
    replace (done ++ u :: rest) with ((done ++ [u]) ++ rest) in *
      by (by rewrite <- app_assoc).
    eapply IH; try done.
    + rewrite !fmap_app, fmap_cons. rewrite <- app_assoc. simpl.
      apply NoDup_app. done.
    + rewrite !fmap_app, fmap_cons, <- app_assoc. done.
    + intros v Hv. apply Hdays. by apply list_elem_of_further.
    + intros v nm acti Hv Ha. apply (Hacts v nm acti); [|done].
      by apply list_elem_of_further.
Qed.

Lemma synthesize_users_app fuel first_day vary users1 users2 :
  ∀ (w w' : World) us,
    synthesize_users fuel (users1 ++ users2) first_day vary w = Ok (us, w') →
    ∃ us1 w1 us2,
      synthesize_users fuel users1 first_day vary w = Ok (us1, w1) ∧
      synthesize_users fuel users2 first_day vary w1 = Ok (us2, w').
Proof.
  induction users1 as [|u users1 IH]; intros w w' us; simpl.
  - intros Hr. by exists [], w, us.
  - intros Hr.
    apply bind_Ok in Hr as (u' & w1 & Hu & Hr).
    apply bind_Ok in Hr as (rest' & w2 & Hrest & [= _ <-]).
    apply IH in Hrest as (us1 & w3 & us2 & H1 & H2).
    exists (u' :: us1), w3, us2. split; [|done].
    unfold bind. by rewrite Hu, H1.
Qed.

(** C10, as the code has it.  The users all span the same horizon of [n]
    seconds, their names are pairwise distinct, none is named 'total', and
    no activity of a user has 'total' or a user's name as its type.
    Starting from an all-zero total, whenever the loop over the users
    completes, then after each user's synthesis (that is, after every
    prefix [users_done] of the users) the loop has returned and the total
    is the elementwise sum of the arrays of the users done so far. *)
Theorem total_is_sum_of_user_arrays fuel first_day vary (n : nat)
    (users_done users_rest : list UserModel) (w w' : World) us :
  let users := users_done ++ users_rest in
  w_powers w !! "total" = Some (replicate n 0%Qc) →
  NoDup (name <$> users) →
  "total" ∉ name <$> users →
  (∀ u, u ∈ users → Z.to_nat (days u * Tools.secs_per_day) = n) →
  (∀ u nm acti, u ∈ users → (nm, acti) ∈ activities u →
                activity_type acti ≠ "total" ∧
                activity_type acti ∉ name <$> users) →
  synthesize_users fuel users first_day vary w = Ok (us, w') →
  ∃ us1 w1,
    synthesize_users fuel users_done first_day vary w = Ok (us1, w1) ∧
    total_is_sum n users_done w1.
Proof.
  intros users Hzero Hnd Ht Hdays Hacts Hrun.
  apply synthesize_users_app in Hrun as (us1 & w1 & us2 & H1 & H2).
  exists us1, w1. split; [done|].
  unfold users in *. rewrite fmap_app in Hnd, Ht.
  apply NoDup_app in Hnd as (Hnd1 & _ & _).
  apply (synthesize_users_inv fuel first_day vary n users_done [] w w1 us1).
  - exists []. split; [constructor | done].
  - done.
  - intros Hin. apply Ht, elem_of_app. by left.
  - intros u Hu. apply Hdays, elem_of_app. by left.
  - intros u nm acti Hu Ha.
    destruct (Hacts u nm acti ltac:(apply elem_of_app; by left) Ha)
      as [Ha1 Ha2].
    split; [done|]. intros Hin. apply Ha2. rewrite fmap_app.
    apply elem_of_app. by left.
  - done.
Qed.

End SchedulerFacts.

(** ** Concrete runs

    One simulated day, the tape generators, and a 60 W lamp whose single
    model file is one ON_OFF component covering the whole operation. *)

Section Examples.

Definition lamp_file : ModelFile :=
  mkModelFile 10 [OnOffModel (qc 60) (qc 1)].

Definition one_day : Z := Tools.secs_per_day.

Definition all_free : list bool := replicate (Z.to_nat one_day) true.
Definition all_busy : list bool := replicate (Z.to_nat one_day) false.
Definition zeros : list Qc := replicate (Z.to_nat one_day) 0%Qc.

Definition lamp : ApplianceModel :=
  mkAppliance "lamp" [lamp_file] 10 [OnOffModel (qc 60) (qc 1)]
              all_busy zeros.

(** A world in which only the lamp exists. *)
Definition lamp_world : @World Tape NormalTape :=
  mkWorld [] [] {["lamp" := lamp]} ∅ [] [].

(** An activity of one state that runs device 1 for between [lo] and [hi]
    seconds to completion, with or without the user, and then ends. *)
Definition one_state (lo hi : Z) (user : bool) : State :=
  mkState "on" lo hi user true 1 (qc 1) 1 1.

Definition single (type : string) (device : string) (st : State)
  : ActivityModel :=
  mkActivity type [device] [(device, Some device)]
             (<[1 := device]> {[0 := "None"]}) {[0 := Decoded st]}.

Definition lighting : ActivityModel := single "lighting" "lamp" (one_state 10 10 true).

Definition is_Ok {A} (r : res A) : bool :=
  match r with Ok _ => true | _ => false end.

End Examples.

(** C5 at concrete inputs: a state without appliance and without duration,
    a state that runs the lamp for its usual duration, and a state with
    the bounds 3 and 7. *)
Lemma state_duration_resolution_witness :
  (∃ k g,
     state_duration lighting (mkState "init" 0 0 false false 0 (qc 1) 1 1)
                    lamp_world
     = Ok (k, with_random g
                (with_log (mkLog WARNING
                   "Invalid duration of state '{}'! Will assume 5-10 seconds..."
                   []) lamp_world)) ∧
     5 ≤ k ≤ 10) ∧
  state_duration lighting (one_state 0 0 true) lamp_world
  = Ok (usual_duration lamp, lamp_world) ∧
  (∃ k g, state_duration lighting (one_state 7 3 true) lamp_world
          = Ok (k, with_random g lamp_world) ∧ 3 ≤ k ≤ 7).
Proof.
  split; [|split].
  - apply (proj1 (state_duration_resolution lighting
                    (mkState "init" 0 0 false false 0 (qc 1) 1 1) lamp_world));
      reflexivity.
  - apply (proj1 (proj2 (state_duration_resolution lighting
                           (one_state 0 0 true) lamp_world))
             eq_refl eq_refl ltac:(discriminate) "lamp" "lamp" lamp).
    + reflexivity.
    + reflexivity.
    + exact (lookup_singleton_eq "lamp" lamp).
  - apply (proj2 (proj2 (state_duration_resolution lighting
                           (one_state 7 3 true) lamp_world))).
    simpl. lia.
Defined.

(** C8 at concrete inputs: probabilities 1 and 0. *)
Lemma next_state_by_draw_witness :
  (∃ w', next_state (mkState "s" 1 1 false false 0 1%Qc 4 9) lamp_world
         = Ok (4, w')) ∧
  (∃ w', next_state (mkState "s" 1 1 false false 0 0%Qc 4 9) lamp_world
         = Ok (9, w')).
Proof.
  split.
  - destruct (next_state_by_draw (mkState "s" 1 1 false false 0 1%Qc 4 9)
                lamp_world) as (nxt & Hrun & _ & _ & Hone & _).
    rewrite Hrun, (Hone eq_refl). by eexists.
  - destruct (next_state_by_draw (mkState "s" 1 1 false false 0 0%Qc 4 9)
                lamp_world) as (nxt & Hrun & _ & _ & _ & Hzero).
    rewrite Hrun, (Hzero eq_refl). by eexists.
Defined.

(** C6 at a concrete input: the lighting activity with its lamp unbound. *)
Definition unbound_lighting : ActivityModel :=
  mkActivity "lighting" ["lamp"] [("lamp", None)]
             (<[1 := "lamp"]> {[0 := "None"]})
             {[0 := Decoded (one_state 10 10 true)]}.

Lemma unsatisfied_bindings_zero_contribution_witness :
  0 ≤ 1 ∧
  ("lamp", None) ∈ appliance_binding unbound_lighting ∧
  ActivityModel_synthesize 100 unbound_lighting 1 (qc 1) all_free all_free 0
                           false lamp_world
  = Ok ((replicate (Z.to_nat (1 * Tools.secs_per_day)) 0%Qc, all_free,
         all_free),
        with_log (mkLog WARNING
          "Unsatisfied bindings ({})! Will NOT synthesize this activity!" [])
          lamp_world).
Proof.
  split; [lia|]. split; [apply list_elem_of_here|].
  apply (unsatisfied_bindings_zero_contribution 100 unbound_lighting 1 (qc 1)
           all_free all_free 0 false lamp_world "lamp").
  - lia.
  - apply list_elem_of_here.
Defined.

(** ** Properties of the bitmap constructors *)

Section BitmapFacts.

(** Reading a list after a slice assignment of a scalar whose bounds are
    not negative (they may lie beyond the end). *)
Lemma slice_fill_lookup_nonneg {A} (l : list A) start stop v (n : nat) :
  0 ≤ start → 0 ≤ stop →
  slice_fill l start stop v !! n =
  (λ x, if (start <=? Z.of_nat n) && (Z.of_nat n <? stop) then v else x)
    <$> l !! n.
Proof.
  intros Hs He. unfold slice_fill. rewrite fill_go_lookup.
  destruct (l !! n) as [x|] eqn:Hn; [|done]. simpl. f_equal.
  pose proof (lookup_lt_Some _ _ _ Hn) as Hlt.
  match goal with
  | |- (if ?c1 then _ else _) = (if ?c2 then _ else _) =>
      replace c1 with c2; [done|]
  end.
  apply eq_true_iff_eq.
  rewrite !andb_true_iff, !Z.leb_le, !Z.ltb_lt. unfold clamp_index.
  destruct (start <? 0) eqn:E1; [apply Z.ltb_lt in E1; lia|].
  destruct (stop <? 0) eqn:E2; [apply Z.ltb_lt in E2; lia|]. lia.
Qed.

(** The window of seconds a well-formed item of a time specification
    sets; [None] for the items the loop skips. *)
Definition range_window (r : RangeText) : option (Z * Z) :=
  match r with
  | FromTo fr to =>
      if has_colon fr && has_colon to then
        match clock_offset fr, clock_offset to with
        | Ok f, Ok t => Some (f, t)
        | _, _ => None
        end
      else None
  | _ => None
  end.

(** A side that does not read as a clock value: more than one colon, an
    hour that is no integer, or an hour below 24 with a minute that is no
    integer.  From hour 24 on the text of the minute is not read. *)
Definition unreadable (c : ClockText) : bool :=
  match c with
  | NoColon => false
  | ManyColons => true
  | HourMin NotInt _ => true
  | HourMin (IntOf hr) NotInt => (hr <? 24)%N
  | HourMin (IntOf _) (IntOf _) => false
  end.

(** The items on which the loop raises: more than one dash, or a colon on
    both sides and a side that does not read as a clock value. *)
Definition range_raises (r : RangeText) : bool :=
  match r with
  | ManyDashes => true
  | NoDash => false
  | FromTo fr to =>
      has_colon fr && has_colon to && (unreadable fr || unreadable to)
  end.

Lemma clock_offset_unreadable c :
  has_colon c = true →
  if unreadable c then clock_offset c = Raise ValueError
  else ∃ z, clock_offset c = Ok z.
Proof.
  destruct c as [|[hr|] [mn|]|]; simpl; try done; intros _.
  - destruct (24 <=? hr)%N; by eexists.
  - rewrite N.ltb_antisym. destruct (24 <=? hr)%N; simpl; [by eexists|done].
Qed.

Lemma clock_offset_nonneg c z : clock_offset c = Ok z → 0 ≤ z.
Proof.
  destruct c as [|[hr|] mn|]; simpl; try done.
  destruct (24 <=? hr)%N; [intros [= <-]; lia|].
  destruct mn as [mn|]; [|done]. intros [= <-]. lia.
Qed.

Lemma clock_offset_res c : clock_offset c ≠ OutOfFuel.
Proof.
  destruct c as [|[hr|] mn|]; simpl; try done.
  destruct (24 <=? hr)%N; [done|]. by destruct mn.
Qed.

Lemma mark_range_spec bmp r bmp' :
  mark_range bmp r = Ok bmp' →
  length bmp' = length bmp ∧
  ∀ n : nat,
    bmp' !! n = Some true ↔
    bmp !! n = Some true ∨
    ((n < length bmp)%nat ∧
     ∃ f t, range_window r = Some (f, t) ∧ f ≤ Z.of_nat n < t).
Proof.
  assert (∀ b : list bool, length b = length b ∧
            ∀ n : nat, b !! n = Some true ↔
              b !! n = Some true ∨
              ((n < length b)%nat ∧
               ∃ f t, (None : option (Z * Z)) = Some (f, t) ∧
                      f ≤ Z.of_nat n < t)) as Hskip.
  { intros b. split; [done|]. intros n. split; [by left|].
    intros [?|(_ & f & t & ? & _)]; done. }
  destruct r as [|fr to|]; simpl; [intros [= <-]; apply Hskip| |done].
  destruct (has_colon fr), (has_colon to); simpl;
    try (intros [= <-]; apply Hskip).
  destruct (clock_offset fr) as [f| |] eqn:Hf; [|done..].
  destruct (clock_offset to) as [t| |] eqn:Ht; [|done..].
  intros [= <-]. split; [apply length_slice_fill|].
  intros n.
  rewrite slice_fill_lookup_nonneg
    by (by eapply clock_offset_nonneg).
  destruct (bmp !! n) as [b|] eqn:Hn; simpl.
  - pose proof (lookup_lt_Some _ _ _ Hn) as Hlt.
    destruct ((f <=? Z.of_nat n) && (Z.of_nat n <? t)) eqn:E.
    + apply andb_true_iff in E as [E1 E2].
      apply Z.leb_le in E1. apply Z.ltb_lt in E2.
      split; [|done]. intros _. right. split; [done|]. by exists f, t.
    + split; [by left|]. intros [?|(_ & f' & t' & [= <- <-] & Hft)]; [done|].
      exfalso. apply andb_false_iff in E as [E|E];
        [apply Z.leb_gt in E | apply Z.ltb_ge in E]; lia.
  - split; [done|]. intros [?|(Hlt & _)]; [done|].
    apply lookup_ge_None in Hn. lia.
Qed.

Lemma mark_ranges_spec ranges :
  ∀ bmp bmp',
    mark_ranges bmp ranges = Ok bmp' →
    length bmp' = length bmp ∧
    ∀ n : nat,
      bmp' !! n = Some true ↔
      bmp !! n = Some true ∨
      ((n < length bmp)%nat ∧
       ∃ r f t, r ∈ ranges ∧ range_window r = Some (f, t) ∧
                f ≤ Z.of_nat n < t).
Proof.
  induction ranges as [|r ranges IH]; intros bmp bmp'; simpl.
  - intros [= <-]. split; [done|]. intros n. split; [by left|].
    intros [?|(_ & r & f & t & Hin & _)]; [done|]. by apply elem_of_nil in Hin.
  - destruct (mark_range bmp r) as [bmp1| |] eqn:Hr; [|done..].
    intros Hrest. apply mark_range_spec in Hr as [Hl1 Hb1].
    apply IH in Hrest as [Hl2 Hb2]. split; [congruence|].
    intros n. rewrite Hb2, Hb1, Hl1. split.
    + intros [[?|(Hlt & f & t & Hw & Hft)]|(Hlt & r' & f & t & Hin & Hw & Hft)].
      * by left.
      * right. split; [done|]. exists r, f, t.
        split; [apply list_elem_of_here | done].
      * right. split; [done|]. exists r', f, t.
        split; [by apply list_elem_of_further | done].
    + intros [?|(Hlt & r' & f & t & Hin & Hw & Hft)]; [by left; left|].
      apply elem_of_cons in Hin as [->|Hin].
      * left. right. split; [done|]. by exists f, t.
      * right. split; [done|]. by exists r', f, t.
Qed.

Lemma timerange_bitmap_bits_length ranges bmp :
  get_bitmap_from_timerange ranges = Ok bmp →
  Z.of_nat (length bmp) = Tools.secs_per_day.
Proof.
  unfold get_bitmap_from_timerange. intros Hm.
  apply mark_ranges_spec in Hm as [-> _].
  rewrite length_replicate. by vm_compute.
Qed.

(** X1.  [get_bitmap_from_timerange] returns one day of bits, and a second
    of the day is set exactly when one of the well-formed ranges of the
    specification covers it: the range from its from-offset up to, not
    including, its to-offset. *)
Theorem timerange_bitmap_bits (ranges : list RangeText) (bmp : list bool) :
  get_bitmap_from_timerange ranges = Ok bmp →
  Z.of_nat (length bmp) = Tools.secs_per_day ∧
  ∀ n : nat,
    bmp !! n = Some true ↔
    Z.of_nat n < Tools.secs_per_day ∧
    ∃ r f t, r ∈ ranges ∧ range_window r = Some (f, t) ∧ f ≤ Z.of_nat n < t.
Proof.
  unfold get_bitmap_from_timerange. intros Hm.
  apply mark_ranges_spec in Hm as [Hlen Hbits].
  rewrite length_replicate in Hlen, Hbits.
  split; [rewrite Hlen; by vm_compute|].
  intros n. rewrite Hbits. split.
  - intros [Hn|[Hlt Hr]].
    + apply lookup_replicate in Hn as [? _]. done.
    + split; [|done]. unfold Tools.secs_per_day in *. lia.
  - intros [Hlt Hr]. right. split; [|done].
    unfold Tools.secs_per_day in *. lia.
Qed.

Lemma mark_range_raises bmp r :
  if range_raises r then mark_range bmp r = Raise ValueError
  else ∃ bmp', mark_range bmp r = Ok bmp'.
Proof.
  destruct r as [|fr to|]; simpl; [by eexists| |done].
  destruct (has_colon fr) eqn:Hfr, (has_colon to) eqn:Hto; simpl;
    try by eexists.
  pose proof (clock_offset_unreadable fr Hfr) as Hf.
  pose proof (clock_offset_unreadable to Hto) as Ht.
  destruct (unreadable fr); simpl; [by rewrite Hf|].
  destruct Hf as [f ->].
  destruct (unreadable to); simpl; [by rewrite Ht|].
  destruct Ht as [t ->]. by eexists.
Qed.

(** X2.  [get_bitmap_from_timerange] raises [ValueError] exactly when some
    item of the specification has more than one dash, or has a colon on
    both sides and a side with more than one colon, with an hour that is
    no integer, or with an hour below 24 and a minute that is no integer.
    Otherwise it returns a bitmap: items without dash and items with a
    colon-free side are skipped silently, and from hour 24 on the text of
    the minute is not read, so that it may be anything. *)
Theorem timerange_bitmap_errors (ranges : list RangeText) :
  if existsb range_raises ranges
  then get_bitmap_from_timerange ranges = Raise ValueError
  else ∃ bmp, get_bitmap_from_timerange ranges = Ok bmp.
Proof.
  unfold get_bitmap_from_timerange.
  generalize (replicate (Z.to_nat Tools.secs_per_day) false).
  induction ranges as [|r ranges IH]; intros bmp; simpl; [by eexists|].
  pose proof (mark_range_raises bmp r) as Hr.
  destruct (range_raises r); simpl.
  - by rewrite Hr.
  - destruct Hr as [bmp' ->]. apply IH.
Qed.

Lemma length_slice_assign {A} (l v : list A) lo hi :
  0 ≤ lo ≤ hi → hi ≤ Z.of_nat (length l) →
  Z.of_nat (length v) = hi - lo →
  length (slice_assign l lo hi v) = length l.
Proof.
  intros Hlo Hhi Hv. unfold slice_assign.
  rewrite !clamp_index_inside by lia. rewrite Z.max_r by lia.
  rewrite !length_app, length_take, length_drop. lia.
Qed.

Lemma slice_assign_lookup {A} (l v : list A) lo hi (k : nat) :
  0 ≤ lo ≤ hi → hi ≤ Z.of_nat (length l) →
  Z.of_nat (length v) = hi - lo →
  slice_assign l lo hi v !! k =
  if decide (lo ≤ Z.of_nat k < hi) then v !! (k - Z.to_nat lo)%nat
  else l !! k.
Proof.
  intros Hlo Hhi Hv. unfold slice_assign.
  rewrite !clamp_index_inside by lia. rewrite Z.max_r by lia.
  case_decide as Hk.
  - rewrite lookup_app_r by (rewrite length_take; lia).
    rewrite length_take. rewrite lookup_app_l by lia.
    f_equal. lia.
  - destruct (decide (Z.of_nat k < lo)).
    + rewrite lookup_app_l by (rewrite length_take; lia).
      apply lookup_take_lt. lia.
    + rewrite lookup_app_r by (rewrite length_take; lia).
      rewrite length_take. rewrite lookup_app_r by lia.
      rewrite lookup_drop. f_equal. lia.
Qed.

Lemma slice_inside_lookup {A} (l : list A) lo hi (k : nat) :
  0 ≤ lo ≤ hi → hi ≤ Z.of_nat (length l) → Z.of_nat k < hi - lo →
  slice l lo hi !! k = l !! (Z.to_nat lo + k)%nat.
Proof.
  intros Hlo Hhi Hk. unfold slice. rewrite !clamp_index_inside by lia.
  rewrite lookup_take_lt by lia. apply lookup_drop.
Qed.

Lemma length_slice_inside {A} (l : list A) lo hi :
  0 ≤ lo ≤ hi → hi ≤ Z.of_nat (length l) →
  Z.of_nat (length (slice l lo hi)) = hi - lo.
Proof.
  intros Hlo Hhi. unfold slice. rewrite !clamp_index_inside by lia.
  rewrite length_take, length_drop. lia.
Qed.

(** The bitmap of the weekday on which day [i] of the horizon falls. *)
Definition day_span (timespans : gmap string (list bool)) (start_day i : Z)
  : option (list bool) :=
  weekdays ((start_day + i) `mod` 7) ≫= (timespans !!.).

Lemma fill_days_spec timespans start_day todo :
  ∀ bmp bmp',
    fill_days timespans start_day todo bmp = Ok bmp' →
    (∀ i, i ∈ todo →
          0 ≤ i ∧ (i + 1) * Tools.secs_per_day ≤ Z.of_nat (length bmp)) →
    NoDup todo →
    length bmp' = length bmp ∧
    ∀ (i : Z) (n : nat),
      0 ≤ i → Z.of_nat n < Tools.secs_per_day →
      (i + 1) * Tools.secs_per_day ≤ Z.of_nat (length bmp) →
      bmp' !! Z.to_nat (i * Tools.secs_per_day + Z.of_nat n) =
      if decide (i ∈ todo) then
        match day_span timespans start_day i with
        | Some span =>
            x ← bmp !! Z.to_nat (i * Tools.secs_per_day + Z.of_nat n);
            y ← span !! n; Some (x && y)
        | None => Some false
        end
      else bmp !! Z.to_nat (i * Tools.secs_per_day + Z.of_nat n).
Proof.
  induction todo as [|i0 todo IH]; intros bmp bmp' Hfill Hrange Hnd;
    simpl in Hfill.
  - inversion Hfill; subst. split; [done|]. intros i n _ _ _.
    case_decide as Hin; [by apply elem_of_nil in Hin | done].
  - apply NoDup_cons in Hnd as [Hi0 Hnd].
    destruct (Hrange i0 ltac:(apply list_elem_of_here)) as [Hi0pos Hi0end].
    set (lo := i0 * Tools.secs_per_day) in *.
    set (hi := (i0 + 1) * Tools.secs_per_day) in *.
    assert (0 ≤ lo ≤ hi ∧ hi - lo = Tools.secs_per_day) as [Hlohi Hspd]
      by (unfold lo, hi, Tools.secs_per_day; lia).
    assert (∃ bmp1,
              fill_days timespans start_day todo bmp1 = Ok bmp' ∧
              length bmp1 = length bmp ∧
              ∀ k : nat,
                bmp1 !! k =
                if decide (lo ≤ Z.of_nat k < hi) then
                  match day_span timespans start_day i0 with
                  | Some span =>
                      x ← bmp !! k; y ← span !! (k - Z.to_nat lo)%nat;
                      Some (x && y)
                  | None => Some false
                  end
                else bmp !! k) as (bmp1 & Hrest & Hlen1 & Hbits1).
    { unfold day_span.
      destruct (weekdays ((start_day + i0) `mod` 7) ≫= (timespans !!.))
        as [span|] eqn:Hspan.
      - destruct (bitand (slice bmp lo hi) span) as [block| |] eqn:Hand;
          [|done..].
        pose proof (length_slice_inside bmp lo hi Hlohi Hi0end) as Hls.
        unfold bitand in Hand. case_decide as Hlen; [|done].
        inversion Hand; subst block.
        assert (Z.of_nat (length (zip_with andb (slice bmp lo hi) span))
                = hi - lo) as Hlb by (rewrite length_zip_with; lia).
        eexists. split; [exact Hfill|].
        split; [by apply length_slice_assign|].
        intros k. rewrite slice_assign_lookup by done.
        case_decide as Hk; [|done].
        rewrite lookup_zip_with.
        rewrite slice_inside_lookup by lia.
        by replace (Z.to_nat lo + (k - Z.to_nat lo))%nat with k by lia.
      - eexists. split; [exact Hfill|].
        split; [apply length_slice_fill|].
        intros k. rewrite slice_fill_lookup by lia.
        case_decide as Hk.
        + assert (is_Some (bmp !! k)) as [b ->]
            by (apply lookup_lt_is_Some; lia).
          simpl.
          replace (lo <=? Z.of_nat k) with true
            by (symmetry; apply Z.leb_le; lia).
          by replace (Z.of_nat k <? hi) with true
            by (symmetry; apply Z.ltb_lt; lia).
        + destruct (bmp !! k) as [b|]; [|done]. simpl. f_equal.
          destruct (Z.leb_spec lo (Z.of_nat k)),
                   (Z.ltb_spec (Z.of_nat k) hi); simpl; try done. lia. }
    apply IH in Hrest as [Hlen' Hbits']; [|rewrite Hlen1|done].
    2:{ intros i Hi. apply Hrange. by apply list_elem_of_further. }
    split; [congruence|].
    intros i n Hi Hn Hend. rewrite Hlen1 in Hbits'.
    rewrite (Hbits' i n Hi Hn Hend). rewrite Hbits1.
    assert (Z.of_nat (Z.to_nat (i * Tools.secs_per_day + Z.of_nat n))
            = i * Tools.secs_per_day + Z.of_nat n) as Hidx
      by (unfold Tools.secs_per_day in *; lia).
    destruct (decide (i = i0)) as [->|Hne].
    + rewrite decide_False by done.
      rewrite decide_True by (unfold lo, hi; rewrite Hidx;
                              unfold Tools.secs_per_day in *; lia).
      rewrite decide_True by apply list_elem_of_here.
      destruct (day_span timespans start_day i0); [|done].
      by replace (Z.to_nat (i0 * Tools.secs_per_day + Z.of_nat n)
                  - Z.to_nat lo)%nat with n
        by (unfold lo, Tools.secs_per_day in *; lia).
    + rewrite (decide_False (P := lo ≤ _ < hi)).
      2:{ rewrite Hidx. unfold lo, hi, Tools.secs_per_day in *. nia. }
      destruct (decide (i ∈ todo)) as [Hin|Hnin].
      * by rewrite decide_True by (by apply list_elem_of_further).
      * rewrite decide_False; [done|].
        intros Hin. apply elem_of_cons in Hin as [?|?]; done.
Qed.

Lemma read_timespans_spec days weekday_list timespans :
  read_timespans days weekday_list = Ok timespans →
  (∀ day b, timespans !! day = Some b →
            ∃ ranges, weekday_list !! day = Some ranges ∧
                      get_bitmap_from_timerange ranges = Ok b) ∧
  (∀ day ranges, day ∈ days → weekday_list !! day = Some ranges →
                 is_Some (timespans !! day)).
Proof.
  revert timespans. induction days as [|d days IH]; intros timespans; simpl.
  - intros [= <-]. split.
    + intros day b Hb. by rewrite lookup_empty in Hb.
    + intros day ranges Hin. by apply elem_of_nil in Hin.
  - destruct (weekday_list !! d) as [rd|] eqn:Hd.
    + destruct (get_bitmap_from_timerange rd) as [b| |] eqn:Hb; [|done..].
      destruct (read_timespans days weekday_list) as [ts| |] eqn:Hts;
        [|done..].
      intros [= <-]. destruct (IH ts eq_refl) as [IH1 IH2]. split.
      * intros day b' Hl. destruct (decide (d = day)) as [->|Hne].
        -- rewrite lookup_insert_eq in Hl. inversion Hl; subst.
           by exists rd.
        -- rewrite lookup_insert_ne in Hl by done. by apply IH1.
      * intros day ranges Hin Hr. destruct (decide (d = day)) as [->|Hne].
        -- rewrite lookup_insert_eq. by eexists.
        -- rewrite lookup_insert_ne by done.
           apply elem_of_cons in Hin as [->|Hin]; [done|]. by eapply IH2.
    + intros Hts. destruct (IH timespans Hts) as [IH1 IH2]. split; [done|].
      intros day ranges Hin Hr.
      apply elem_of_cons in Hin as [->|Hin]; [congruence|]. by eapply IH2.
Qed.

Lemma weekdays_mod_7 (x : Z) :
  ∃ day, weekdays (x `mod` 7) = Some day ∧ day ∈ weekday_names.
Proof.
  pose proof (Z.mod_pos_bound x 7 ltac:(lia)) as Hm.
  assert (x `mod` 7 = 0 ∨ x `mod` 7 = 1 ∨ x `mod` 7 = 2 ∨ x `mod` 7 = 3 ∨
          x `mod` 7 = 4 ∨ x `mod` 7 = 5 ∨ x `mod` 7 = 6) as Hcases by lia.
  unfold weekday_names.
  destruct Hcases as [E|[E|[E|[E|[E|[E|E]]]]]]; rewrite E; eexists;
    (split; [reflexivity|]); apply list_elem_of_In; simpl; tauto.
Qed.

(** X3.  [get_bitmap_from_weekday_list] returns [num_days] days of bits.
    Day [i] of the horizon falls on the weekday [(start_day + i) mod 7];
    when the list has no entry for that weekday the whole day is false,
    otherwise the day carries the bits of that weekday's time ranges. *)
Theorem weekly_bitmap_days (weekday_list : gmap string (list RangeText))
    (num_days start_day : Z) (bmp : list bool) :
  get_bitmap_from_weekday_list weekday_list num_days start_day = Ok bmp →
  Z.of_nat (length bmp) = Tools.secs_per_day * num_days ∧
  ∀ (i : Z) (n : nat),
    0 ≤ i < num_days → Z.of_nat n < Tools.secs_per_day →
    ∃ day,
      weekdays ((start_day + i) `mod` 7) = Some day ∧
      match weekday_list !! day with
      | None =>
          bmp !! Z.to_nat (i * Tools.secs_per_day + Z.of_nat n) = Some false
      | Some ranges =>
          ∃ b, get_bitmap_from_timerange ranges = Ok b ∧
               bmp !! Z.to_nat (i * Tools.secs_per_day + Z.of_nat n) = b !! n
      end.
Proof.
  unfold get_bitmap_from_weekday_list, bitarray. intros Hrun.
  destruct (Tools.secs_per_day * num_days <? 0) eqn:Hneg; [done|].
  apply Z.ltb_ge in Hneg.
  destruct (read_timespans weekday_names weekday_list) as [ts| |] eqn:Hts;
    [|done..].
  apply read_timespans_spec in Hts as [Hts1 Hts2].
  apply fill_days_spec in Hrun as [Hlen Hbits].
  - rewrite length_replicate in Hlen, Hbits.
    split; [lia|]. intros i n Hi Hn.
    destruct (weekdays_mod_7 (start_day + i)) as (day & Hday & Hin).
    exists day. split; [done|].
    rewrite Hbits by (unfold Tools.secs_per_day in *; nia).
    rewrite decide_True by (apply elem_of_seqZ; lia).
    unfold day_span. rewrite Hday. simpl.
    rewrite lookup_replicate_2 by (unfold Tools.secs_per_day in *; nia).
    destruct (weekday_list !! day) as [ranges|] eqn:Hwl.
    + destruct (Hts2 day ranges Hin Hwl) as [b Hb].
      destruct (Hts1 day b Hb) as (ranges' & Hr' & Hget).
      assert (ranges' = ranges) as -> by congruence.
      exists b. split; [done|]. rewrite Hb. simpl.
      apply timerange_bitmap_bits_length in Hget.
      assert (is_Some (b !! n)) as [y ->]
        by (apply lookup_lt_is_Some; lia).
      done.
    + destruct (ts !! day) as [b|] eqn:Hb; [|done].
      destruct (Hts1 day b Hb) as (ranges' & Hr' & _). congruence.
  - rewrite length_replicate. intros i Hi. apply elem_of_seqZ in Hi.
    unfold Tools.secs_per_day in *. nia.
  - apply NoDup_seqZ.
Qed.

End BitmapFacts.

(** ** Properties of construction and binding *)

Section BindingFacts.

Lemma dict_get_set_eq {V} (d : list (string * V)) k v :
  dict_get (dict_set d k v) k = Some v.
Proof.
  induction d as [|[k' v'] d IH]; simpl.
  - by rewrite decide_True.
  - destruct (decide (k' = k)) as [->|Hne]; simpl.
    + by rewrite decide_True.
    + by rewrite decide_False.
Qed.

Lemma dict_get_set_ne {V} (d : list (string * V)) k k' v :
  k' ≠ k → dict_get (dict_set d k v) k' = dict_get d k'.
Proof.
  intros Hne. induction d as [|[k0 v0] d IH]; simpl.
  - by rewrite decide_False.
  - destruct (decide (k0 = k)) as [->|Hk]; simpl.
    + by rewrite !decide_False.
    + by rewrite IH.
Qed.

Lemma dict_set_keys_present {V} (d : list (string * V)) k v :
  k ∈ map fst d → map fst (dict_set d k v) = map fst d.
Proof.
  induction d as [|[k0 v0] d IH]; simpl.
  - intros Hin. by apply elem_of_nil in Hin.
  - intros Hin. destruct (decide (k0 = k)) as [->|Hk]; simpl; [done|].
    f_equal. apply IH. apply elem_of_cons in Hin as [?|?]; [congruence|done].
Qed.

Lemma dict_set_keys_absent {V} (d : list (string * V)) k v :
  k ∉ map fst d → map fst (dict_set d k v) = map fst d ++ [k].
Proof.
  induction d as [|[k0 v0] d IH]; simpl; [done|].
  intros Hin. rewrite decide_False.
  - simpl. f_equal. apply IH. intros Hd. apply Hin. by right.
  - intros ->. apply Hin. left.
Qed.

Lemma dict_get_elem_of {V} (d : list (string * V)) k v :
  NoDup (map fst d) → (k, v) ∈ d ↔ dict_get d k = Some v.
Proof.
  induction d as [|[k0 v0] d IH]; simpl; intros Hnd.
  - split; [intros Hin; by apply elem_of_nil in Hin | done].
  - apply NoDup_cons in Hnd as [Hk0 Hnd].
    destruct (decide (k0 = k)) as [->|Hne].
    + split.
      * intros Hin. apply elem_of_cons in Hin as [[= ->]|Hin]; [done|].
        exfalso. apply Hk0. apply list_elem_of_In, in_map_iff.
        exists (k, v). split; [done | by apply list_elem_of_In].
      * intros [= ->]. left.
    + rewrite <- (IH Hnd). split.
      * intros Hin. apply elem_of_cons in Hin as [[= ? ?]|Hin];
          [congruence | done].
      * intros Hin. by right.
Qed.

Lemma dict_get_Some_key {V} (d : list (string * V)) k v :
  dict_get d k = Some v → k ∈ map fst d.
Proof.
  induction d as [|[k0 v0] d IH]; simpl; [done|].
  destruct (decide (k0 = k)) as [->|Hne]; [intros _; left|].
  intros Hd. right. by apply IH.
Qed.

Lemma dict_get_key_Some {V} (d : list (string * V)) k :
  k ∈ map fst d → is_Some (dict_get d k).
Proof.
  induction d as [|[k0 v0] d IH]; simpl.
  - intros Hin. by apply elem_of_nil in Hin.
  - intros Hin. destruct (decide (k0 = k)); [by eexists|].
    apply IH. apply elem_of_cons in Hin as [?|?]; [congruence | done].
Qed.

(** The binding dict of an activity is a dict, and it has exactly the
    required types as keys. *)
Definition well_formed (a : ActivityModel) : Prop :=
  NoDup (map fst (appliance_binding a)) ∧
  ∀ ty, ty ∈ map fst (appliance_binding a) ↔ ty ∈ required_appliances a.

Lemma all_bindings_satisfied_true a :
  NoDup (map fst (appliance_binding a)) →
  all_bindings_satisfied a = true ↔
  ∀ ty, ty ∈ map fst (appliance_binding a) →
        ∃ addr, dict_get (appliance_binding a) ty = Some (Some addr).
Proof.
  intros Hnd. unfold all_bindings_satisfied. rewrite forallb_forall. split.
  - intros Hall ty Hty. destruct (dict_get_key_Some _ _ Hty) as [b Hb].
    pose proof Hb as Hin. apply dict_get_elem_of in Hin; [|done].
    apply list_elem_of_In, Hall in Hin. simpl in Hin.
    apply bool_decide_eq_true in Hin as [addr ->]. by exists addr.
  - intros Hall [ty b] Hin. simpl. apply bool_decide_eq_true.
    apply list_elem_of_In in Hin.
    assert (ty ∈ map fst (appliance_binding a)) as Hty.
    { apply list_elem_of_In, in_map_iff. exists (ty, b).
      split; [done | by apply list_elem_of_In]. }
    destruct (Hall ty Hty) as [addr Haddr].
    apply dict_get_elem_of in Hin; [|done]. rewrite Haddr in Hin.
    inversion Hin. by eexists.
Qed.

(** X4.  [bind_to_appliance] on a type that the activity requires and has
    a binding entry for stores the model under that type, leaves every
    other binding, the order of the entries and the rest of the activity
    as they were, and logs at INFO level; on any other type it changes
    nothing and logs a warning. *)
Theorem bind_to_appliance_effect (a : ActivityModel) (ty model : string) :
  let r := bind_to_appliance a ty model in
  (ty ∈ required_appliances a → ty ∈ map fst (appliance_binding a) →
   dict_get (appliance_binding r.1) ty = Some (Some model) ∧
   (∀ ty', ty' ≠ ty →
           dict_get (appliance_binding r.1) ty'
           = dict_get (appliance_binding a) ty') ∧
   map fst (appliance_binding r.1) = map fst (appliance_binding a) ∧
   activity_type r.1 = activity_type a ∧
   required_appliances r.1 = required_appliances a ∧
   appliance_lookup r.1 = appliance_lookup a ∧
   state_machine r.1 = state_machine a ∧
   log_level r.2 = INFO) ∧
  (¬ (ty ∈ required_appliances a ∧ ty ∈ map fst (appliance_binding a)) →
   r.1 = a ∧ log_level r.2 = WARNING).
Proof.
  intros r. subst r. unfold bind_to_appliance. split.
  - intros Hreq Hkey.
    rewrite !bool_decide_eq_true_2 by done. simpl.
    split; [apply dict_get_set_eq|].
    split; [intros ty' Hne; by apply dict_get_set_ne|].
    split; [by apply dict_set_keys_present|]. done.
  - intros Hnot.
    destruct (bool_decide (ty ∈ required_appliances a)) eqn:E1;
      destruct (bool_decide (ty ∈ map fst (appliance_binding a))) eqn:E2;
      simpl; try done.
    apply bool_decide_eq_true in E1, E2. by destruct Hnot.
Qed.

(** What [bind_appliance_model] does to one activity. *)
Definition bind1 (a : ActivityModel) (rd : string) : ActivityModel :=
  if bool_decide (rd ∈ unique_appliances a)
  then (bind_to_appliance a rd rd).1 else a.

Lemma bind_activities_fst acts rd :
  (bind_activities acts rd rd).1
  = map (λ na : string * ActivityModel, (na.1, bind1 na.2 rd)) acts.
Proof.
  induction acts as [|[nm a] acts IH]; simpl; [done|].
  unfold bind1. destruct (bool_decide (rd ∈ unique_appliances a)); simpl;
    by rewrite IH.
Qed.

Lemma bind1_facts a rd :
  well_formed a →
  well_formed (bind1 a rd) ∧
  required_appliances (bind1 a rd) = required_appliances a ∧
  ∀ ty, dict_get (appliance_binding (bind1 a rd)) ty =
        if decide (ty = rd ∧ rd ∈ required_appliances a)
        then Some (Some rd) else dict_get (appliance_binding a) ty.
Proof.
  intros [Hnd Hkeys]. unfold bind1, unique_appliances.
  destruct (bool_decide (rd ∈ remove_dups (required_appliances a))) eqn:E.
  - apply bool_decide_eq_true in E. rewrite elem_of_remove_dups in E.
    pose proof (proj2 (Hkeys rd) E) as Hkey.
    unfold bind_to_appliance.
    rewrite !bool_decide_eq_true_2 by done. simpl.
    split; [|split; [done|]].
    + split; simpl; rewrite dict_set_keys_present by done; done.
    + intros ty. case_decide as Hty.
      * destruct Hty as [-> _]. apply dict_get_set_eq.
      * apply dict_get_set_ne. intros ->. by apply Hty.
  - apply bool_decide_eq_false in E. rewrite elem_of_remove_dups in E.
    split; [done|]. split; [done|]. intros ty.
    rewrite decide_False; [done|]. by intros [_ ?].
Qed.

Lemma fold_bind1_facts rds :
  ∀ a, well_formed a →
       well_formed (foldl bind1 a rds) ∧
       required_appliances (foldl bind1 a rds) = required_appliances a ∧
       ∀ ty, dict_get (appliance_binding (foldl bind1 a rds)) ty =
             if decide (ty ∈ rds ∧ ty ∈ required_appliances a)
             then Some (Some ty) else dict_get (appliance_binding a) ty.
Proof.
  induction rds as [|rd rds IH]; intros a Hwf; simpl.
  - done.
  - destruct (bind1_facts a rd Hwf) as (Hwf1 & Hreq1 & Hget1).
    destruct (IH _ Hwf1) as (Hwf2 & Hreq2 & Hget2).
    split; [done|]. split; [congruence|]. intros ty.
    rewrite Hget2, Hreq1, Hget1.
    destruct (decide (ty ∈ rds ∧ ty ∈ required_appliances a)) as [[H1 H2]|Hn].
    + rewrite decide_True; [done|]. split; [by right | done].
    + destruct (decide (ty = rd ∧ rd ∈ required_appliances a)) as [[-> H2]|Hn'].
      * rewrite decide_True; [done|]. split; [left | done].
      * rewrite decide_False; [done|]. intros [Hin Hreq].
        apply elem_of_cons in Hin as [->|Hin]; [by apply Hn' | by apply Hn].
Qed.

Lemma bind_required_spec appliances rds :
  ∀ u,
    match bind_required appliances rds u with
    | Some r =>
        (∀ rd, rd ∈ rds → is_Some (appliances !! rd)) ∧
        name r.1 = name u ∧
        activities r.1
        = map (λ na : string * ActivityModel, (na.1, foldl bind1 na.2 rds))
              (activities u)
    | None => ∃ rd, rd ∈ rds ∧ appliances !! rd = None
    end.
Proof.
  induction rds as [|rd rds IH]; intros u; cbn [bind_required].
  - split; [intros rd Hin; by apply elem_of_nil in Hin|]. split; [done|].
    simpl. induction (activities u) as [|[nm a] acts IHa]; simpl; [done|].
    by rewrite <- IHa.
  - destruct (appliances !! rd) as [app|] eqn:Happ.
    + cbv zeta. specialize (IH (bind_appliance_model u rd rd).1).
      destruct (bind_required appliances rds (bind_appliance_model u rd rd).1)
        as [r'|].
      * destruct IH as (Hall & Hname & Hacts). simpl in *.
        split; [|split; [done|]].
        -- intros rd' Hin. apply elem_of_cons in Hin as [->|Hin];
             [by eexists | by apply Hall].
        -- rewrite Hacts, bind_activities_fst, map_map. done.
      * destruct IH as (rd' & Hin & Hnone). exists rd'.
        split; [by right | done].
    + exists rd. split; [left | done].
Qed.

Lemma elem_of_get_required_devices u ty :
  ty ∈ get_required_devices u ↔
  ∃ nm a, (nm, a) ∈ activities u ∧ ty ∈ required_appliances a.
Proof.
  unfold get_required_devices, unique_appliances.
  rewrite elem_of_remove_dups, list_elem_of_In, in_flat_map. split.
  - intros ([nm a] & Hin & Hty). simpl in Hty.
    apply list_elem_of_In in Hty. rewrite elem_of_remove_dups in Hty.
    exists nm, a. split; [by apply list_elem_of_In | done].
  - intros (nm & a & Hin & Hty). exists (nm, a).
    split; [by apply list_elem_of_In|]. simpl.
    apply list_elem_of_In. by rewrite elem_of_remove_dups.
Qed.

(** X5.  The binding loop of [main], for activities whose binding dict
    has exactly their required types as keys (as the constructor builds
    them) and whatever the order in which the required devices of a user
    are visited.  The loop terminates the program exactly when some user
    requires a type for which no appliance model was loaded.  When it
    completes, the users keep their names, and in every activity every
    required type is bound to the appliance model of that type, so
    that [all_bindings_satisfied] holds. *)
Theorem binding_loop_outcome (appliances : gmap string ApplianceModel)
    (order : UserModel → list string) (users : list UserModel) :
  (∀ u nm a, u ∈ users → (nm, a) ∈ activities u → well_formed a) →
  (∀ u ty, u ∈ users → ty ∈ order u ↔ ty ∈ get_required_devices u) →
  match bind_users appliances order users with
  | Some r =>
      (∀ u ty, u ∈ users → ty ∈ get_required_devices u →
               is_Some (appliances !! ty)) ∧
      name <$> r.1 = name <$> users ∧
      ∀ u' nm a', u' ∈ r.1 → (nm, a') ∈ activities u' →
                  all_bindings_satisfied a' = true ∧
                  ∀ ty, ty ∈ required_appliances a' →
                        dict_get (appliance_binding a') ty = Some (Some ty)
  | None =>
      ∃ u ty, u ∈ users ∧ ty ∈ get_required_devices u ∧
              appliances !! ty = None
  end.
Proof.
  induction users as [|u users IH]; intros Hwf Horder; simpl.
  - split; [intros u ty Hin; by apply elem_of_nil in Hin|]. split; [done|].
    intros u' nm a' Hin. by apply elem_of_nil in Hin.
  - pose proof (bind_required_spec appliances (order u) u) as Hu.
    destruct (bind_required appliances (order u) u) as [r|].
    + destruct Hu as (Hall & Hname & Hacts).
      assert (match bind_users appliances order users with
              | Some r =>
                  (∀ u ty, u ∈ users → ty ∈ get_required_devices u →
                           is_Some (appliances !! ty)) ∧
                  name <$> r.1 = name <$> users ∧
                  ∀ u' nm a', u' ∈ r.1 → (nm, a') ∈ activities u' →
                    all_bindings_satisfied a' = true ∧
                    ∀ ty, ty ∈ required_appliances a' →
                      dict_get (appliance_binding a') ty = Some (Some ty)
              | None =>
                  ∃ u ty, u ∈ users ∧ ty ∈ get_required_devices u ∧
                          appliances !! ty = None
              end) as IH'.
      { apply IH.
        - intros v nm a Hv. apply Hwf. by right.
        - intros v ty Hv. apply Horder. by right. }
      destruct (bind_users appliances order users) as [r'|].
      * destruct IH' as (Hall' & Hnames' & Hbound'). simpl.
        split; [|split].
        -- intros v ty Hv Hty. apply elem_of_cons in Hv as [->|Hv].
           ++ apply Hall. apply Horder; [left | done].
           ++ by apply (Hall' v).
        -- by f_equal.
        -- intros u' nm a' Hu' Ha'. apply elem_of_cons in Hu' as [->|Hu'];
             [|by apply (Hbound' u' nm)].
           rewrite Hacts in Ha'.
           apply list_elem_of_In, in_map_iff in Ha' as ([nm0 a] & [= <- <-] & Ha).
           apply list_elem_of_In in Ha. simpl.
           pose proof (Hwf u nm0 a ltac:(left) Ha) as Hwfa.
           destruct (fold_bind1_facts (order u) a Hwfa)
             as ((Hnd & Hkeys) & Hreq & Hget).
           assert (∀ ty, ty ∈ required_appliances a →
                     dict_get (appliance_binding (foldl bind1 a (order u))) ty
                     = Some (Some ty)) as Hbound.
           { intros ty Hty. rewrite Hget. rewrite decide_True; [done|].
             split; [|done]. apply Horder; [left|].
             apply elem_of_get_required_devices. by exists nm0, a. }
           split.
           ++ apply all_bindings_satisfied_true; [done|].
              intros ty Hty. exists ty. apply Hbound.
              rewrite <- Hreq. by apply Hkeys.
           ++ intros ty Hty. apply Hbound. by rewrite <- Hreq.
      * destruct IH' as (v & ty & Hv & Hty & Hnone).
        exists v, ty. split; [by right | done].
    + destruct Hu as (rd & Hin & Hnone). exists u, rd.
      split; [left|]. split; [|done]. apply Horder; [left | done].
Qed.

Lemma foldl_dict_set_None (devices : list (Z * string)) :
  ∀ d : list (string * option string),
    NoDup (map fst d) →
    let d' := foldl (λ d (kv : Z * string), dict_set d kv.2 None) d devices in
    NoDup (map fst d') ∧
    (∀ ty, ty ∈ map fst d' ↔ ty ∈ map fst d ∨ ty ∈ map snd devices) ∧
    (∀ ty b, (ty, b) ∈ d' → (ty, b) ∈ d ∨ b = None).
Proof.
  induction devices as [|[id ty0] devices IH]; intros d Hnd; simpl.
  - split; [done|]. split.
    + intros ty. split; [by left|]. intros [?|Hin]; [done|].
      by apply elem_of_nil in Hin.
    + intros ty b Hin. by left.
  - assert (NoDup (map fst (dict_set d ty0 (None : option string))) ∧
            (∀ ty, ty ∈ map fst (dict_set d ty0 (None : option string))
                   ↔ ty ∈ map fst d ∨ ty = ty0) ∧
            (∀ ty b, (ty, b) ∈ dict_set d ty0 (None : option string) →
                     (ty, b) ∈ d ∨ b = None)) as (Hnd1 & Hk1 & Hv1).
    { destruct (decide (ty0 ∈ map fst d)) as [Hin|Hnin].
      - rewrite dict_set_keys_present by done. split; [done|]. split.
        + intros ty. split; [by left|]. intros [?| ->]; done.
        + intros ty b Hb.
          assert (NoDup (map fst (dict_set d ty0 (None : option string))))
            as Hnd' by (by rewrite dict_set_keys_present).
          apply dict_get_elem_of in Hb; [|done].
          destruct (decide (ty = ty0)) as [->|Hne].
          * rewrite dict_get_set_eq in Hb. right. congruence.
          * rewrite dict_get_set_ne in Hb by done.
            left. by apply dict_get_elem_of.
      - rewrite dict_set_keys_absent by done. split.
        + apply NoDup_app. split; [done|]. split; [|apply NoDup_singleton].
          intros x Hx Hx'. apply list_elem_of_singleton in Hx'. by subst.
        + split.
          * intros ty. rewrite elem_of_app, list_elem_of_singleton. done.
          * intros ty b Hb.
            assert (NoDup (map fst (dict_set d ty0 (None : option string))))
              as Hnd'.
            { rewrite dict_set_keys_absent by done.
              apply NoDup_app. split; [done|].
              split; [|apply NoDup_singleton].
              intros x Hx Hx'. apply list_elem_of_singleton in Hx'.
              by subst. }
            apply dict_get_elem_of in Hb; [|done].
            destruct (decide (ty = ty0)) as [->|Hne].
            -- rewrite dict_get_set_eq in Hb. right. congruence.
            -- rewrite dict_get_set_ne in Hb by done.
               left. by apply dict_get_elem_of. }
    destruct (IH _ Hnd1) as (Hnd2 & Hk2 & Hv2). split; [done|]. split.
    + intros ty. rewrite Hk2, Hk1. rewrite elem_of_cons. simpl. tauto.
    + intros ty b Hb. destruct (Hv2 ty b Hb) as [Hin|?]; [|by right].
      by apply Hv1.
Qed.

(** X6.  A freshly constructed activity has a binding entry for exactly
    the device types of its configuration, each entry unbound; hence
    [all_bindings_satisfied] fails on it as soon as it lists a device. *)
Theorem ActivityModel_init_unbound (nm : string) (devices : list (Z * string))
    (sequence : list (Z * Row)) :
  let a := ActivityModel_init nm devices sequence in
  well_formed a ∧
  (∀ ty b, (ty, b) ∈ appliance_binding a → b = None) ∧
  (all_bindings_satisfied a = true ↔ devices = []).
Proof.
  intros a.
  assert (required_appliances a = map snd devices) as Hreq by done.
  destruct (foldl_dict_set_None devices [] ltac:(constructor))
    as (Hnd & Hkeys & Hvals).
  change (foldl _ [] devices) with (appliance_binding a) in Hnd, Hkeys, Hvals.
  assert (∀ ty b, (ty, b) ∈ appliance_binding a → b = None) as Hnone.
  { intros ty b Hb. destruct (Hvals ty b Hb) as [Hin|?]; [|done].
    by apply elem_of_nil in Hin. }
  split; [|split; [done|]].
  - split; [done|]. intros ty. rewrite Hkeys, Hreq. split; [|by right].
    intros [Hin|?]; [by apply elem_of_nil in Hin | done].
  - split.
    + intros Hall. destruct devices as [|[id ty] devices]; [done|]. exfalso.
      assert (ty ∈ map fst (appliance_binding a)) as Hty.
      { apply Hkeys. right. left. }
      apply list_elem_of_In, in_map_iff in Hty as ([ty' b] & Heq & Hin).
      simpl in Heq. subst ty'. apply list_elem_of_In in Hin.
      pose proof (Hnone ty b Hin) as ->.
      unfold all_bindings_satisfied in Hall.
      rewrite forallb_forall in Hall.
      apply list_elem_of_In, Hall in Hin. simpl in Hin. done.
    + intros ->. done.
Qed.

End BindingFacts.

(** ** More properties of the waveform synthesizer *)

Section WaveformFacts.

Context {G NP : Type} `{!PyRandom G} `{!NumPy NP}.

Abbreviation World := (@World G NP).
Abbreviation M := (@M G NP).

(** Nothing but the state of [numpy.random] changes. *)
Definition only_numpy (w w' : World) : Prop :=
  w_random w' = w_random w ∧ w_appliances w' = w_appliances w ∧
  w_powers w' = w_powers w ∧ w_events w' = w_events w ∧ w_log w' = w_log w.

#[local] Instance only_numpy_preorder : PreOrder only_numpy.
Proof.
  split.
  - by intros w.
  - intros w1 w2 w3 (A1 & A2 & A3 & A4 & A5) (B1 & B2 & B3 & B4 & B5).
    unfold only_numpy. repeat split; congruence.
Qed.

Lemma only_numpy_np_random_normal loc scale :
  effect only_numpy (np_random_normal loc scale : M Qc).
Proof.
  intros w r w'. unfold np_random_normal. case_match; [done|].
  destruct (np_normal _ _ _). by intros [= _ <-].
Qed.

Lemma only_numpy_np_random_normal_n loc scale n :
  effect only_numpy (np_random_normal_n loc scale n : M (list Qc)).
Proof.
  induction n as [|n IH]; simpl.
  - destruct (Qcltb scale 0); [apply effect_raise | apply effect_ret; apply _].
  - apply effect_bind; [apply _ | apply only_numpy_np_random_normal|].
    intros x. apply effect_bind; [apply _ | done|].
    intros xs. apply effect_ret; apply _.
Qed.

Lemma only_numpy_NoiseModel_bound fuel low mean stdev high val :
  effect only_numpy (NoiseModel_bound fuel low mean stdev high val : M Qc).
Proof.
  revert val. induction fuel as [|fuel IH]; intros val; simpl.
  - destruct (_ || _); [apply effect_out_of_fuel | apply effect_ret; apply _].
  - destruct (_ || _); [|apply effect_ret; apply _].
    apply effect_bind; [apply _ | apply only_numpy_np_random_normal|].
    intros x. apply IH.
Qed.

Lemma only_numpy_NoiseModel_bound_all fuel low mean stdev high data :
  effect only_numpy
         (NoiseModel_bound_all fuel low mean stdev high data : M (list Qc)).
Proof.
  induction data as [|x data IH]; simpl.
  - apply effect_ret; apply _.
  - apply effect_bind; [apply _ | apply only_numpy_NoiseModel_bound|].
    intros y. apply effect_bind; [apply _ | done|].
    intros ys. apply effect_ret; apply _.
Qed.

Lemma only_numpy_Component_synthesize fuel c n :
  effect only_numpy (Component_synthesize fuel c n : M (list Qc)).
Proof.
  destruct c; simpl; try (apply effect_ret; apply _).
  apply effect_bind; [apply _ | apply only_numpy_np_random_normal_n|].
  intros data. apply only_numpy_NoiseModel_bound_all.
Qed.

Lemma length_np_slice_iadd entry start stop samples entry' :
  np_slice_iadd entry start stop samples = Ok entry' →
  length entry' = length entry.
Proof.
  unfold np_slice_iadd. case_decide.
  - intros [= <-]. apply length_add_go.
  - destruct samples as [|x [|y samples]]; [done| |done].
    intros [= <-]. apply length_add_go.
Qed.

Lemma synthesize_comps_spec fuel cs offset duration :
  ∀ start_offset entry (w w' : World) entry',
    synthesize_comps fuel cs offset duration start_offset entry w
    = Ok (entry', w') →
    only_numpy w w' ∧ length entry' = length entry.
Proof.
  induction cs as [|c cs IH]; intros start_offset entry w w' entry'; simpl.
  - intros [= <- <-]. done.
  - destruct (_ || _); [apply IH|]. intros Hr.
    apply bind_Ok in Hr as (samples & w1 & H1 & Hr).
    apply bind_Ok in Hr as (entry1 & w2 & H2 & Hr).
    apply lift_Ok in H2 as (? & Hadd & [= <- <-]).
    apply only_numpy_Component_synthesize in H1.
    apply length_np_slice_iadd in Hadd.
    apply IH in Hr as [Hn Hl]. split; [by etrans | congruence].
Qed.

(** X7.  Whenever [ApplianceModel.synthesize] returns: the returned array
    has the length of the appliance's cumulative array; the cumulative
    array grows by exactly the returned array; the busy bitmap is the old
    one with the slice [offset, offset + duration) set, so that no busy
    bit is ever cleared; type, model folder, active components and usual
    duration stay; no other appliance changes; and neither the powers
    map, the event list, the log nor the state of the [random] module is
    touched (only [numpy.random] may advance). *)
Theorem appliance_synthesize_accumulates fuel addr offset duration
    (w w' : World) (cycle : list Qc) :
  ApplianceModel_synthesize fuel (Some addr) offset duration w
  = Ok (cycle, w') →
  ∃ app,
    w_appliances w !! addr = Some app ∧
    length cycle = length (total_power app) ∧
    w_appliances w'
    = <[addr := mkAppliance (appliance_type app) (model_folder app)
                 (usual_duration app) (comps app)
                 (slice_fill (busy app) offset (offset + duration) true)
                 (zip_with Qcplus (total_power app) cycle)]>
        (w_appliances w) ∧
    (∀ n : nat, busy app !! n = Some true →
                slice_fill (busy app) offset (offset + duration) true !! n
                = Some true) ∧
    w_random w' = w_random w ∧ w_powers w' = w_powers w ∧
    w_events w' = w_events w ∧ w_log w' = w_log w.
Proof.
  unfold ApplianceModel_synthesize. intros Hr.
  apply bind_Ok in Hr as (app & w1 & Hderef & Hr).
  unfold deref in Hderef.
  destruct (w_appliances w !! addr) as [app0|] eqn:Happ; [|done].
  inversion Hderef; subst app0 w1. clear Hderef.
  apply bind_Ok in Hr as (cyc & w2 & Hcomps & Hr).
  apply synthesize_comps_spec in Hcomps as [(R1 & R2 & R3 & R4 & R5) Hlen].
  rewrite length_replicate in Hlen.
  apply bind_Ok in Hr as (total & w3 & Hadd & Hr).
  apply lift_Ok in Hadd as (? & Hadd & [= <- <-]).
  unfold np_iadd in Hadd. rewrite decide_True in Hadd by done.
  inversion Hadd; subst total.
  apply bind_Ok in Hr as ([] & w4 & [= <-] & [= <- <-]). simpl.
  exists app. split; [done|]. split; [done|].
  split; [by rewrite R2|].
  split; [|done].
  intros n Hn. unfold slice_fill. rewrite fill_go_lookup, Hn. simpl.
  by case_match.
Qed.

Definition is_noise (c : Component) : bool :=
  match c with NoiseModel _ _ _ _ _ => true | _ => false end.

Lemma length_np_linspace a b n : length (np_linspace a b n) = Z.to_nat n.
Proof. unfold np_linspace. by rewrite length_map, length_seqZ. Qed.

Lemma Component_synthesize_deterministic fuel c n (w : World) :
  is_noise c = false →
  ∃ samples, Component_synthesize fuel c n w = Ok (samples, w) ∧
             length samples = Z.to_nat n.
Proof.
  destruct c; simpl; try done; intros _; eexists; (split; [reflexivity|]);
    rewrite ?length_map; apply length_np_linspace.
Qed.

Lemma round_integer (d : Z) : round (Q2Qc (inject_Z d)) = d.
Proof.
  unfold round.
  assert (Q2Qc (inject_Z d) == inject_Z d)%Q as Hq by apply Qred_correct.
  assert (Qfloor (Q2Qc (inject_Z d)) = d) as ->.
  { rewrite (Qfloor_comp _ _ Hq). apply Qfloor_Z. }
  assert ((Q2Qc (inject_Z d) - inject_Z d ?= 1 # 2)%Q = Lt) as ->; [|done].
  rewrite Hq. apply (proj1 (Qlt_alt _ _)). lra.
Qed.

(** X8.  An operation that runs over the end of the horizon is not
    truncated: when the first component of the active program is not a
    noise component and has the duration fraction 1.0, the duration is at
    least two seconds and at most one day, and the window starts at a
    non-negative second but ends beyond the appliance's array, the
    in-place addition onto the too-short slice raises [ValueError]. *)
Theorem appliance_synthesize_overrun_raises fuel addr offset duration
    (w : World) app c rest :
  w_appliances w !! addr = Some app →
  comps app = c :: rest →
  is_noise c = false →
  comp_dur c = 1%Qc →
  2 ≤ duration ≤ 86400 →
  0 ≤ offset →
  Z.of_nat (length (total_power app)) < offset + duration →
  ApplianceModel_synthesize fuel (Some addr) offset duration w
  = Raise ValueError.
Proof.
  intros Happ Hcomps Hnoise Hdur Hn Hoff Hover.
  unfold ApplianceModel_synthesize, bind, deref. rewrite Happ, Hcomps.
  cbn [synthesize_comps]. rewrite Hdur, Qcmult_1_l, round_integer.
  set (n := duration) in *.
  replace (0 + n - 0) with n by lia.
  replace ((n <=? 0) || (86400 <? n)) with false.
  2:{ symmetry. apply orb_false_iff.
      split; [apply Z.leb_gt | apply Z.ltb_ge]; lia. }
  unfold bind.
  destruct (Component_synthesize_deterministic fuel c n w Hnoise)
    as (samples & -> & Hlen).
  unfold lift, np_slice_iadd. rewrite length_replicate.
  set (len := Z.of_nat (length (total_power app))) in *.
  rewrite decide_False.
  - destruct samples as [|x [|y samples]]; simpl in Hlen; [lia|lia|done].
  - rewrite Hlen. unfold clamp_index.
    destruct (offset + 0 <? 0) eqn:E1; [apply Z.ltb_lt in E1; lia|].
    destruct (offset + (0 + n) <? 0) eqn:E2; [apply Z.ltb_lt in E2; lia|].
    lia.
Qed.

(** X9.  [pick_another_model] raises [IndexError] on an empty model
    folder.  Whenever it returns, it has made one draw [k] below the
    number of files of the folder, the appliance has the usual duration
    and the components read from the [k]-th file, its type, folder, busy
    bitmap and cumulative power are as before, no other appliance changes,
    the powers and the events are untouched, and [numpy.random] has not
    been drawn from. *)
Theorem pick_another_model_effect addr (w : World) app :
  w_appliances w !! addr = Some app →
  (model_folder app = [] →
   ApplianceModel_pick_another_model (Some addr) w = Raise IndexError) ∧
  ∀ r w',
    ApplianceModel_pick_another_model (Some addr) w = Ok (r, w') →
    let draw := rnd_randbelow (Z.of_nat (length (model_folder app)))
                              (w_random w) in
    ∃ model_file,
      model_folder app !! Z.to_nat draw.1 = Some model_file ∧
      w_random w' = draw.2 ∧
      w_appliances w'
      = <[addr := mkAppliance (appliance_type app) (model_folder app)
                   (mf_duration model_file) (mf_comps model_file)
                   (busy app) (total_power app)]> (w_appliances w) ∧
      w_numpy w' = w_numpy w ∧ w_powers w' = w_powers w ∧
      w_events w' = w_events w.
Proof.
  intros Happ. unfold ApplianceModel_pick_another_model, bind, deref.
  rewrite Happ. unfold random_choice. split.
  - by intros ->.
  - intros r w'. destruct (model_folder app) as [|mf folder] eqn:Hfolder; [done|].
    destruct (rnd_randbelow _ _) as [k g]. simpl.
    destruct ((mf :: folder) !! Z.to_nat k) as [file|] eqn:Hfile; [|done].
    intros [= _ <-]. by exists file.
Qed.

Lemma NoiseModel_bound_in_range fuel low mean stdev high val (w w' : World) y :
  NoiseModel_bound fuel low mean stdev high val w = Ok (y, w') →
  (low <= y)%Qc ∧ (y <= high)%Qc.
Proof.
  revert val w. induction fuel as [|fuel IH]; intros val w; simpl.
  - destruct (Qcltb high val || Qcltb val low) eqn:E; [done|].
    intros [= <- _]. apply orb_false_iff in E as [E1 E2].
    split; apply Qcnot_lt_le; intros Hlt; apply Qcltb_lt in Hlt; congruence.
  - destruct (Qcltb high val || Qcltb val low) eqn:E.
    + intros Hr. apply bind_Ok in Hr as (v & w1 & _ & Hr). by eapply IH.
    + intros [= <- _]. apply orb_false_iff in E as [E1 E2].
      split; apply Qcnot_lt_le; intros Hlt; apply Qcltb_lt in Hlt; congruence.
Qed.

Lemma length_np_random_normal_n loc scale n (w w' : World) data :
  np_random_normal_n loc scale n w = Ok (data, w') → length data = n.
Proof.
  revert w w' data. induction n as [|n IH]; intros w w' data; simpl.
  - destruct (Qcltb scale 0); [done|]. by intros [= <- _].
  - intros Hr. apply bind_Ok in Hr as (x & w1 & _ & Hr).
    apply bind_Ok in Hr as (xs & w2 & Hxs & [= <- _]).
    simpl. f_equal. by eapply IH.
Qed.

Lemma NoiseModel_bound_all_spec fuel low mean stdev high data :
  ∀ (w w' : World) ys,
    NoiseModel_bound_all fuel low mean stdev high data w = Ok (ys, w') →
    length ys = length data ∧
    ∀ y, y ∈ ys → (low <= y)%Qc ∧ (y <= high)%Qc.
Proof.
  induction data as [|x data IH]; intros w w' ys; simpl.
  - intros [= <- _]. split; [done|]. intros y Hy. by apply elem_of_nil in Hy.
  - intros Hr. apply bind_Ok in Hr as (y0 & w1 & Hy0 & Hr).
    apply bind_Ok in Hr as (ys0 & w2 & Hys & [= <- _]).
    apply NoiseModel_bound_in_range in Hy0.
    apply IH in Hys as [Hlen Hall]. split; [simpl; by f_equal|].
    intros y Hy. apply elem_of_cons in Hy as [->|Hy]; [done | by apply Hall].
Qed.

(** X10.  Whenever the noise component returns, it returns exactly
    [length] samples, every one of them within [low, high], and it has
    drawn from [numpy.random] only: the state of the [random] module and
    everything else is unchanged. *)
Theorem noise_samples_within_bounds fuel dur low mean stdev high (n : Z)
    (w w' : World) samples :
  Component_synthesize fuel (NoiseModel dur low mean stdev high) n w
  = Ok (samples, w') →
  length samples = Z.to_nat n ∧
  (∀ y, y ∈ samples → (low <= y)%Qc ∧ (y <= high)%Qc) ∧
  w_random w' = w_random w ∧ w_appliances w' = w_appliances w ∧
  w_powers w' = w_powers w ∧ w_events w' = w_events w ∧ w_log w' = w_log w.
Proof.
  intros Hr.
  pose proof (only_numpy_Component_synthesize _ _ _ _ _ _ Hr) as Honly.
  simpl in Hr. apply bind_Ok in Hr as (data & w1 & Hdata & Hr).
  apply length_np_random_normal_n in Hdata.
  apply NoiseModel_bound_all_spec in Hr as [Hlen Hall].
  split; [congruence|]. split; [done|]. apply Honly.
Qed.

End WaveformFacts.

(** ** More properties of the search for a starting time *)

Section SlotFacts.

Context {G NP : Type} `{!PyRandom G} `{!NumPy NP}.

Abbreviation World := (@World G NP).

Lemma get_latest_Some bitmap l :
  Tools.get_latest bitmap = Some l →
  ∃ j : nat, l = Z.of_nat j + 1 ∧ bitmap !! j = Some true ∧
             ∀ m : nat, (j < m)%nat → bitmap !! m ≠ Some true.
Proof.
  unfold Tools.get_latest, Tools.get_earliest. intros H.
  destruct (Tools.index_true 0 (reverse bitmap)) as [off|] eqn:E; [|done].
  apply index_true_Some in E as (k & -> & Hk & Hlt).
  pose proof (lookup_lt_Some _ _ _ Hk) as Hlen. rewrite length_reverse in Hlen.
  rewrite reverse_lookup in Hk by done.
  case_match; [|done]. inversion H; subst l. clear H.
  exists (length bitmap - S k)%nat. split; [lia|]. split; [done|].
  intros m Hm Htrue. pose proof (lookup_lt_Some _ _ _ Htrue) as Hmlen.
  specialize (Hlt (length bitmap - S m)%nat ltac:(lia)).
  rewrite reverse_lookup in Hlt by lia.
  replace (length bitmap - S (length bitmap - S m))%nat with m in Hlt by lia.
  congruence.
Qed.

(** X11.  The two bitmap queries on any bitmap: either both return
    [None], and then no bit is set; or [get_earliest] returns the index
    of the first set bit and [get_latest] returns one more than the index
    of the last set bit, every set bit lying between the two. *)
Theorem earliest_and_latest_characterised (bitmap : list bool) :
  match Tools.get_earliest bitmap, Tools.get_latest bitmap with
  | Some e, Some l =>
      ∃ i j : nat,
        e = Z.of_nat i ∧ l = Z.of_nat j + 1 ∧
        bitmap !! i = Some true ∧ bitmap !! j = Some true ∧
        ∀ n : nat, bitmap !! n = Some true → (i ≤ n ≤ j)%nat
  | None, None => ∀ n : nat, bitmap !! n ≠ Some true
  | _, _ => False
  end.
Proof.
  destruct (Tools.get_earliest bitmap) as [e|] eqn:He;
    destruct (Tools.get_latest bitmap) as [l|] eqn:Hl.
  - apply index_true_Some in He as (i & -> & Hi & Hlt).
    apply get_latest_Some in Hl as (j & -> & Hj & Hgt).
    exists i, j. repeat split; try done.
    + destruct (decide (i ≤ n)%nat); [done|].
      rewrite Hlt in H by lia. done.
    + destruct (decide (n ≤ j)%nat); [done|].
      exfalso. apply (Hgt n); [lia | done].
  - apply index_true_Some in He as (i & _ & Hi & _).
    by apply (proj1 (get_latest_None bitmap) Hl i).
  - apply get_latest_Some in Hl as (j & _ & Hj & _).
    by apply (proj1 (get_earliest_None bitmap) He j).
  - by apply get_earliest_None.
Qed.

Lemma scan_complete cands av d hz c :
  c ∈ cands → accepted av d hz c →
  scan cands av d hz ∈ cands ∧ accepted av d hz (scan cands av d hz).
Proof.
  intros Hin Hacc. induction cands as [|x cands IH]; simpl.
  - by apply elem_of_nil in Hin.
  - destruct (all _ && _) eqn:E.
    + split; [apply list_elem_of_here | by apply accepted_test].
    + apply elem_of_cons in Hin as [->|Hin].
      * apply accepted_test in Hacc. congruence.
      * destruct (IH Hin) as [H1 H2].
        split; [by apply list_elem_of_further | done].
Qed.

Lemma free_run_accepted av d s :
  0 ≤ d → free_run av s d → accepted av d (Z.of_nat (length av)) s.
Proof.
  intros Hd (Hs & Hend & Hfree). split; [|done].
  apply all_slice; [done | lia | done].
Qed.

(** X12.  The search finds a window whenever one exists.  If the
    availability bitmap has a free run of [duration >= 1] seconds
    anywhere, then, [earliest_start] and [latest_start] being what the two
    bitmap queries return, the early exit [latest_start + 1 - duration <
    earliest_start] is not taken, and [find_slot] (ten random probes, then
    the exhaustive scan) returns a starting time other than -1 at which
    [duration] free seconds begin, having only drawn from the [random]
    module. *)
Theorem find_slot_finds_free_run av e l d s0 (w : World) :
  Tools.get_earliest av = Some e →
  Tools.get_latest av = Some l →
  1 ≤ d →
  free_run av s0 d →
  ¬ (l + 1 - d < e) ∧
  ∃ s g, find_slot av e l d (Z.of_nat (length av)) w = Ok (s, with_random g w) ∧
         s ≠ -1 ∧ e ≤ s ∧ free_run av s d.
Proof.
  intros He Hl Hd Hrun.
  pose proof Hrun as (Hs0 & Hend & Hfree).
  apply index_true_Some in He as (i & -> & Hi & Hlt).
  apply get_latest_Some in Hl as (j & -> & Hj & Hgt).
  assert (Z.of_nat i ≤ s0) as Hlo.
  { destruct (decide (Z.of_nat i ≤ s0)); [done|].
    specialize (Hfree (Z.to_nat s0) ltac:(lia)).
    rewrite Hlt in Hfree by lia. done. }
  assert (s0 + d - 1 ≤ Z.of_nat j) as Hhi.
  { destruct (decide (s0 + d - 1 ≤ Z.of_nat j)); [done|].
    specialize (Hfree (Z.to_nat (s0 + d - 1)) ltac:(lia)).
    exfalso. apply (Hgt (Z.to_nat (s0 + d - 1))); [lia | done]. }
  split; [lia|].
  unfold find_slot, bind.
  destruct (probe_total 10 av (0 + Z.of_nat i) (Z.of_nat j + 1) d
              (Z.of_nat (length av)) w ltac:(lia))
    as (s & g & -> & [->|[Hs Hacc]]).
  - exists (scan (seqZ (0 + Z.of_nat i)
                       (Z.of_nat j + 1 + 1 - d - (0 + Z.of_nat i)))
                 av d (Z.of_nat (length av))), g.
    split; [done|].
    destruct (scan_complete
                (seqZ (0 + Z.of_nat i)
                      (Z.of_nat j + 1 + 1 - d - (0 + Z.of_nat i)))
                av d (Z.of_nat (length av)) s0) as [Hin Hacc].
    { apply elem_of_seqZ. lia. }
    { apply free_run_accepted; [lia | done]. }
    apply elem_of_seqZ in Hin.
    split; [lia|]. split; [lia|]. apply accepted_free_run; [lia | done].
  - exists s, g. destruct (s =? -1) eqn:E; [apply Z.eqb_eq in E; lia|].
    split; [done|]. split; [lia|]. split; [lia|].
    apply accepted_free_run; [lia | done].
Qed.

End SlotFacts.

(** ** The shuffle of the activities, the noise on the total and the
    linear ramp *)

Section ShuffleAndNoiseFacts.

Context {G NP : Type} `{!PyRandom G} `{!NumPy NP}.

Abbreviation World := (@World G NP).
Abbreviation M := (@M G NP).

Definition key_le {A} (x y : Qc * A) : Prop := (x.1 <= y.1)%Qc.

Lemma insert_by_key_perm {A} (x : Qc * A) l : insert_by_key x l ≡ₚ x :: l.
Proof.
  induction l as [|y l IH]; simpl; [done|].
  destruct (Qcltb x.1 y.1); [done|].
  rewrite IH. apply Permutation_swap.
Qed.

Lemma insert_by_key_sorted {A} (x : Qc * A) l :
  StronglySorted key_le l → StronglySorted key_le (insert_by_key x l).
Proof.
  induction 1 as [|y l Hs IH Hall]; simpl.
  - repeat constructor.
  - destruct (Qcltb x.1 y.1) eqn:E.
    + apply Qcltb_lt in E. constructor; [by constructor|].
      constructor; [by apply Qclt_le_weak|].
      eapply Forall_impl; [exact Hall|]. intros z Hz. unfold key_le in *.
      eapply Qcle_trans; [by apply Qclt_le_weak | done].
    + assert (y.1 <= x.1)%Qc as Hyx.
      { apply Qcnot_lt_le. intros Hlt. apply Qcltb_lt in Hlt. congruence. }
      constructor; [done|].
      rewrite insert_by_key_perm. by constructor.
Qed.

Lemma foldl_insert_by_key {A} (l acc : list (Qc * A)) :
  StronglySorted key_le acc →
  foldl (λ acc x, insert_by_key x acc) acc l ≡ₚ acc ++ l ∧
  StronglySorted key_le (foldl (λ acc x, insert_by_key x acc) acc l).
Proof.
  revert acc. induction l as [|x l IH]; intros acc Hacc; simpl.
  - by rewrite app_nil_r.
  - destruct (IH (insert_by_key x acc) (insert_by_key_sorted x acc Hacc))
      as [Hp Hs].
    split; [|done]. rewrite Hp, insert_by_key_perm. simpl.
    apply Permutation_middle.
Qed.

Lemma with_random_twice (g g' : G) (w : World) :
  with_random g' (with_random g w) = with_random g' w.
Proof. done. Qed.

(** [n] successive values of [random.random()] from the generator state
    [g], and the state they leave. *)
Fixpoint draws (n : nat) (g : G) : list Qc * G :=
  match n with
  | O => ([], g)
  | S n =>
      let (x, g1) := rnd_random g in
      let (xs, g2) := draws n g1 in
      (x :: xs, g2)
  end.

Lemma length_draws n g : length (draws n g).1 = n.
Proof.
  revert g. induction n as [|n IH]; intros g; simpl; [done|].
  destruct (rnd_random g) as [x g1]. specialize (IH g1).
  destruct (draws n g1) as [xs g2]. simpl in *. by rewrite IH.
Qed.

Lemma draw_keys_draws {A} (items : list A) (w : World) :
  draw_keys items w
  = Ok (zip (draws (length items) (w_random w)).1 items,
        with_random (draws (length items) (w_random w)).2 w).
Proof.
  revert w. induction items as [|x items IH]; intros w; simpl.
  - by rewrite with_random_id.
  - unfold bind at 1. unfold random_random.
    destruct (rnd_random (w_random w)) as [k g].
    change (mkWorld g (w_numpy w) (w_appliances w) (w_powers w) (w_events w)
                    (w_log w)) with (with_random g w).
    unfold bind. rewrite IH. simpl.
    by destruct (draws (length items) g) as [xs g2].
Qed.

(** X13.  The shuffle of [UserModel.synthesize].  The keys are one value
    of [random.random()] per activity, drawn in the order of the
    activities; drawing them always succeeds and advances nothing but the
    [random] module, by exactly that many draws.  Sorting by the keys
    yields every activity of the user exactly once (the order is a
    permutation of the activities), in ascending order of the keys. *)
Theorem shuffle_is_a_permutation {A} (items : list A) (w : World) :
  let keys := (draws (length items) (w_random w)).1 in
  let keyed := zip keys items in
  draw_keys items w
  = Ok (keyed, with_random (draws (length items) (w_random w)).2 w) ∧
  length keys = length items ∧
  sorted_by_key keyed ≡ₚ items ∧
  ∃ ordered, ordered ≡ₚ keyed ∧ StronglySorted key_le ordered ∧
             sorted_by_key keyed = ordered.*2.
Proof.
  intros keys keyed.
  assert (length keys = length items) as Hlen by apply length_draws.
  split; [apply draw_keys_draws|]. split; [done|].
  destruct (foldl_insert_by_key keyed [] (SSorted_nil _)) as [Hp Hs].
  simpl in Hp. split.
  - unfold sorted_by_key.
    change (map snd) with (fmap (M:=list) (@snd Qc A)). rewrite Hp.
    unfold keyed. rewrite snd_zip by lia. done.
  - by exists (foldl (λ acc x, insert_by_key x acc) [] keyed).
Qed.

Lemma Forall_clamped (l : list Qc) :
  Forall (λ x, (0 <= x)%Qc) (map (λ x : Qc, if Qcltb x 0 then 0%Qc else x) l).
Proof.
  apply Forall_forall. intros x Hx.
  apply list_elem_of_In, in_map_iff in Hx as (y & <- & _).
  destruct (Qcltb y 0) eqn:E; [done|].
  apply Qcnot_lt_le. intros Hlt. apply Qcltb_lt in Hlt. congruence.
Qed.

Lemma np_iadd_scalar (a : list Qc) (x : Qc) :
  np_iadd a [x] = Ok (map (λ y, (y + x)%Qc) a).
Proof.
  unfold np_iadd. case_decide as Hlen; [|done].
  destruct a as [|y [|z a]]; simpl in Hlen; try done.
Qed.

(** X14.  The noise on the total.  Without noise nothing changes.
    Constant noise adds the absolute value [a] of the amplitude to every
    sample of [total] and draws nothing.  Gaussian noise draws as many
    samples as [total] has from [np.random.normal] with mean [a] and
    standard deviation [a / 10], adds them to [total] sample by sample
    and replaces every negative sum by zero, so that no sample of the
    noisy total is negative; [numpy.random] is left in the state after
    those draws.  In every case only the entry [total] of the powers map
    changes, and the [random] module, the appliances and the events are
    untouched. *)
Theorem add_noise_effect (noise : NoiseArg) (w w' : World) (total : list Qc) :
  w_powers w !! "total" = Some total →
  add_noise noise w = Ok (tt, w') →
  ∃ total',
    w_powers w' = <["total" := total']> (w_powers w) ∧
    length total' = length total ∧
    match noise with
    | NoNoise => total' = total ∧ w_numpy w' = w_numpy w
    | Constant amplitude =>
        total' = map (λ y, (y + Q2Qc (inject_Z (Z.abs amplitude)))%Qc) total ∧
        w_numpy w' = w_numpy w
    | Gaussian amplitude =>
        let a := Q2Qc (inject_Z (Z.abs amplitude)) in
        (∃ samples w1,
           np_random_normal_n a (a / Q2Qc (inject_Z 10))%Qc (length total) w
           = Ok (samples, w1) ∧
           length samples = length total ∧
           w_numpy w' = w_numpy w1 ∧
           total' = map (λ x : Qc, if Qcltb x 0 then 0%Qc else x)
                        (zip_with Qcplus total samples)) ∧
        Forall (λ x, (0 <= x)%Qc) total'
    end ∧
    w_random w' = w_random w ∧ w_appliances w' = w_appliances w ∧
    w_events w' = w_events w.
Proof.
  intros Htotal. destruct noise as [|amplitude|amplitude]; simpl.
  - intros [= <-]. exists total. by rewrite insert_id.
  - unfold get_powers, bind at 1. rewrite Htotal. intros Hr.
    apply bind_Ok in Hr as (samples & w1 & Hs & Hr).
    pose proof (only_numpy_np_random_normal_n _ _ _ _ _ _ Hs)
      as (R1 & R2 & R3 & R4 & R5).
    pose proof (length_np_random_normal_n _ _ _ _ _ _ Hs) as Hlen.
    apply bind_Ok in Hr as (sum & w2 & Hadd & Hr).
    apply lift_Ok in Hadd as (? & Hadd & [= <- <-]).
    unfold np_iadd in Hadd. rewrite decide_True in Hadd by done.
    inversion Hadd; subst sum. inversion Hr; subst w'. simpl.
    eexists. split; [by rewrite R3|].
    split; [by rewrite length_map, length_zip_with, Hlen, Nat.min_id|].
    split; [|done]. split; [|apply Forall_clamped].
    by exists samples, w2.
  - unfold iadd_power, get_powers, bind at 1. rewrite Htotal. intros Hr.
    apply bind_Ok in Hr as (sum & w2 & Hadd & Hr).
    apply lift_Ok in Hadd as (? & Hadd & [= <- <-]).
    rewrite np_iadd_scalar in Hadd. inversion Hadd; subst sum.
    inversion Hr; subst w'. simpl.
    eexists. split; [done|]. by rewrite length_map.
Qed.

(** X15.  A linear component of [n >= 2] samples yields [n] samples, the
    first of which is the start power and the last of which is the end
    power; it draws no random number and changes nothing. *)
Theorem linear_ramp_endpoints fuel (dur sta en : Qc) (n : Z) (w : World) :
  2 ≤ n →
  ∃ samples,
    Component_synthesize fuel (LinearModel dur sta en) n w = Ok (samples, w) ∧
    length samples = Z.to_nat n ∧
    samples !! 0%nat = Some sta ∧
    samples !! Z.to_nat (n - 1) = Some en.
Proof.
  intros Hn. exists (np_linspace sta en n). split; [done|].
  split; [apply length_np_linspace|].
  unfold np_linspace.
  replace (n =? 1) with false by (symmetry; apply Z.eqb_neq; lia).
  set (step := ((en - sta) / Q2Qc (inject_Z (n - 1)))%Qc).
  assert (Q2Qc (inject_Z (n - 1)) ≠ 0%Qc) as Hne.
  { intros H0. apply (f_equal (λ q : Qc, q : Q)) in H0.
    pose proof (Qred_correct (inject_Z (n - 1))) as H1.
    change (Qred (inject_Z (n - 1)) = 0%Q) in H0. rewrite H0 in H1.
    unfold Qeq in H1. simpl in H1. lia. }
  assert (∀ i : nat, Z.of_nat i < n →
            map (λ i, (sta + Q2Qc (inject_Z i) * step)%Qc) (seqZ 0 n) !! i
            = Some (sta + Q2Qc (inject_Z (Z.of_nat i)) * step)%Qc) as Hat.
  { intros i Hi. change (map ?f ?l) with (f <$> l).
    rewrite list_lookup_fmap, lookup_seqZ_lt by lia. simpl.
    by rewrite Z.add_0_l. }
  split.
  - rewrite (Hat 0%nat) by lia. f_equal.
    change (Q2Qc (inject_Z (Z.of_nat 0))) with 0%Qc. ring.
  - rewrite Hat by lia. f_equal. rewrite Z2Nat.id by lia.
    unfold step. field. done.
Qed.

End ShuffleAndNoiseFacts.

(** ** The schedule that a walk of the state machine produces *)

Section WalkFacts.

Context {G NP : Type} `{!PyRandom G} `{!NumPy NP}.

Abbreviation World := (@World G NP).
Abbreviation M := (@M G NP).

(** The appliance objects are untouched. *)
Definition same_heap (w w' : World) : Prop :=
  w_appliances w' = w_appliances w.

#[local] Instance same_heap_preorder : PreOrder same_heap.
Proof.
  split; [done|]. intros w1 w2 w3 H1 H2. unfold same_heap in *. congruence.
Qed.

Lemma same_heap_random_random : effect same_heap (random_random : M Qc).
Proof.
  intros w r w'. unfold random_random.
  destruct (rnd_random _). by intros [= _ <-].
Qed.

Lemma same_heap_random_randint a b : effect same_heap (random_randint a b : M Z).
Proof.
  intros w r w'. unfold random_randint. case_match; [|done].
  destruct (rnd_randbelow _ _). by intros [= _ <-].
Qed.

Lemma same_heap_logger lvl msg args :
  effect same_heap (logger lvl msg args : M unit).
Proof. intros w r w'. unfold logger. by intros [= _ <-]. Qed.

Lemma same_heap_deref r : effect same_heap (deref r : M ApplianceModel).
Proof.
  intros w a w'. unfold deref. destruct r; [|done].
  case_match; [|done]. by intros [= _ <-].
Qed.

Lemma same_heap_lookup_binding a devID :
  effect same_heap (lookup_binding a devID : M (option string)).
Proof.
  unfold lookup_binding. destruct (_ !! _); [|apply effect_raise].
  destruct (dict_get _ _); [apply effect_ret; apply _ | apply effect_raise].
Qed.

Lemma same_heap_state_duration a st :
  effect same_heap (state_duration a st : M Z).
Proof.
  unfold state_duration. apply effect_bind; [apply _ | |].
  - destruct (_ && _ && _); [|apply effect_ret; apply _].
    apply effect_bind; [apply _ | apply same_heap_logger|].
    intros _. apply effect_ret; apply _.
  - intros bounds. cbv zeta. destruct (_ && _ && _).
    + apply effect_bind; [apply _ | apply same_heap_lookup_binding|].
      intros b. apply effect_bind; [apply _ | apply same_heap_deref|].
      intros app. apply effect_ret; apply _.
    + apply same_heap_random_randint.
Qed.

Lemma same_heap_next_state st : effect same_heap (next_state st : M Z).
Proof.
  unfold next_state. apply effect_bind; [apply _ | apply same_heap_random_random|].
  intros draw. apply effect_ret; apply _.
Qed.

(** A row whose two duration bounds are both zero (the duration is then
    taken from the appliance, or from [randint(5, 10)]) or both at least
    one second. *)
Definition row_sane (r : Row) : Prop :=
  match r with
  | Malformed => True
  | Decoded st => (mn st = 0 ∧ mx st = 0) ∨ (1 ≤ mn st ∧ 1 ≤ mx st)
  end.

(** Every appliance has a usual duration of at least one second, in its
    active definition and in every definition of its folder. *)
Definition heap_sane (heap : gmap string ApplianceModel) : Prop :=
  ∀ addr app, heap !! addr = Some app →
              1 ≤ usual_duration app ∧
              ∀ model_file, model_file ∈ model_folder app →
                            1 ≤ mf_duration model_file.

Lemma state_duration_sane a st (w w' : World) r :
  row_sane (Decoded st) → heap_sane (w_appliances w) →
  state_duration a st w = Ok (r, w') → 1 ≤ r.
Proof.
  intros Hrow Hheap. unfold state_duration. intros Hr.
  apply bind_Ok in Hr as ([lo hi] & w1 & Hb & Hr). simpl in Hr.
  destruct ((mn st =? mx st) && (mx st =? 0) && (devID st =? 0)) eqn:E1.
  - apply bind_Ok in Hb as ([] & w0 & _ & [= <- <- _]). simpl in Hr.
    apply result_random_randint in Hr. lia.
  - inversion Hb; subst lo hi w1. clear Hb.
    destruct ((mn st =? mx st) && (mx st =? 0) && negb (devID st =? 0)) eqn:E2.
    + apply bind_Ok in Hr as (b & w1 & Hb & Hr).
      apply same_heap_lookup_binding in Hb.
      apply bind_Ok in Hr as (app & w2 & Hd & [= <- _]).
      unfold deref in Hd. destruct b as [addr|]; [|done].
      destruct (w_appliances w1 !! addr) as [app0|] eqn:Happ; [|done].
      inversion Hd; subst app0. rewrite Hb in Happ.
      by apply (Hheap addr app).
    + apply result_random_randint in Hr.
      destruct Hrow as [[Hmn Hmx]|[Hmn Hmx]]; [|lia].
      rewrite Hmn, Hmx in E1, E2. simpl in E1, E2.
      destruct (devID st =? 0); simpl in *; congruence.
Qed.

(** The loop invariant of [process_model]: the cursor [total] is not
    negative; the offsets of the schedule are strictly increasing, not
    negative and below the cursor; every runtime is at least one second;
    the user's interval is ordered and ends at or before the cursor. *)
Definition walk_inv (schedule : Schedule) (total : Z) (umin : option Z)
    (umax : Z) : Prop :=
  0 ≤ total ∧
  StronglySorted Z.lt schedule.*1 ∧
  (∀ off b dur, (off, (b, dur)) ∈ schedule → 0 ≤ off < total ∧ 1 ≤ dur) ∧
  0 ≤ umax ≤ total ∧
  match umin with Some t => 0 ≤ t < umax | None => umax = 0 end.

Lemma dict_set_fresh {V} (d : list (Z * V)) k v :
  (∀ k', k' ∈ d.*1 → k' < k) → dict_set d k v = d ++ [(k, v)].
Proof.
  induction d as [|[k' v'] d IH]; intros Hlt; simpl; [done|].
  rewrite decide_False.
  - f_equal. apply IH. intros k'' Hin. apply Hlt. simpl.
    by apply list_elem_of_further.
  - specialize (Hlt k'). simpl in Hlt.
    specialize (Hlt (list_elem_of_here _ _)). lia.
Qed.

Lemma StronglySorted_snoc (l : list Z) k :
  StronglySorted Z.lt l → (∀ k', k' ∈ l → k' < k) →
  StronglySorted Z.lt (l ++ [k]).
Proof.
  induction 1 as [|x l Hs IH Hall]; intros Hlt; simpl.
  - repeat constructor.
  - constructor.
    + apply IH. intros k' Hin. apply Hlt. by apply list_elem_of_further.
    + apply Forall_app. split; [done|].
      constructor; [|constructor]. apply Hlt. apply list_elem_of_here.
Qed.

Lemma walk_inv_step schedule total umin umax (user : bool) inc schedule1 :
  walk_inv schedule total umin umax →
  1 ≤ inc →
  (schedule1 = schedule ∨
   ∃ b dur, 1 ≤ dur ∧ schedule1 = dict_set schedule total (b, dur)) →
  walk_inv schedule1 (total + inc)
           (match umin with
            | None => if user then Some total else None
            | Some t => Some t
            end)
           (if user then total + inc else umax).
Proof.
  intros (Htot & Hsorted & Hitems & Humax & Humin) Hinc Hsched.
  assert (∀ k', k' ∈ schedule.*1 → k' < total) as Hbelow.
  { intros k' Hin. apply list_elem_of_fmap in Hin as ([off [b dur]] & -> & Hin).
    simpl. apply Hitems in Hin. lia. }
  split; [lia|]. split; [|split; [|split]].
  - destruct Hsched as [->|(b & dur & _ & ->)]; [done|].
    rewrite dict_set_fresh by done. rewrite fmap_app. simpl.
    by apply StronglySorted_snoc.
  - intros off b dur Hin.
    destruct Hsched as [->|(b0 & dur0 & Hdur & ->)].
    + apply Hitems in Hin. lia.
    + rewrite dict_set_fresh in Hin by done.
      apply elem_of_app in Hin as [Hin|Hin].
      * apply Hitems in Hin. lia.
      * apply list_elem_of_singleton in Hin as [= -> -> ->]. lia.
  - destruct user; lia.
  - destruct umin as [t|]; destruct user; lia.
Qed.

Lemma walk_sane a :
  (∀ k r, state_machine a !! k = Some r → row_sane r) →
  ∀ fuel cur schedule total umin umax (w w' : World) duration schedule' umin'
    umax',
    heap_sane (w_appliances w) →
    walk_inv schedule total umin umax →
    walk fuel a cur schedule total umin umax w
    = Ok ((duration, Some schedule', umin', umax'), w') →
    walk_inv schedule' duration umin' umax' ∧
    w_appliances w' = w_appliances w.
Proof.
  intros Hrows fuel.
  induction fuel as [|fuel IH];
    intros cur schedule total umin umax w w' duration schedule' umin' umax'
           Hheap Hinv Hr; simpl in Hr.
  - destruct (cur <? _); [done|]. by inversion Hr; subst.
  - destruct (cur <? _); [|by inversion Hr; subst].
    destruct (state_machine a !! cur) as [[st|]|] eqn:Hrow; [| |done].
    + apply bind_Ok in Hr as (runtime & w1 & Hdur & Hr).
      pose proof (state_duration_sane a st w w1 runtime
                    (Hrows cur _ Hrow) Hheap Hdur) as Hrun.
      apply same_heap_state_duration in Hdur.
      apply bind_Ok in Hr as ([] & w2 & Hlk & Hr).
      assert (w2 = w1) as ->.
      { destruct (appliance_lookup a !! devID st); [|done].
        by inversion Hlk. }
      apply bind_Ok in Hr as ([schedule1 total1] & w3 & Hstep & Hr).
      simpl in Hr.
      apply bind_Ok in Hr as (nxt & w4 & Hnext & Hr).
      apply same_heap_next_state in Hnext.
      assert (w_appliances w3 = w_appliances w1 ∧
              ∃ inc, total1 = total + inc ∧ 1 ≤ inc ∧
                     (schedule1 = schedule ∨
                      ∃ b dur, 1 ≤ dur ∧
                               schedule1 = dict_set schedule total (b, dur)))
        as (Hh3 & inc & -> & Hinc & Hsched).
      { destruct (negb (devID st =? 0)).
        - apply bind_Ok in Hstep as (b & w5 & Hb & Hstep).
          apply same_heap_lookup_binding in Hb. cbv zeta in Hstep.
          destruct (fin st).
          + inversion Hstep; subst. split; [done|].
            exists runtime. split; [done|]. split; [done|].
            right. by exists b, runtime.
          + apply bind_Ok in Hstep as (jitter & w6 & Hj & [= <- <- <-]).
            pose proof (result_random_randint _ _ _ _ _ Hj) as Hjit.
            apply same_heap_random_randint in Hj. split.
            { unfold same_heap in *. congruence. }
            exists jitter. split; [done|]. split; [simpl in Hjit; lia|].
            right. by exists b, runtime.
        - inversion Hstep; subst. split; [done|].
          exists runtime. split; [done|]. split; [done|]. by left. }
      unfold same_heap in *.
      apply IH in Hr as [Hinv' Hh'].
      * split; [done|]. congruence.
      * rewrite Hnext, Hh3, Hdur. done.
      * exact (walk_inv_step schedule total umin umax (usr st) inc schedule1
                 Hinv Hinc Hsched).
    + apply bind_Ok in Hr as ([] & w1 & _ & Hr).
      apply bind_Ok in Hr as ([] & w2 & _ & Hr). discriminate Hr.
Qed.

Lemma pick_another_model_sane addr (w w' : World) :
  heap_sane (w_appliances w) →
  ApplianceModel_pick_another_model addr w = Ok (tt, w') →
  heap_sane (w_appliances w').
Proof.
  intros Hheap. unfold ApplianceModel_pick_another_model. intros Hr.
  apply bind_Ok in Hr as (app & w1 & Hd & Hr).
  unfold deref in Hd. destruct addr as [addr|]; [|done].
  destruct (w_appliances w !! addr) as [app0|] eqn:Happ; [|done].
  inversion Hd; subst app0 w1. clear Hd.
  apply bind_Ok in Hr as (model_file & w1 & Hc & Hr).
  assert (model_file ∈ model_folder app ∧ w_appliances w1 = w_appliances w)
    as [Hin Hh].
  { unfold random_choice in Hc. destruct (model_folder app) as [|mf l]; [done|].
    destruct (rnd_randbelow _ _) as [k g].
    destruct ((mf :: l) !! Z.to_nat k) eqn:Hk; [|done].
    inversion Hc; subst. split; [|done].
    apply list_elem_of_lookup. by eexists. }
  inversion Hr; subst w'. simpl. rewrite Hh.
  destruct (Hheap addr app Happ) as [_ Hfolder].
  intros addr' app'. destruct (decide (addr' = addr)) as [->|Hne].
  - rewrite lookup_insert_eq. intros [= <-]. simpl. split; [|done].
    by apply Hfolder.
  - rewrite lookup_insert_ne by done. apply Hheap.
Qed.

Lemma pick_all_sane devs (w w' : World) :
  heap_sane (w_appliances w) → pick_all devs w = Ok (tt, w') →
  heap_sane (w_appliances w').
Proof.
  revert w. induction devs as [|dev devs IH]; intros w Hheap; simpl.
  - by intros [= <-].
  - intros Hr. apply bind_Ok in Hr as ([] & w1 & Hp & Hr).
    eapply IH; [|done]. by eapply pick_another_model_sane.
Qed.

(** X16.  The schedule of [process_model].  Let every row of the state
    machine have its two duration bounds both zero or both at least one
    second, and every appliance a usual duration of at least one second
    in each of its definitions.  Then, whenever [process_model] returns a
    schedule: the total duration is not negative; the offsets of the
    appliance operations are strictly increasing (so no operation
    replaces another one in the schedule), not negative and below the
    total duration; every operation runs for at least one second; and the
    interval of the user's presence is ordered and lies within the
    activity (with no state involving the user, the interval is absent
    and its end is 0). *)
Theorem process_model_schedule_sane fuel a vary (w w' : World) duration
    (schedule : Schedule) umin umax :
  (∀ k r, state_machine a !! k = Some r → row_sane r) →
  heap_sane (w_appliances w) →
  process_model fuel a vary w = Ok ((duration, Some schedule, umin, umax), w') →
  0 ≤ duration ∧
  StronglySorted Z.lt schedule.*1 ∧
  (∀ off b dur, (off, (b, dur)) ∈ schedule → 0 ≤ off < duration ∧ 1 ≤ dur) ∧
  0 ≤ umax ≤ duration ∧
  match umin with Some t => 0 ≤ t < umax | None => umax = 0 end ∧
  heap_sane (w_appliances w').
Proof.
  intros Hrows Hheap. unfold process_model. intros Hr.
  apply bind_Ok in Hr as ([] & w1 & Hpick & Hr).
  assert (heap_sane (w_appliances w1)) as Hheap1.
  { destruct vary; [by eapply pick_all_sane | by inversion Hpick; subst]. }
  apply (walk_sane a Hrows) in Hr as [(H1 & H2 & H3 & H4 & H5) Hh];
    [|done|].
  - rewrite Hh. done.
  - split; [done|]. split; [constructor|]. split; [|done].
    intros off b dur Hin. by apply elem_of_nil in Hin.
Qed.

End WalkFacts.

(** ** The number of instances attempted on one day *)

Section RepsFacts.

Context {G NP : Type} `{!PyRandom G} `{!NumPy NP}.

Abbreviation World := (@World G NP).

(** [round] is within one half of its argument. *)
Lemma round_bounds (x : Qc) :
  (x - (1 # 2) <= inject_Z (round x))%Q ∧ (inject_Z (round x) <= x + (1 # 2))%Q.
Proof.
  unfold round.
  pose proof (Qfloor_le x) as Hlo. pose proof (Qlt_floor x) as Hhi.
  rewrite inject_Z_plus in Hhi.
  change (inject_Z 1) with 1%Q in Hhi.
  destruct (Qcompare (x - inject_Z (Qfloor x)) (1 # 2)) eqn:E.
  - apply Qeq_alt in E.
    destruct (Z.even (Qfloor x)); [lra|].
    rewrite inject_Z_plus. change (inject_Z 1) with 1%Q. lra.
  - apply Qlt_alt in E. lra.
  - apply Qgt_alt in E. rewrite inject_Z_plus.
    change (inject_Z 1) with 1%Q. lra.
Qed.

(** X17.  The number of instances of an activity attempted on one day is
    drawn with a single call of [random.random], whose value is [x], and
    is never negative.  For a rate of at least one run per day it lies
    within one of the rate: rate - 1 <= reps <= rate + 1.  For a rate
    below one it is 0 when the rate is below [x] and 1 otherwise, hence 0
    for a negative rate. *)
Theorem draw_reps_bounds (rate : Qc) (w : World) :
  let x := (rnd_random (w_random w)).1 in
  ∃ reps,
    draw_reps rate w = Ok (reps, with_random (rnd_random (w_random w)).2 w) ∧
    0 ≤ reps ∧
    if Qcleb 1 rate
    then (rate - 1 <= Q2Qc (inject_Z reps))%Qc ∧
         (Q2Qc (inject_Z reps) <= rate + 1)%Qc
    else (reps = 0 ∨ reps = 1) ∧
         (reps = 0 ↔ (rate < x)%Qc) ∧
         ((rate < 0)%Qc → reps = 0).
Proof.
  unfold draw_reps, bind, random_random.
  pose proof (rnd_random_unit (w_random w)) as [Hx0 Hx1].
  destruct (rnd_random (w_random w)) as [x g]. simpl in Hx0, Hx1. simpl.
  change (mkWorld g (w_numpy w) (w_appliances w) (w_powers w) (w_events w)
                  (w_log w)) with (with_random g w).
  destruct (Qcleb 1 rate) eqn:E.
  - apply Qcleb_le in E.
    exists (round (rate + x - Q2Qc (1 # 2))%Qc). split; [done|].
    destruct (round_bounds (rate + x - Q2Qc (1 # 2))%Qc) as [Hlo Hhi].
    set (r := round (rate + x - Q2Qc (1 # 2))%Qc) in *.
    unfold Qcle, Qclt in *.
    unfold Qcminus, Qcplus, Qcopp, Q2Qc in *. cbn [this] in *.
    rewrite ?Qred_correct in *.
    change (this 0%Qc) with 0%Q in *. change (this 1%Qc) with 1%Q in *.
    assert (0 <= inject_Z r)%Q as Hr by lra.
    split; [unfold Qle in Hr; simpl in Hr; lia|].
    split; lra.
  - exists (if Qcltb rate x then 0 else 1). split; [done|].
    split; [by destruct (Qcltb rate x)|].
    split; [destruct (Qcltb rate x); auto|].
    split.
    + destruct (Qcltb rate x) eqn:E'.
      * split; [|done]. intros _. by apply Qcltb_lt.
      * split; [done|]. intros Hlt. apply Qcltb_lt in Hlt. congruence.
    + intros Hneg. destruct (Qcltb rate x) eqn:E'; [done|].
      exfalso. assert (rate < x)%Qc as Hlt.
      { eapply Qclt_le_trans; [exact Hneg | exact Hx0]. }
      apply Qcltb_lt in Hlt. congruence.
Qed.

End RepsFacts.

(** ** What synthesis does to the bitmaps of a user *)

Section AvailabilityFacts.

Context {G NP : Type} `{!PyRandom G} `{!NumPy NP}.

Abbreviation World := (@World G NP).
Abbreviation M := (@M G NP).

(** A bitmap that keeps its length and only loses free bits. *)
Definition shrinks (before after : list bool) : Prop :=
  length after = length before ∧ never_freed before after.

Lemma shrinks_refl (l : list bool) : shrinks l l.
Proof. split; [done | by intros n]. Qed.

Lemma shrinks_trans (l1 l2 l3 : list bool) :
  shrinks l1 l2 → shrinks l2 l3 → shrinks l1 l3.
Proof.
  intros [L1 N1] [L2 N2]. split; [congruence|].
  intros n Hn. by apply N2, N1.
Qed.

Lemma shrinks_slice_fill (l : list bool) start stop :
  shrinks l (slice_fill l start stop false).
Proof.
  split; [apply length_slice_fill|]. intros n. apply slice_fill_false_mono.
Qed.

Lemma extends_shrinks fr fr' :
  extends fr fr' → shrinks (time_of_run fr) (time_of_run fr').
Proof. intros (Hlen & Hnf & _). by split. Qed.

Lemma user_place fuel a horizon d day_filter duration schedule user_earliest
    user_latest fr :
  result (λ r, shrinks (user_available fr) (user_available r.2))
         (place fuel a horizon d day_filter duration schedule user_earliest
                user_latest fr : M (Step * Frame)).
Proof.
  unfold place.
  apply result_bind; intros _. apply result_bind; intros _.
  apply result_bind; intros av. apply result_bind; intros _. cbv zeta.
  assert (∀ today : list bool,
            shrinks (user_available fr)
              (user_available
                 (if 0 <? Tools.count today true
                  then mkFrame (activity_power fr) (scheduling_failures fr + 1)
                               (scheduling_success fr) (time_of_run fr)
                               (user_available fr) (committed fr)
                  else fr))) as Hbreak.
  { intros today. destruct (0 <? _); apply shrinks_refl. }
  destruct (Tools.get_earliest av) as [e|];
    [destruct (Tools.get_latest av) as [l|]|].
  - destruct (l + 1 - duration <? e).
    + apply result_bind; intros today. apply result_ret. apply Hbreak.
    + apply result_bind; intros s. destruct (s =? -1).
      * apply result_ret. apply shrinks_refl.
      * apply result_bind; intros _. apply result_bind; intros power.
        apply result_ret. simpl.
        destruct user_earliest as [ue|]; [|apply shrinks_refl].
        destruct (0 <? user_latest);
          [apply shrinks_slice_fill | apply shrinks_refl].
  - apply result_bind; intros today. apply result_ret. apply Hbreak.
  - apply result_bind; intros today. apply result_ret. apply Hbreak.
Qed.

Lemma user_attempt fuel a horizon d vary reps day_filter fr :
  result (λ r, shrinks (user_available fr) (user_available r.2))
         (attempt fuel a horizon d vary reps day_filter fr : M (Step * Frame)).
Proof.
  unfold attempt. apply result_bind; intros r. cbv zeta.
  destruct (r.1.1.2).
  - apply user_place.
  - apply result_bind; intros _. apply result_ret. apply shrinks_refl.
Qed.

Lemma user_rep_loop n fuel a horizon d vary reps day_filter scheduled fr :
  result (λ r, shrinks (user_available fr) (user_available r.1))
         (rep_loop n fuel a horizon d vary reps day_filter scheduled fr
          : M (Frame * Z)).
Proof.
  revert scheduled fr.
  induction n as [|n IH]; intros scheduled fr; simpl.
  - apply result_ret. apply shrinks_refl.
  - eapply result_bind_with; [apply user_attempt|].
    intros [st fr1] Hk. simpl in *. destruct st.
    + intros w r w' Hr. eapply shrinks_trans; [done|]. by eapply IH.
    + by apply result_ret.
Qed.

Lemma user_day_body fuel a num_days rate vary d fr :
  result (λ fr', shrinks (user_available fr) (user_available fr'))
         (day_body fuel a num_days rate vary d fr : M Frame).
Proof.
  unfold day_body. cbv zeta. apply result_bind; intros reps.
  apply result_bind; intros df.
  eapply result_bind_with; [apply user_rep_loop|].
  intros [fr1 sch] Hk. by apply result_ret.
Qed.

Lemma user_day_loop fuel a num_days rate vary ds fr :
  result (λ fr', shrinks (user_available fr) (user_available fr'))
         (day_loop fuel a num_days rate vary ds fr : M Frame).
Proof.
  revert fr. induction ds as [|d ds IH]; intros fr; simpl.
  - apply result_ret. apply shrinks_refl.
  - eapply result_bind_with; [apply user_day_body|].
    intros fr1 Hk w r w' Hr. cbv beta in Hk.
    eapply shrinks_trans; [exact Hk|]. by eapply IH.
Qed.

Lemma user_synthesize_frame fuel a num_days rate tor ua start_day vary :
  result (λ fr, shrinks ua (user_available fr))
         (ActivityModel_synthesize_frame fuel a num_days rate tor ua start_day
                                         vary : M Frame).
Proof.
  unfold ActivityModel_synthesize_frame.
  apply result_bind; intros power. cbv zeta.
  destruct (negb _).
  - apply result_bind; intros _. apply result_ret. apply shrinks_refl.
  - apply result_bind; intros ps. apply result_bind; intros _.
    eapply result_bind_with; [apply user_day_loop|].
    intros fr Hk. apply result_bind; intros _. by apply result_ret.
Qed.

Lemma bitmaps_ActivityModel_synthesize fuel a num_days rate tor ua start_day
    vary :
  result (λ r, shrinks tor r.1.2 ∧ shrinks ua r.2)
         (ActivityModel_synthesize fuel a num_days rate tor ua start_day vary
          : M (list Qc * list bool * list bool)).
Proof.
  intros w r w' Hr. unfold ActivityModel_synthesize in Hr.
  apply bind_Ok in Hr as (fr & w1 & Hfr & Hr).
  pose proof (user_synthesize_frame _ _ _ _ _ _ _ _ _ _ _ Hfr) as Hua.
  pose proof (result_synthesize_frame _ _ _ _ _ _ _ _ _ _ _ Hfr)
    as [power Hext].
  apply extends_shrinks in Hext. destruct fr. inversion Hr; subst. done.
Qed.

(** How a user object evolves: everything but the bitmaps stays, the
    availability only loses free seconds, and so does the bitmap of
    possible runtimes of every activity. *)
Definition user_evolves (u u' : UserModel) : Prop :=
  name u' = name u ∧ days u' = days u ∧ activities u' = activities u ∧
  runs_per_day u' = runs_per_day u ∧
  shrinks (availability u) (availability u') ∧
  ∀ nm tor, possible_runtimes u !! nm = Some tor →
            ∃ tor', possible_runtimes u' !! nm = Some tor' ∧ shrinks tor tor'.

Lemma user_evolves_refl u : user_evolves u u.
Proof.
  repeat split; try done.
  - by intros n.
  - intros nm tor Htor. exists tor. split; [done | apply shrinks_refl].
Qed.

Lemma user_evolves_trans u1 u2 u3 :
  user_evolves u1 u2 → user_evolves u2 u3 → user_evolves u1 u3.
Proof.
  intros (A1 & A2 & A3 & A4 & A5 & A6) (B1 & B2 & B3 & B4 & B5 & B6).
  split; [congruence|]. split; [congruence|]. split; [congruence|].
  split; [congruence|]. split; [by eapply shrinks_trans|].
  intros nm tor Htor. destruct (A6 nm tor Htor) as (tor2 & H2 & S2).
  destruct (B6 nm tor2 H2) as (tor3 & H3 & S3).
  exists tor3. split; [done | by eapply shrinks_trans].
Qed.

Lemma synthesize_activities_evolves fuel start_day vary acts :
  ∀ u (w w' : World) u',
    synthesize_activities fuel u start_day vary acts w = Ok (u', w') →
    user_evolves u u'.
Proof.
  induction acts as [|[nm acti] acts IH]; intros u w w' u'; simpl.
  - intros [= <- _]. apply user_evolves_refl.
  - intros Hr. apply bind_Ok in Hr as (r & w1 & Hsyn & Hr).
    destruct (runs_per_day u !! nm) as [rate|] eqn:Hrate; [|done].
    destruct (possible_runtimes u !! nm) as [runtimes|] eqn:Hrt; [|done].
    apply bitmaps_ActivityModel_synthesize in Hsyn as [Htor Hua].
    cbv zeta in Hr.
    apply bind_Ok in Hr as ([] & w2 & _ & Hr).
    apply bind_Ok in Hr as ([] & w3 & _ & Hr).
    apply IH in Hr. eapply user_evolves_trans; [|exact Hr].
    repeat split; try done; try apply Hua.
    intros nm' tor Htor'. simpl. destruct (decide (nm' = nm)) as [->|Hne].
    + rewrite lookup_insert_eq. exists r.1.2. split; [done|]. congruence.
    + rewrite lookup_insert_ne by done. exists tor.
      split; [done | apply shrinks_refl].
Qed.

(** X18.  Whenever [ActivityModel.synthesize] returns, the two bitmaps it
    mutates (the activity's possible runtimes and the user's
    availability) have kept their length and no second that was busy
    before is free after; and whenever [UserModel.synthesize] returns,
    the user has the same name, days, activities and rates as before, and
    the availability and the possible runtimes of every activity have
    kept their length and only lost free seconds. *)
Theorem synthesis_only_consumes_free_time :
  (∀ fuel a num_days rate tor ua start_day vary (w w' : World) power tor' ua',
     ActivityModel_synthesize fuel a num_days rate tor ua start_day vary w
     = Ok ((power, tor', ua'), w') →
     length tor' = length tor ∧ never_freed tor tor' ∧
     length ua' = length ua ∧ never_freed ua ua') ∧
  (∀ fuel u start_day vary (w w' : World) u',
     UserModel_synthesize fuel u start_day vary w = Ok (u', w') →
     name u' = name u ∧ days u' = days u ∧ activities u' = activities u ∧
     runs_per_day u' = runs_per_day u ∧
     length (availability u') = length (availability u) ∧
     never_freed (availability u) (availability u') ∧
     ∀ nm tor, possible_runtimes u !! nm = Some tor →
               ∃ tor', possible_runtimes u' !! nm = Some tor' ∧
                       length tor' = length tor ∧ never_freed tor tor').
Proof.
  split.
  - intros fuel a num_days rate tor ua start_day vary w w' power tor' ua' Hr.
    apply bitmaps_ActivityModel_synthesize in Hr as [[L1 N1] [L2 N2]].
    done.
  - intros fuel u start_day vary w w' u' Hr.
    unfold UserModel_synthesize in Hr.
    apply bind_Ok in Hr as (z & w1 & _ & Hr).
    apply bind_Ok in Hr as ([] & w2 & _ & Hr).
    apply bind_Ok in Hr as (keyed & w3 & _ & Hr).
    apply synthesize_activities_evolves in Hr
      as (A1 & A2 & A3 & A4 & [A5 A5'] & A6).
    do 6 (split; [done|]).
    intros nm tor Htor. destruct (A6 nm tor Htor) as (tor' & H' & [L N]).
    by exists tor'.
Qed.

End AvailabilityFacts.

(** ** The appliance objects that [main] creates *)

Section InitFacts.

Context {G NP : Type} `{!PyRandom G} `{!NumPy NP}.

Abbreviation World := (@World G NP).

(** An appliance as its constructor leaves it: never busy, no power
    drawn, and the program of one definition file of its folder
    loaded. *)
Definition fresh_appliance (days : Z) (key : string) (folder : list ModelFile)
    (app : ApplianceModel) : Prop :=
  appliance_type app = key ∧ model_folder app = folder ∧
  busy app = replicate (Z.to_nat (days * Tools.secs_per_day)) false ∧
  total_power app = replicate (Z.to_nat (days * Tools.secs_per_day)) 0%Qc ∧
  ∃ model_file, model_file ∈ folder ∧
                usual_duration app = mf_duration model_file ∧
                comps app = mf_comps model_file.

Lemma ApplianceModel_init_Ok key folder days (w w' : World) :
  ApplianceModel_init key folder days w = Ok (tt, w') →
  0 ≤ days ∧
  ∃ app, fresh_appliance days key folder app ∧
         w_appliances w' = <[key := app]> (w_appliances w) ∧
         w_powers w' = w_powers w ∧ w_events w' = w_events w ∧
         w_numpy w' = w_numpy w.
Proof.
  unfold ApplianceModel_init. intros Hr.
  apply bind_Ok in Hr as (bits & w1 & Hbits & Hr).
  apply lift_Ok in Hbits as (? & Hbits & [= <- <-]).
  unfold bitarray in Hbits.
  destruct (days * Tools.secs_per_day <? 0) eqn:E; [done|].
  apply Z.ltb_ge in E. inversion Hbits; subst bits. clear Hbits.
  apply bind_Ok in Hr as (zs & w2 & Hzs & Hr).
  apply lift_Ok in Hzs as (? & Hzs & [= <- <-]).
  unfold np_zeros in Hzs.
  replace (days * Tools.secs_per_day <? 0) with false in Hzs
    by (symmetry; apply Z.ltb_ge; lia).
  inversion Hzs; subst zs. clear Hzs.
  apply bind_Ok in Hr as ([] & w3 & [= <-] & Hr).
  unfold ApplianceModel_pick_another_model in Hr.
  apply bind_Ok in Hr as (app & w4 & Hd & Hr).
  unfold deref in Hd. simpl in Hd. rewrite lookup_insert_eq in Hd.
  inversion Hd; subst app w4. clear Hd. simpl in Hr.
  apply bind_Ok in Hr as (model_file & w5 & Hc & Hr).
  unfold random_choice in Hc. simpl in Hc.
  destruct folder as [|mf l] eqn:Hfolder; [done|].
  destruct (rnd_randbelow _ _) as [k g].
  destruct ((mf :: l) !! Z.to_nat k) eqn:Hk; [|done].
  inversion Hc; subst. inversion Hr; subst w'. simpl.
  split; [unfold Tools.secs_per_day in E; lia|].
  eexists. split; [|by rewrite insert_insert_eq].
  repeat split; simpl. exists model_file. split; [|done].
  apply list_elem_of_lookup. by eexists.
Qed.

(** X19.  The appliance objects of [main].  Whenever the loop over the
    mapping returns, every key of the mapping names an appliance object
    of that type, built on the folder of one of the key's entries, with a
    busy bitmap of [days] all-free days, a cumulative power of as many
    zeros, and the usual duration and components of one definition file
    of that folder; appliances under other keys, the powers and the
    events are untouched, and [numpy.random] is not drawn from. *)
Theorem init_appliances_creates mapping days (w w' : World) :
  init_appliances mapping days w = Ok (tt, w') →
  (mapping ≠ [] → 0 ≤ days) ∧
  (∀ key, key ∈ mapping.*1 →
          ∃ folder app, (key, folder) ∈ mapping ∧
                        w_appliances w' !! key = Some app ∧
                        fresh_appliance days key folder app) ∧
  (∀ key, key ∉ mapping.*1 →
          w_appliances w' !! key = w_appliances w !! key) ∧
  w_powers w' = w_powers w ∧ w_events w' = w_events w ∧
  w_numpy w' = w_numpy w.
Proof.
  revert w. induction mapping as [|[k folder] rest IH]; intros w; simpl.
  - intros [= <-]. split; [done|]. split; [|done].
    intros key Hkey. by apply elem_of_nil in Hkey.
  - intros Hr. apply bind_Ok in Hr as ([] & w1 & Hinit & Hr).
    apply ApplianceModel_init_Ok in Hinit
      as (Hdays & app & Hfresh & Hheap & Hp & He & Hn).
    apply IH in Hr as (_ & Hin & Hout & Hp' & He' & Hn').
    split; [done|]. split; [|split].
    + intros key Hkey.
      destruct (decide (key ∈ rest.*1)) as [Hrest|Hrest].
      * destruct (Hin key Hrest) as (f & a & Hf & Ha & Hfr).
        exists f, a. split; [by apply list_elem_of_further | done].
      * apply elem_of_cons in Hkey as [->|Hkey]; [|done].
        exists folder, app. split; [apply list_elem_of_here|].
        split; [|done]. rewrite (Hout k Hrest), Hheap.
        apply lookup_insert_eq.
    + intros key Hkey. apply not_elem_of_cons in Hkey as [Hne Hrest].
      rewrite (Hout key Hrest), Hheap. by rewrite lookup_insert_ne.
    + repeat split; congruence.
Qed.

End InitFacts.

(** ** The column of an activity in the powers map *)

Section ColumnFacts.

Context {G NP : Type} `{!PyRandom G} `{!NumPy NP}.

Abbreviation World := (@World G NP).
Abbreviation M := (@M G NP).

#[local] Existing Instance quiet_preorder.

(** [hoare P m Q]: from a world satisfying [P], whenever [m] returns, its
    value and the world it leaves satisfy [Q]. *)
Definition hoare {A} (P : World → Prop) (m : M A) (Q : A → World → Prop)
  : Prop :=
  ∀ w r w', P w → m w = Ok (r, w') → Q r w'.

Lemma hoare_ret {A} (P : World → Prop) (Q : A → World → Prop) (a : A) :
  (∀ w, P w → Q a w) → hoare P (ret a) Q.
Proof. intros HPQ w r w' HP [= <- <-]. by apply HPQ. Qed.

Lemma hoare_bind {A B} (P : World → Prop) (R : A → World → Prop)
    (Q : B → World → Prop) (m : M A) (f : A → M B) :
  hoare P m R → (∀ a, hoare (R a) (f a) Q) → hoare P (bind m f) Q.
Proof.
  intros Hm Hf w r w' HP Hb. apply bind_Ok in Hb as (a & w1 & H1 & H2).
  eapply Hf; [|exact H2]. by eapply Hm.
Qed.

(** A property of the world that only reads the powers map. *)
Definition powers_only (P : World → Prop) : Prop :=
  ∀ w w', w_powers w' = w_powers w → P w → P w'.

Lemma hoare_quiet {A} (P : World → Prop) (m : M A) :
  powers_only P → effect quiet m → hoare P m (λ _, P).
Proof.
  intros HP Hm w r w' Hw Hr. destruct (Hm w r w' Hr) as [Hp _].
  by apply (HP w w').
Qed.

Lemma hoare_events_append (P : World → Prop) e :
  powers_only P → hoare P (events_append e : M unit) (λ _, P).
Proof. intros HP w r w' Hw [= _ <-]. by apply (HP w). Qed.

Lemma hoare_lift {A} (P : World → Prop) (x : res A) :
  hoare P (lift x : M A) (λ _, P).
Proof. intros w r w' Hw Hl. apply lift_Ok in Hl as (a & _ & [= _ <-]). done. Qed.

Section Column.

Variables (n : nat) (ty : string).

(** The invariant: the activity's own array has length [n], and the
    column [ty] of the powers map holds the same samples.  Both start as
    zeros and receive the same additions in the same order. *)
Definition col_inv (power : list Qc) (w : World) : Prop :=
  length power = n ∧ w_powers w !! ty = Some power.

Lemma col_inv_powers_only power : powers_only (col_inv power).
Proof. intros w w' Hp (H1 & H2). unfold col_inv. by rewrite Hp. Qed.

Ltac quiet_then :=
  eapply hoare_bind;
  [apply hoare_quiet; [apply col_inv_powers_only|] | intros ?; cbv beta].

Lemma col_run_schedule fuel a s items :
  activity_type a = ty →
  ∀ power final,
    hoare (col_inv power) (run_schedule fuel a s items power final)
          (λ r, col_inv r.1).
Proof.
  intros Hty. induction items as [|[app_start [app dur]] rest IH];
    intros power final; simpl.
  - apply hoare_ret. done.
  - quiet_then; [apply quiet_deref|].
    eapply hoare_bind;
      [apply hoare_events_append, col_inv_powers_only | intros ?; cbv beta].
    quiet_then; [apply quiet_ApplianceModel_synthesize|].
    intros w r w' (Hpow & Hcol) Hr.
    apply bind_Ok in Hr as (power' & w1 & Hadd & Hr).
    apply lift_Ok in Hadd as (? & Hadd & [= <- <-]).
    apply np_iadd_increment in Hadd as [-> Hinc].
    apply bind_Ok in Hr as ([] & w2 & Hiadd & Hr).
    apply bind_Ok in Hr as ([] & w3 & Hev & Hr).
    eapply IH; [|exact Hr].
    rewrite Hty in Hiadd.
    apply iadd_power_Ok in Hiadd as (col & Hcol' & _ & Hp2).
    inversion Hev; subst w3. unfold col_inv. simpl. rewrite Hp2.
    split; [rewrite length_zip_with; lia|].
    rewrite Hcol in Hcol'. inversion Hcol'; subst col. clear Hcol'.
    by rewrite lookup_insert_eq.
Qed.

Lemma col_emit_instance fuel a s schedule power :
  activity_type a = ty →
  hoare (col_inv power) (emit_instance fuel a s schedule power)
        (λ r, col_inv r).
Proof.
  intros Hty. unfold emit_instance.
  eapply hoare_bind;
    [apply hoare_events_append, col_inv_powers_only | intros ?; cbv beta].
  eapply hoare_bind; [by apply col_run_schedule | intros r; cbv beta].
  eapply hoare_bind;
    [apply hoare_events_append, col_inv_powers_only | intros ?; cbv beta].
  by apply hoare_ret.
Qed.

Lemma col_place fuel a horizon d day_filter duration schedule user_earliest
    user_latest fr :
  activity_type a = ty →
  hoare (col_inv (activity_power fr))
        (place fuel a horizon d day_filter duration schedule user_earliest
               user_latest fr)
        (λ r, col_inv (activity_power r.2)).
Proof.
  intros Hty. unfold place.
  quiet_then.
  { destruct (negb _); [apply quiet_visualize_map_row|].
    apply effect_ret; apply _. }
  quiet_then; [apply quiet_visualize_map_row|].
  eapply hoare_bind with (R := λ _, col_inv (activity_power fr)).
  { apply hoare_quiet; [apply col_inv_powers_only|].
    destruct user_earliest.
    - apply effect_bind; [apply _ | apply effect_lift; apply _|].
      intros b. apply effect_lift; apply _.
    - apply effect_lift; apply _. }
  intros av. cbv beta.
  quiet_then; [apply quiet_visualize_map_row|]. cbv zeta.
  assert (∀ (today : list bool) (w : World),
            col_inv (activity_power fr) w →
            col_inv (activity_power
                       (if 0 <? Tools.count today true
                        then mkFrame (activity_power fr)
                                     (scheduling_failures fr + 1)
                                     (scheduling_success fr) (time_of_run fr)
                                     (user_available fr) (committed fr)
                        else fr)) w) as Hbreak.
  { intros today w Hw. by destruct (0 <? _). }
  destruct (Tools.get_earliest av) as [e|];
    [destruct (Tools.get_latest av) as [l|]|].
  - destruct (l + 1 - duration <? e).
    + eapply hoare_bind; [apply hoare_lift | intros today; cbv beta].
      apply hoare_ret. apply Hbreak.
    + quiet_then; [apply quiet_find_slot|].
      destruct (_ =? -1); [by apply hoare_ret|].
      quiet_then; [apply quiet_visualize_map_row|].
      eapply hoare_bind; [by apply col_emit_instance | intros power; cbv beta].
      by apply hoare_ret.
  - eapply hoare_bind; [apply hoare_lift | intros today; cbv beta].
    apply hoare_ret. apply Hbreak.
  - eapply hoare_bind; [apply hoare_lift | intros today; cbv beta].
    apply hoare_ret. apply Hbreak.
Qed.

Lemma col_attempt fuel a horizon d vary reps day_filter fr :
  activity_type a = ty →
  hoare (col_inv (activity_power fr))
        (attempt fuel a horizon d vary reps day_filter fr)
        (λ r, col_inv (activity_power r.2)).
Proof.
  intros Hty. unfold attempt.
  eapply hoare_bind with (R := λ _, col_inv (activity_power fr)).
  { apply hoare_quiet; [apply col_inv_powers_only|].
    apply quiet_process_model. }
  intros r. cbv beta zeta. destruct (r.1.1.2).
  - by apply col_place.
  - quiet_then; [apply quiet_logger|]. by apply hoare_ret.
Qed.

Lemma col_rep_loop k fuel a horizon d vary reps day_filter :
  activity_type a = ty →
  ∀ scheduled fr,
    hoare (col_inv (activity_power fr))
          (rep_loop k fuel a horizon d vary reps day_filter scheduled fr)
          (λ r, col_inv (activity_power r.1)).
Proof.
  intros Hty. induction k as [|k IH]; intros scheduled fr; simpl.
  - by apply hoare_ret.
  - eapply hoare_bind; [by apply col_attempt | intros [st fr1]; cbv beta]. simpl.
    destruct st; [apply IH | by apply hoare_ret].
Qed.

Lemma col_day_body fuel a num_days rate vary d fr :
  activity_type a = ty →
  hoare (col_inv (activity_power fr))
        (day_body fuel a num_days rate vary d fr)
        (λ fr', col_inv (activity_power fr')).
Proof.
  intros Hty. unfold day_body. cbv zeta.
  quiet_then.
  { unfold draw_reps. apply effect_bind; [apply _ | apply quiet_random_random|].
    intros x. destruct (Qcleb _ _); apply effect_ret; apply _. }
  eapply hoare_bind; [apply hoare_lift | intros df; cbv beta].
  eapply hoare_bind; [by apply col_rep_loop | intros [fr1 sch]; cbv beta].
  by apply hoare_ret.
Qed.

Lemma col_day_loop fuel a num_days rate vary ds :
  activity_type a = ty →
  ∀ fr, hoare (col_inv (activity_power fr))
              (day_loop fuel a num_days rate vary ds fr)
              (λ fr', col_inv (activity_power fr')).
Proof.
  intros Hty. induction ds as [|d ds IH]; intros fr; simpl.
  - by apply hoare_ret.
  - eapply hoare_bind; [by apply col_day_body | intros fr1; cbv beta]. apply IH.
Qed.

End Column.

(** [ActivityModel.synthesize] for an activity that has no entry in the
    powers map yet: the entry it creates ends as the returned array. *)
Lemma synthesize_fresh_column fuel a num_days rate tor ua start_day vary
    (w w' : World) power tor' ua' :
  all_bindings_satisfied a = true →
  w_powers w !! activity_type a = None →
  ActivityModel_synthesize fuel a num_days rate tor ua start_day vary w
  = Ok ((power, tor', ua'), w') →
  0 ≤ num_days ∧
  length power = Z.to_nat (num_days * Tools.secs_per_day) ∧
  w_powers w' !! activity_type a = Some power ∧
  ∀ k, k ≠ activity_type a → w_powers w' !! k = w_powers w !! k.
Proof.
  intros Hsat Hnone Hr.
  pose proof (powers_frame_synthesize _ _ _ _ _ _ _ _ _ _ _ Hr) as Hframe.
  unfold ActivityModel_synthesize in Hr.
  apply bind_Ok in Hr as (fr & w1 & Hfr & Hr).
  assert (power = activity_power fr ∧ w' = w1) as [-> ->].
  { destruct fr. by inversion Hr. }
  clear Hr.
  unfold ActivityModel_synthesize_frame in Hfr.
  apply bind_Ok in Hfr as (zeros & w2 & Hz & Hfr).
  apply lift_Ok in Hz as (? & Hz & [= <- <-]).
  unfold np_zeros in Hz.
  destruct (num_days * Tools.secs_per_day <? 0) eqn:E; [done|].
  apply Z.ltb_ge in E. inversion Hz; subst zeros. clear Hz.
  set (n := Z.to_nat (num_days * Tools.secs_per_day)) in *.
  rewrite Hsat in Hfr. simpl in Hfr.
  apply bind_Ok in Hfr as (ps & w3 & [= <- <-] & Hfr).
  apply bind_Ok in Hfr as ([] & w4 & Hset & Hfr).
  apply bind_Ok in Hfr as (fr1 & w5 & Hloop & Hfr).
  apply bind_Ok in Hfr as ([] & w6 & Hlog & [= <- <-]).
  assert (w_powers w6 = w_powers w5) as Hp6.
  { destruct (_ =? 0); [by inversion Hlog|].
    destruct (0 <? _); by inversion Hlog. }
  split; [unfold Tools.secs_per_day in E; lia|].
  rewrite Hnone in Hset.
  apply bind_Ok in Hset as (z & w7 & Hz & [= <-]).
  apply lift_Ok in Hz as (? & Hz & [= <- <-]).
  unfold np_zeros in Hz.
  replace (num_days * Tools.secs_per_day <? 0) with false in Hz
    by (symmetry; apply Z.ltb_ge; lia).
  inversion Hz; subst z. fold n in Hloop.
  assert (col_inv n (activity_type a)
            (activity_power (mkFrame (replicate n 0%Qc) 0 0 tor ua []))
            (mkWorld (w_random w7) (w_numpy w7) (w_appliances w7)
                     (<[activity_type a := replicate n 0%Qc]> (w_powers w7))
                     (w_events w7) (w_log w7))) as Hinit.
  { split; [apply length_replicate|]. simpl. by rewrite lookup_insert_eq. }
  destruct (col_day_loop n (activity_type a) fuel a num_days rate vary
              (seqZ 0 num_days) eq_refl _ _ _ _ Hinit Hloop) as [Hlen Hcol].
  split; [done|]. split; [|done]. by rewrite Hp6.
Qed.

(** X20.  The column of an activity.  Whenever [ActivityModel.synthesize]
    returns for an activity whose bindings are satisfied and whose type
    has no entry in the powers map yet, the returned array has one sample
    per second of the horizon, and the entry that the call creates for
    the activity type holds exactly the samples of the returned array.
    No other entry of the powers map changes. *)
Theorem activity_column_is_returned_power fuel a num_days rate tor ua
    start_day vary (w w' : World) power tor' ua' :
  all_bindings_satisfied a = true →
  w_powers w !! activity_type a = None →
  ActivityModel_synthesize fuel a num_days rate tor ua start_day vary w
  = Ok ((power, tor', ua'), w') →
  0 ≤ num_days ∧
  length power = Z.to_nat (num_days * Tools.secs_per_day) ∧
  w_powers w' !! activity_type a = Some power ∧
  ∀ k, k ≠ activity_type a → w_powers w' !! k = w_powers w !! k.
Proof. apply synthesize_fresh_column. Qed.

End ColumnFacts.

(** ** LoadModelComponents.py: reading and writing the components

    A [<load>] element is taken parsed: its [type] attribute and its
    children in document order, each child being its tag with what
    [float] makes of its [value] attribute ([None] when that text is not a
    number).  As everywhere, a float is an exact rational, so that
    [float(str(x))] is [x]. *)

Module Xml.

Record Load := mkLoad {
  load_type : string;
  children : list (string * option Qc)
}.

(** [float(xml_component.find(tag).get('value'))]: [find] returns the
    first child with that tag, or [None], on which [get] raises
    [AttributeError]; [float] raises [ValueError] on other text. *)
Definition value_of (xml_component : Load) (tag : string) : res Qc :=
  match dict_get (children xml_component) tag with
  | None => Raise AttributeError
  | Some None => Raise ValueError
  | Some (Some x) => Ok x
  end.

Definition and_then {A B} (x : res A) (f : A → res B) : res B :=
  match x with
  | Ok a => f a
  | Raise e => Raise e
  | OutOfFuel => OutOfFuel
  end.

(** The five [init_from_xml], in the order in which each reads its
    attributes. *)
Definition OnOffModel_init_from_xml (c : Load) : res Component :=
  and_then (value_of c "onPower") (λ on,
  and_then (value_of c "duration") (λ dur,
  Ok (OnOffModel on dur))).

Definition LinearModel_init_from_xml (c : Load) : res Component :=
  and_then (value_of c "duration") (λ dur,
  and_then (value_of c "startPower") (λ sta,
  and_then (value_of c "endPower") (λ en,
  Ok (LinearModel dur sta en)))).

Definition OnOffDecayModel_init_from_xml (c : Load) : res Component :=
  and_then (value_of c "activePower") (λ on,
  and_then (value_of c "peakPower") (λ add,
  and_then (value_of c "decayRate") (λ dec,
  and_then (value_of c "duration") (λ dur,
  Ok (OnOffDecayModel on add dec dur))))).

(** The stretch factor is 1 when the element has no such child. *)
Definition OnOffGrowthModel_init_from_xml (c : Load) : res Component :=
  and_then (value_of c "basePower") (λ bas,
  and_then (value_of c "growthRate") (λ sca,
  and_then (match value_of c "stretchFactor" with
            | Raise AttributeError => Ok 1%Qc
            | r => r
            end) (λ stf,
  and_then (value_of c "duration") (λ dur,
  Ok (OnOffGrowthModel bas sca stf dur))))).

Definition NoiseModel_init_from_xml (c : Load) : res Component :=
  and_then (value_of c "duration") (λ dur,
  and_then (value_of c "lower") (λ low,
  and_then (value_of c "mean") (λ mean,
  and_then (value_of c "stdev") (λ stdev,
  and_then (value_of c "upper") (λ high,
  Ok (NoiseModel dur low mean stdev high)))))).

(** The loop of [pick_another_model] over the [<load>] elements: an
    element of an unsupported type is skipped (with a warning). *)
Fixpoint read_components (components : list Load) : res (list Component) :=
  match components with
  | [] => Ok []
  | c :: rest =>
      let model_type := load_type c in
      let model :=
        if String.eqb model_type "ON_OFF" then
          and_then (OnOffModel_init_from_xml c) (λ m, Ok (Some m))
        else if String.eqb model_type "LINEAR" then
          and_then (LinearModel_init_from_xml c) (λ m, Ok (Some m))
        else if String.eqb model_type "ON_OFF_DECAY" then
          and_then (OnOffDecayModel_init_from_xml c) (λ m, Ok (Some m))
        else if String.eqb model_type "ON_OFF_GROWTH" then
          and_then (OnOffGrowthModel_init_from_xml c) (λ m, Ok (Some m))
        else if String.eqb model_type "NOISE" then
          and_then (NoiseModel_init_from_xml c) (λ m, Ok (Some m))
        else Ok None in
      and_then model (λ m,
      and_then (read_components rest) (λ ms,
      Ok (match m with Some m => m :: ms | None => ms end)))
  end.

(** [append_as_xml_to(root, total_duration)]: the element appended to
    [root]; [None] stands for the [ZeroDivisionError] of a zero total
    duration. *)
Definition append_as_xml_to (c : Component) (total_duration : Qc)
  : option Load :=
  if decide (total_duration = 0%Qc) then None
  else
    let fraction (dur : Qc) := Some (1 * dur / total_duration)%Qc in
    Some
      match c with
      | OnOffModel on dur =>
          mkLoad "ON_OFF" [("onPower", Some on); ("duration", fraction dur)]
      | LinearModel dur sta en =>
          mkLoad "LINEAR" [("startPower", Some sta); ("endPower", Some en);
                           ("duration", fraction dur)]
      | OnOffDecayModel on add dec dur =>
          mkLoad "ON_OFF_DECAY"
                 [("activePower", Some on); ("peakPower", Some (on + add)%Qc);
                  ("decayRate", Some dec); ("duration", fraction dur)]
      | OnOffGrowthModel bas sca stf dur =>
          mkLoad "ON_OFF_GROWTH"
                 [("basePower", Some bas); ("growthRate", Some sca);
                  ("stretchFactor", Some stf); ("duration", fraction dur)]
      | NoiseModel dur low mean stdev high =>
          mkLoad "NOISE" [("lower", Some low); ("mean", Some mean);
                          ("stdev", Some stdev); ("upper", Some high);
                          ("duration", fraction dur)]
      end.

(** What reading back a written component gives: the duration as a
    fraction of the total, and, for the decay model, the peak power
    [on + add] in the place of [add]. *)
Definition read_back (total_duration : Qc) (c : Component) : Component :=
  match c with
  | OnOffModel on dur => OnOffModel on (dur / total_duration)
  | LinearModel dur sta en => LinearModel (dur / total_duration) sta en
  | OnOffDecayModel on add dec dur =>
      OnOffDecayModel on (on + add) dec (dur / total_duration)
  | OnOffGrowthModel bas sca stf dur =>
      OnOffGrowthModel bas sca stf (dur / total_duration)
  | NoiseModel dur low mean stdev high =>
      NoiseModel (dur / total_duration) low mean stdev high
  end.

End Xml.

Section XmlFacts.

Lemma one_times_over (dur total_duration : Qc) :
  (1 * dur / total_duration = dur / total_duration)%Qc.
Proof. by rewrite Qcmult_1_l. Qed.

Lemma read_one_written (c : Component) (total_duration : Qc) load rest :
  Xml.append_as_xml_to c total_duration = Some load →
  Xml.read_components (load :: rest)
  = Xml.and_then (Xml.read_components rest)
                 (λ ms, Ok (Xml.read_back total_duration c :: ms)).
Proof.
  unfold Xml.append_as_xml_to. case_decide; [done|]. intros [= <-].
  destruct c; cbn; rewrite one_times_over; reflexivity.
Qed.

(** X21.  Writing the components of a model with [append_as_xml_to] for
    a total duration other than zero and reading the elements back with the
    loop of [pick_another_model] raises nothing, skips nothing and keeps
    the order.  Every component comes back with its parameters and its
    duration divided by the total, except that a decay component comes
    back with [on + add] as its [add]: the peak power is written as the
    sum and read as the offset.  So the round trip is the identity on
    the parameters of a component exactly when that is not a decay
    component with a non-zero [on]. *)
Theorem written_components_read_back (comps : list Component)
    (total_duration : Qc) :
  total_duration ≠ 0%Qc →
  ∃ loads,
    Forall2 (λ c load, Xml.append_as_xml_to c total_duration = Some load)
            comps loads ∧
    Xml.read_components loads = Ok (Xml.read_back total_duration <$> comps) ∧
    ∀ c, c ∈ comps →
         (Xml.read_back 1 c = c ↔
          match c with
          | OnOffDecayModel on _ _ _ => on = 0%Qc
          | _ => True
          end).
Proof.
  intros Hne. induction comps as [|c comps IH].
  - exists []. split; [constructor|]. split; [done|].
    intros c Hc. by apply elem_of_nil in Hc.
  - destruct IH as (loads & Hall & Hread & Hid).
    destruct (Xml.append_as_xml_to c total_duration) as [load|] eqn:Hload.
    2:{ unfold Xml.append_as_xml_to in Hload. by rewrite decide_False in Hload. }
    exists (load :: loads). split; [by constructor|]. split.
    + rewrite (read_one_written c total_duration load loads Hload), Hread.
      done.
    + intros c' Hc'. apply elem_of_cons in Hc' as [->|Hc']; [|by apply Hid].
      assert (∀ x : Qc, (x / 1 = x)%Qc) as Hdiv.
      { intros x. unfold Qcdiv. change (/ 1)%Qc with 1%Qc.
        apply Qcmult_1_r. }
      destruct c; simpl; rewrite ?Hdiv; try done.
      split.
      * intros [= Hadd].
        assert (on + add - add = add - add)%Qc as H0 by (by rewrite Hadd).
        ring_simplify in H0. done.
      * intros ->. f_equal. ring.
Qed.

End XmlFacts.

(** ** When a walk of the state machine returns *)

Section TerminationFacts.

Context {G NP : Type} `{!PyRandom G} `{!NumPy NP}.

Abbreviation World := (@World G NP).
Abbreviation M := (@M G NP).

(** Every binding of the activity is an appliance object that exists. *)
Definition bound_ok (a : ActivityModel) (heap : gmap string ApplianceModel)
  : Prop :=
  ∀ ty b, (ty, b) ∈ appliance_binding a →
          ∃ addr app, b = Some addr ∧ heap !! addr = Some app.

(** A state machine without gaps whose rows all decode, refer to known
    devices, and only move forward. *)
Definition forward (a : ActivityModel) : Prop :=
  ∀ k : Z, 0 ≤ k < Z.of_nat (size (state_machine a)) →
    ∃ st, state_machine a !! k = Some (Decoded st) ∧
          k < sa st ∧ k < sb st ∧
          ∃ ty, appliance_lookup a !! devID st = Some ty ∧
                (devID st ≠ 0 → ty ∈ map fst (appliance_binding a)).

Lemma dict_get_Some_elem {V} (d : list (string * V)) k v :
  dict_get d k = Some v → (k, v) ∈ d.
Proof.
  induction d as [|[k0 v0] d IH]; simpl; [done|].
  destruct (decide (k0 = k)) as [->|Hne].
  - intros [= ->]. apply list_elem_of_here.
  - intros Hd. apply list_elem_of_further. by apply IH.
Qed.

Lemma lookup_binding_total a dev ty (w : World) :
  appliance_lookup a !! dev = Some ty →
  ty ∈ map fst (appliance_binding a) →
  bound_ok a (w_appliances w) →
  ∃ addr app, lookup_binding a dev w = Ok (Some addr, w) ∧
              w_appliances w !! addr = Some app.
Proof.
  intros Hty Hin Hbound. unfold lookup_binding. rewrite Hty.
  destruct (dict_get_key_Some _ _ Hin) as [b Hb]. rewrite Hb.
  apply dict_get_Some_elem in Hb.
  destruct (Hbound ty b Hb) as (addr & app & -> & Happ).
  by exists addr, app.
Qed.

Lemma state_duration_total a st ty (w : World) :
  appliance_lookup a !! devID st = Some ty →
  (devID st ≠ 0 → ty ∈ map fst (appliance_binding a)) →
  bound_ok a (w_appliances w) →
  ∃ r w1, state_duration a st w = Ok (r, w1).
Proof.
  intros Hty Hin Hbound. unfold state_duration.
  destruct ((mn st =? mx st) && (mx st =? 0) && (devID st =? 0)) eqn:E1.
  - unfold bind at 1. unfold bind at 1. unfold logger at 1. cbv beta iota.
    unfold ret at 1. cbv beta iota. simpl.
    destruct (random_randint_range 5 10
                (with_log (mkLog WARNING
                   "Invalid duration of state '{}'! Will assume 5-10 seconds..."
                   []) w) ltac:(lia)) as (k & g & Hk & _).
    eexists _, _. exact Hk.
  - unfold bind at 1. unfold ret at 1. cbv beta iota. simpl.
    destruct ((mn st =? mx st) && (mx st =? 0) && negb (devID st =? 0)) eqn:E2.
    + assert (devID st ≠ 0) as Hdev.
      { intros H0. rewrite H0 in E2. simpl in E2.
        by rewrite andb_false_r in E2. }
      destruct (lookup_binding_total a (devID st) ty w Hty (Hin Hdev) Hbound)
        as (addr & app & Hlk & Happ).
      rewrite (bind_step _ _ _ _ _ Hlk).
      unfold bind, deref. rewrite Happ. by eexists _, _.
    + destruct (random_randint_range (Z.min (mn st) (mx st))
                  (Z.max (mn st) (mx st)) w ltac:(lia)) as (k & g & Hk & _).
      eexists _, _. exact Hk.
Qed.

Lemma next_state_total st (w : World) :
  ∃ nxt w1, next_state st w = Ok (nxt, w1) ∧ (nxt = sa st ∨ nxt = sb st).
Proof.
  unfold next_state, bind, random_random.
  destruct (rnd_random (w_random w)) as [x g]. unfold ret.
  eexists _, _. split; [reflexivity|]. destruct (Qcltb x (pa st)); auto.
Qed.

Lemma walk_total a :
  forward a →
  ∀ fuel cur schedule total umin umax (w : World),
    bound_ok a (w_appliances w) →
    0 ≤ cur →
    Z.of_nat (size (state_machine a)) - cur ≤ Z.of_nat fuel →
    ∃ duration schedule' umin' umax' w',
      walk fuel a cur schedule total umin umax w
      = Ok ((duration, Some schedule', umin', umax'), w').
Proof.
  intros Hfwd fuel.
  induction fuel as [|fuel IH];
    intros cur schedule total umin umax w Hbound Hcur Hfuel.
  - simpl. destruct (cur <? _) eqn:E; [apply Z.ltb_lt in E; lia|].
    by eexists _, _, _, _, _.
  - simpl. destruct (cur <? _) eqn:E; [|by eexists _, _, _, _, _].
    apply Z.ltb_lt in E.
    destruct (Hfwd cur ltac:(lia)) as (st & Hrow & Hsa & Hsb & ty & Hty & Hin).
    rewrite Hrow.
    destruct (state_duration_total a st ty w Hty Hin Hbound)
      as (runtime & w1 & Hdur).
    pose proof (same_heap_state_duration _ _ _ _ _ Hdur) as Hh1.
    rewrite (bind_step _ _ _ _ _ Hdur). rewrite Hty.
    unfold bind at 1. unfold ret at 1. cbv beta iota.
    assert (bound_ok a (w_appliances w1)) as Hbound1 by (by rewrite Hh1).
    assert (∃ r w2,
              (if negb (devID st =? 0)
               then
                 b <- lookup_binding a (devID st);;
                 (let schedule0 := dict_set schedule total (b, runtime) in
                  if fin st
                  then ret (schedule0, total + runtime)
                  else jitter <- random_randint 5 10;;
                       ret (schedule0, total + jitter))
               else ret (schedule, total + runtime)) w1 = Ok (r, w2) ∧
              w_appliances w2 = w_appliances w1) as (r & w2 & Hstep & Hh2).
    { destruct (negb (devID st =? 0)) eqn:Edev; [|by eexists _, _].
      assert (devID st ≠ 0) as Hdev.
      { intros H0. rewrite H0 in Edev. done. }
      destruct (lookup_binding_total a (devID st) ty w1 Hty (Hin Hdev) Hbound1)
        as (addr & app & Hlk & _).
      rewrite (bind_step _ _ _ _ _ Hlk). cbv zeta.
      destruct (fin st); [by eexists _, _|].
      destruct (random_randint_range 5 10 w1 ltac:(lia))
        as (jitter & g & Hj & _).
      rewrite (bind_step _ _ _ _ _ Hj). by eexists _, _. }
    rewrite (bind_step _ _ _ _ _ Hstep).
    destruct (next_state_total st w2) as (nxt & w3 & Hnext & Hnxt).
    pose proof (same_heap_next_state _ _ _ _ Hnext) as Hh3.
    rewrite (bind_step _ _ _ _ _ Hnext).
    apply IH.
    + unfold same_heap in *. by rewrite Hh3, Hh2.
    + destruct Hnxt as [-> | ->]; lia.
    + destruct Hnxt as [-> | ->]; lia.
Qed.

(** X22.  [process_model] returns.  Let the state machine have no gaps,
    rows that all decode and refer to known devices, and transitions that
    only lead to states with a larger id; let every binding of the
    activity be an appliance that exists.  Then [process_model], called
    without a new pick of the appliance definitions, raises nothing and
    needs no more loop iterations than the machine has states: it returns
    a total duration and a schedule. *)
Theorem process_model_returns fuel a (w : World) :
  forward a →
  bound_ok a (w_appliances w) →
  (size (state_machine a) ≤ fuel)%nat →
  ∃ duration schedule umin umax w',
    process_model fuel a false w
    = Ok ((duration, Some schedule, umin, umax), w').
Proof.
  intros Hfwd Hbound Hfuel. unfold process_model.
  unfold bind at 1. unfold ret at 1. cbv beta iota.
  apply (walk_total a Hfwd); [done | lia | lia].
Qed.

End TerminationFacts.

(** ** One operation of an on/off appliance, from the appliance to the
    totals *)

Section OnOffFacts.

Context {G NP : Type} `{!PyRandom G} `{!NumPy NP}.

Abbreviation World := (@World G NP).
Abbreviation M := (@M G NP).

(** The per-cycle array of the lamp: 60 on the ten seconds from [t], 0
    elsewhere. *)
Definition is_block (t : Z) (len : nat) (cycle : list Qc) : Prop :=
  length cycle = len ∧
  ∀ n : nat, (n < len)%nat →
             cycle !! n = Some (if in_window t 10 n then qc 60 else 0%Qc).

Lemma run_one_onoff fuel a s power final (w : World) addr app col :
  w_appliances w !! addr = Some app →
  comps app = [OnOffModel (qc 60) (qc 1)] →
  length power = length (total_power app) →
  w_powers w !! activity_type a = Some col →
  length col = length (total_power app) →
  0 ≤ s →
  s + 10 ≤ Z.of_nat (length (total_power app)) →
  ∃ cycle,
    run_schedule fuel a s [(0, (Some addr, 10))] power final w
    = Ok ((zip_with Qcplus power cycle,
           if final <? s + 9 then s + 9 else final),
          mkWorld (w_random w) (w_numpy w)
                  (<[addr := mkAppliance (appliance_type app)
                               (model_folder app) (usual_duration app)
                               (comps app)
                               (slice_fill (busy app) s (s + 10) true)
                               (zip_with Qcplus (total_power app) cycle)]>
                     (w_appliances w))
                  (<[activity_type a := zip_with Qcplus col cycle]>
                     (w_powers w))
                  (w_events w
                   ++ [mkEvent s DEV (appliance_type app) ON;
                       mkEvent (s + 9) DEV (appliance_type app) OFF])
                  (w_log w)) ∧
    is_block s (length (total_power app)) cycle.
Proof.
  intros Happ Hcomps Hpower Hcol Hcollen Hs Hend.
  set (w1 := mkWorld (w_random w) (w_numpy w) (w_appliances w) (w_powers w)
                     (w_events w ++ [mkEvent s DEV (appliance_type app) ON])
                     (w_log w)).
  destruct (onoff_cycle_in_window fuel w1 addr app s Happ Hcomps Hs Hend)
    as (cycle & total' & Hsyn & Hlen & Hcycle & -> & _).
  exists cycle. split; [|split; [done|]; intros n Hn; apply Hcycle; lia].
  cbn [run_schedule].
  replace (s + 0 + 10 - 1) with (s + 9) by lia.
  replace (s + 0) with s by lia.
  unfold bind at 1. unfold deref. rewrite Happ.
  unfold bind at 1. unfold events_append at 1. fold w1.
  unfold bind at 1. rewrite Hsyn.
  unfold bind at 1. unfold lift at 1, np_iadd at 1.
  rewrite decide_True by congruence.
  unfold bind at 1. unfold iadd_power, get_powers, bind at 1. cbn.
  rewrite Hcol. unfold bind, lift, np_iadd.
  rewrite decide_True by congruence. cbn.
  by rewrite <- app_assoc.
Qed.

Lemma add_to_user_and_total fuel u start_day vary nm acti (w w' : World) u' :
  name u ≠ "total" →
  synthesize_activities fuel u start_day vary [(nm, acti)] w = Ok (u', w') →
  ∃ rate runtimes total tor' ua' w1 mine all,
    runs_per_day u !! nm = Some rate ∧
    possible_runtimes u !! nm = Some runtimes ∧
    ActivityModel_synthesize fuel acti (days u) rate runtimes (availability u)
                             start_day vary w
    = Ok ((total, tor', ua'), w1) ∧
    w_powers w1 !! name u = Some mine ∧
    w_powers w1 !! "total" = Some all ∧
    (all_bindings_satisfied acti = true →
     w_powers w !! activity_type acti = None →
     w_powers w1 !! activity_type acti = Some total) ∧
    (length total = length mine → length total = length all →
     w_powers w'
     = <["total" := zip_with Qcplus all total]>
         (<[name u := zip_with Qcplus mine total]> (w_powers w1))).
Proof.
  intros Hname Hr. cbn [synthesize_activities] in Hr.
  apply bind_Ok in Hr as ([[total tor'] ua'] & w1 & Hsyn & Hr).
  destruct (runs_per_day u !! nm) as [rate|]; [|done].
  destruct (possible_runtimes u !! nm) as [runtimes|]; [|done].
  cbv zeta in Hr. cbn [fst snd name] in Hr.
  apply bind_Ok in Hr as ([] & w2 & Hmine & Hr).
  apply bind_Ok in Hr as ([] & w3 & Hall & [= _ <-]).
  apply iadd_power_Ok in Hmine as (mine & Hm & _ & Hp2).
  apply iadd_power_Ok in Hall as (all & Ha & _ & Hp3).
  rewrite Hp2, lookup_insert_ne in Ha by done.
  exists rate, runtimes, total, tor', ua', w1, mine, all.
  do 5 (split; [done|]). split.
  { intros Hsat Hnone.
    by destruct (synthesize_fresh_column _ _ _ _ _ _ _ _ _ _ _ _ _ Hsat Hnone
                   Hsyn) as (_ & _ & Hcol & _). }
  intros L1 L2. rewrite Hp3, Hp2. unfold increment.
  by rewrite !decide_True by done.
Qed.

(** C9 (as amended).  An appliance whose active program is one ON_OFF
    component with duration fraction 1.0 and on-power 60.

    (1) Waveform synthesis at an offset [t] with duration 10, the seconds
    [t, t+10) lying in the appliance's arrays, returns a per-cycle array
    that is 60 on exactly those ten seconds and 0 elsewhere; the
    cumulative power array of the appliance grows by that array, exactly
    the ten bits [t, t+10) of the busy bitmap are set, and nothing else
    changes.

    (2) The scheduled operation of an activity instance that makes this
    call adds the same returned array to the activity's array and to the
    activity's entry of the powers map, and logs ON at [t] and OFF at
    [t + 9].

    (3) The array that the synthesis of an activity returns is what the
    entry of the activity type in the powers map holds, when the call
    created that entry; the synthesis of a user adds the returned array to
    the user's entry and to the entry [total] of the powers map. *)
Theorem onoff_60_for_10_seconds :
  (∀ fuel (w : World) addr app t,
     w_appliances w !! addr = Some app →
     comps app = [OnOffModel (qc 60) (qc 1)] →
     0 ≤ t →
     t + 10 ≤ Z.of_nat (length (total_power app)) →
     ∃ cycle,
       ApplianceModel_synthesize fuel (Some addr) t 10 w
       = Ok (cycle,
             mkWorld (w_random w) (w_numpy w)
                     (<[addr := mkAppliance (appliance_type app)
                                  (model_folder app) (usual_duration app)
                                  (comps app)
                                  (slice_fill (busy app) t (t + 10) true)
                                  (zip_with Qcplus (total_power app) cycle)]>
                        (w_appliances w))
                     (w_powers w) (w_events w) (w_log w)) ∧
       is_block t (length (total_power app)) cycle ∧
       (∀ (n : nat) x, total_power app !! n = Some x →
          zip_with Qcplus (total_power app) cycle !! n
          = Some (if in_window t 10 n then (x + qc 60)%Qc else x)) ∧
       length (slice_fill (busy app) t (t + 10) true) = length (busy app) ∧
       (∀ (n : nat) b, busy app !! n = Some b →
          slice_fill (busy app) t (t + 10) true !! n
          = Some (if in_window t 10 n then true else b))) ∧
  (∀ fuel a s power final (w : World) addr app col,
     w_appliances w !! addr = Some app →
     comps app = [OnOffModel (qc 60) (qc 1)] →
     length power = length (total_power app) →
     w_powers w !! activity_type a = Some col →
     length col = length (total_power app) →
     0 ≤ s →
     s + 10 ≤ Z.of_nat (length (total_power app)) →
     ∃ cycle,
       run_schedule fuel a s [(0, (Some addr, 10))] power final w
       = Ok ((zip_with Qcplus power cycle,
              if final <? s + 9 then s + 9 else final),
             mkWorld (w_random w) (w_numpy w)
                     (<[addr := mkAppliance (appliance_type app)
                                  (model_folder app) (usual_duration app)
                                  (comps app)
                                  (slice_fill (busy app) s (s + 10) true)
                                  (zip_with Qcplus (total_power app) cycle)]>
                        (w_appliances w))
                     (<[activity_type a := zip_with Qcplus col cycle]>
                        (w_powers w))
                     (w_events w
                      ++ [mkEvent s DEV (appliance_type app) ON;
                          mkEvent (s + 9) DEV (appliance_type app) OFF])
                     (w_log w)) ∧
       is_block s (length (total_power app)) cycle) ∧
  (∀ fuel u start_day vary nm acti (w w' : World) u',
     name u ≠ "total" →
     synthesize_activities fuel u start_day vary [(nm, acti)] w
     = Ok (u', w') →
     ∃ rate runtimes total tor' ua' w1 mine all,
       runs_per_day u !! nm = Some rate ∧
       possible_runtimes u !! nm = Some runtimes ∧
       ActivityModel_synthesize fuel acti (days u) rate runtimes
                                (availability u) start_day vary w
       = Ok ((total, tor', ua'), w1) ∧
       w_powers w1 !! name u = Some mine ∧
       w_powers w1 !! "total" = Some all ∧
       (all_bindings_satisfied acti = true →
        w_powers w !! activity_type acti = None →
        w_powers w1 !! activity_type acti = Some total) ∧
       (length total = length mine → length total = length all →
        w_powers w'
        = <["total" := zip_with Qcplus all total]>
            (<[name u := zip_with Qcplus mine total]> (w_powers w1)))).
Proof.
  split; [|split].
  - intros fuel w addr app t Happ Hcomps Ht Hend.
    destruct (onoff_cycle_in_window fuel w addr app t Happ Hcomps Ht Hend)
      as (cycle & total' & Hsyn & Hlen & Hcycle & -> & Hsum).
    exists cycle. split; [done|].
    split; [split; [done|]; intros n Hn; apply Hcycle; lia|].
    split; [done|]. split; [apply length_slice_fill|].
    intros n b Hb. rewrite slice_fill_lookup_nonneg by lia. by rewrite Hb.
  - intros. by eapply run_one_onoff.
  - intros. by eapply add_to_user_and_total.
Qed.

End OnOffFacts.

(** ** The further properties at concrete inputs *)

(** A working day, 08:00-18:00. *)
Definition office_hours : list RangeText :=
  [FromTo (HourMin (IntOf 8) (IntOf 0)) (HourMin (IntOf 18) (IntOf 0))].

Lemma timerange_bitmap_bits_witness :
  ∃ bmp,
    get_bitmap_from_timerange office_hours = Ok bmp ∧
    Z.of_nat (length bmp) = Tools.secs_per_day ∧
    ∀ n : nat,
      bmp !! n = Some true ↔
      Z.of_nat n < Tools.secs_per_day ∧
      ∃ r f t, r ∈ office_hours ∧ range_window r = Some (f, t) ∧
               f ≤ Z.of_nat n < t.
Proof.
  assert (is_Ok (get_bitmap_from_timerange office_hours) = true) as Hok
    by (vm_compute; reflexivity).
  destruct (get_bitmap_from_timerange office_hours) as [bmp| |] eqn:E;
    [|discriminate Hok|discriminate Hok].
  exists bmp. split; [reflexivity|].
  exact (timerange_bitmap_bits office_hours bmp E).
Defined.

Lemma weekly_bitmap_days_witness :
  ∃ bmp,
    get_bitmap_from_weekday_list {["monday" := office_hours]} 2 6 = Ok bmp ∧
    Z.of_nat (length bmp) = Tools.secs_per_day * 2 ∧
    ∀ (i : Z) (n : nat),
      0 ≤ i < 2 → Z.of_nat n < Tools.secs_per_day →
      ∃ day,
        weekdays ((6 + i) `mod` 7) = Some day ∧
        match ({["monday" := office_hours]} : gmap string (list RangeText))
                !! day with
        | None =>
            bmp !! Z.to_nat (i * Tools.secs_per_day + Z.of_nat n) = Some false
        | Some ranges =>
            ∃ b, get_bitmap_from_timerange ranges = Ok b ∧
                 bmp !! Z.to_nat (i * Tools.secs_per_day + Z.of_nat n) = b !! n
        end.
Proof.
  assert (is_Ok (get_bitmap_from_weekday_list
                   {["monday" := office_hours]} 2 6) = true) as Hok
    by (vm_compute; reflexivity).
  destruct (get_bitmap_from_weekday_list {["monday" := office_hours]} 2 6)
    as [bmp| |] eqn:E; [|discriminate Hok|discriminate Hok].
  exists bmp. split; [reflexivity|].
  exact (weekly_bitmap_days {["monday" := office_hours]} 2 6 bmp E).
Defined.

Lemma bind_to_appliance_effect_witness :
  dict_get (appliance_binding (bind_to_appliance unbound_lighting "lamp" "lamp").1)
           "lamp" = Some (Some "lamp") ∧
  (bind_to_appliance unbound_lighting "kettle" "kettle").1 = unbound_lighting.
Proof.
  split.
  - apply (proj1 (bind_to_appliance_effect unbound_lighting "lamp" "lamp")).
    + apply list_elem_of_here.
    + apply list_elem_of_here.
  - apply (proj2 (bind_to_appliance_effect unbound_lighting "kettle" "kettle")).
    intros [Hreq _]. apply list_elem_of_In in Hreq. simpl in Hreq.
    destruct Hreq as [Hreq|[]]. discriminate Hreq.
Defined.

(** A user whose only activity is the freshly constructed lighting
    activity, and a two-user household. *)
Definition fresh_lighting : ActivityModel :=
  ActivityModel_init "lighting" [(1, "lamp")] [(0, Decoded (one_state 10 10 true))].

Definition resident (nm : string) : UserModel :=
  mkUser nm 1 [] [("lighting", fresh_lighting)] {["lighting" := qc 1]}
         {["lighting" := []]}.

Definition small_lamp : ApplianceModel :=
  mkAppliance "lamp" [lamp_file] 10 [OnOffModel (qc 60) (qc 1)]
              (replicate 20 false) (replicate 20 0%Qc).

Lemma binding_loop_outcome_witness :
  ∃ r, bind_users {["lamp" := small_lamp]} get_required_devices
                  [resident "anna"; resident "ben"] = Some r ∧
       name <$> r.1 = ["anna"; "ben"] ∧
       ∀ u' nm a', u' ∈ r.1 → (nm, a') ∈ activities u' →
                   all_bindings_satisfied a' = true.
Proof.
  pose proof (binding_loop_outcome {["lamp" := small_lamp]}
                get_required_devices [resident "anna"; resident "ben"]) as H.
  destruct (bind_users _ _ _) as [r|] eqn:E.
  - exists r. split; [reflexivity|].
    destruct H as (_ & Hnames & Hacts).
    + intros u nm a Hu Ha.
      assert (a = fresh_lighting) as ->.
      { apply list_elem_of_In in Hu. simpl in Hu.
        destruct Hu as [<-|[<-|[]]]; apply list_elem_of_In in Ha;
          simpl in Ha; destruct Ha as [Ha|[]]; congruence. }
      split.
      * apply NoDup_cons. split; [apply not_elem_of_nil | apply NoDup_nil_2].
      * intros ty. reflexivity.
    + intros u ty _. reflexivity.
    + split; [exact Hnames|]. intros u' nm a' Hu Ha.
      exact (proj1 (Hacts u' nm a' Hu Ha)).
  - vm_compute in E. discriminate E.
Defined.

(** A hiss: Gaussian noise around 5 W, kept within [2, 8]. *)
Definition hiss : Component := NoiseModel (qc 1) (qc 2) (qc 5) (qc 2) (qc 8).

Definition small_world : @World Tape NormalTape :=
  mkWorld [7; 3] [qc 1; qc 4; qc (-1)] {["lamp" := small_lamp]} ∅ [] [].

Lemma appliance_synthesize_accumulates_witness :
  ∃ cycle w',
    ApplianceModel_synthesize 5 (Some "lamp") 4 10 small_world = Ok (cycle, w') ∧
    length cycle = 20%nat ∧
    w_appliances w' !! "lamp"
    = Some (mkAppliance "lamp" [lamp_file] 10 [OnOffModel (qc 60) (qc 1)]
              (slice_fill (replicate 20 false) 4 (4 + 10) true)
              (zip_with Qcplus (replicate 20 0%Qc) cycle)) ∧
    w_random w' = [7; 3].
Proof.
  destruct (ApplianceModel_synthesize 5 (Some "lamp") 4 10 small_world)
    as [[cycle w']| |] eqn:E;
    [|vm_compute in E; discriminate E|vm_compute in E; discriminate E].
  exists cycle, w'. split; [reflexivity|].
  destruct (appliance_synthesize_accumulates 5 "lamp" 4 10 small_world w' cycle E)
    as (app & Happ & Hlen & Hheap & _ & Hrnd & _).
  assert (app = small_lamp) as ->.
  { pose proof (lookup_singleton_eq "lamp" small_lamp
                : w_appliances small_world !! "lamp" = Some small_lamp) as H0.
    congruence. }
  split; [exact Hlen|]. split; [|exact Hrnd].
  rewrite Hheap. apply lookup_insert_eq.
Defined.

Lemma appliance_synthesize_overrun_raises_witness :
  ApplianceModel_synthesize 5 (Some "lamp") 15 10 small_world
  = Raise ValueError.
Proof.
  apply (appliance_synthesize_overrun_raises 5 "lamp" 15 10 small_world
           small_lamp (OnOffModel (qc 60) (qc 1)) []).
  - exact (lookup_singleton_eq "lamp" small_lamp).
  - reflexivity.
  - reflexivity.
  - apply Qc_is_canon. reflexivity.
  - lia.
  - lia.
  - vm_compute. reflexivity.
Defined.

Lemma pick_another_model_effect_witness :
  ∃ w',
    ApplianceModel_pick_another_model (Some "lamp") small_world = Ok (tt, w') ∧
    w_random w' = [3] ∧
    w_appliances w' !! "lamp"
    = Some (mkAppliance "lamp" [lamp_file] 10 [OnOffModel (qc 60) (qc 1)]
              (replicate 20 false) (replicate 20 0%Qc)).
Proof.
  destruct (pick_another_model_effect "lamp" small_world small_lamp
              (lookup_singleton_eq "lamp" small_lamp)) as [_ H].
  destruct (ApplianceModel_pick_another_model (Some "lamp") small_world)
    as [[[] w']| |] eqn:E;
    [|vm_compute in E; discriminate E|vm_compute in E; discriminate E].
  destruct (H tt w' eq_refl) as (mf & Hfile & Hrand & Hheap & _).
  exists w'. split; [reflexivity|]. split; [exact Hrand|].
  rewrite Hheap, lookup_insert_eq.
  change (Some lamp_file = Some mf) in Hfile. injection Hfile as <-.
  reflexivity.
Defined.

Lemma noise_samples_within_bounds_witness :
  ∃ samples w',
    Component_synthesize 5 hiss 3 small_world = Ok (samples, w') ∧
    length samples = 3%nat ∧
    (∀ y, y ∈ samples → (qc 2 <= y)%Qc ∧ (y <= qc 8)%Qc) ∧
    w_random w' = [7; 3].
Proof.
  destruct (Component_synthesize 5 hiss 3 small_world)
    as [[samples w']| |] eqn:E;
    [|vm_compute in E; discriminate E|vm_compute in E; discriminate E].
  exists samples, w'. split; [reflexivity|].
  destruct (noise_samples_within_bounds 5 (qc 1) (qc 2) (qc 5) (qc 2) (qc 8) 3
              small_world w' samples E) as (Hlen & Hall & Hrnd & _).
  split; [exact Hlen|]. split; [exact Hall | exact Hrnd].
Defined.

(** Twelve seconds with two free stretches; only the second one holds
    four seconds. *)
Definition two_gaps : list bool :=
  [false; true; true; true; false; true; true; true; true; true; false; false].

Lemma find_slot_finds_free_run_witness :
  ∃ s g, find_slot two_gaps 1 10 4 12 small_world
         = Ok (s, with_random g small_world) ∧
         s ≠ -1 ∧ 1 ≤ s ∧ free_run two_gaps s 4.
Proof.
  apply (find_slot_finds_free_run two_gaps 1 10 4 5 small_world).
  - reflexivity.
  - reflexivity.
  - lia.
  - split; [lia|]. split; [simpl; lia|].
    intros n Hn.
    assert (n = 5 ∨ n = 6 ∨ n = 7 ∨ n = 8)%nat as [->|[->|[->| ->]]] by lia;
      reflexivity.
Defined.

(** A world whose total holds three samples, one of them far below
    zero. *)
Definition noisy_world : @World Tape NormalTape :=
  mkWorld [7; 3] [qc 1; qc 4; qc (-1)] ∅
          {["total" := [qc 3; qc (-20); qc 0]]} [] [].

Lemma add_noise_effect_witness :
  (∃ w',
     add_noise (Gaussian (-10)) noisy_world = Ok (tt, w') ∧
     w_powers w' = <["total" := [qc 14; qc 0; qc 9]]> (w_powers noisy_world) ∧
     w_numpy w' = []) ∧
  (∃ w',
     add_noise (Constant (-10)) noisy_world = Ok (tt, w') ∧
     w_powers w' = <["total" := [qc 13; qc (-10); qc 10]]>
                     (w_powers noisy_world)).
Proof.
  split.
  - destruct (add_noise (Gaussian (-10)) noisy_world) as [[[] w']| |] eqn:E;
      [|vm_compute in E; discriminate E|vm_compute in E; discriminate E].
    destruct (add_noise_effect (Gaussian (-10)) noisy_world w'
                [qc 3; qc (-20); qc 0]
                (lookup_singleton_eq "total" [qc 3; qc (-20); qc 0]) E)
      as (total' & Hp & Hlen & [(samples & w1 & Hs & _ & Hnp & Htot) _] & _).
    assert (samples = [qc 11; qc 14; qc 9] ∧ w_numpy w1 = []) as [-> Hw1].
    { vm_compute in Hs. injection Hs as <- <-. split; [|reflexivity].
      repeat f_equal; apply Qc_is_canon; reflexivity. }
    exists w'. split; [reflexivity|]. split; [|congruence].
    rewrite Hp, Htot. reflexivity.
  - destruct (add_noise (Constant (-10)) noisy_world) as [[[] w']| |] eqn:E;
      [|vm_compute in E; discriminate E|vm_compute in E; discriminate E].
    destruct (add_noise_effect (Constant (-10)) noisy_world w'
                [qc 3; qc (-20); qc 0]
                (lookup_singleton_eq "total" [qc 3; qc (-20); qc 0]) E)
      as (total' & Hp & _ & [Htotal _] & _).
    exists w'. split; [reflexivity|]. rewrite Hp, Htotal.
    reflexivity.
Defined.

Lemma linear_ramp_endpoints_witness :
  ∃ samples,
    Component_synthesize 0 (LinearModel (qc 1) (qc 0) (qc 100)) 5 noisy_world
    = Ok (samples, noisy_world) ∧
    length samples = 5%nat ∧
    samples !! 0%nat = Some (qc 0) ∧
    samples !! 4%nat = Some (qc 100).
Proof.
  apply (linear_ramp_endpoints 0 (qc 1) (qc 0) (qc 100) 5 noisy_world). lia.
Defined.

(** Reading: the user switches the lamp on without waiting for it, reads
    for between 20 and 30 seconds, and leaves. *)
Definition reading : ActivityModel :=
  mkActivity "reading" ["lamp"] [("lamp", Some "lamp")]
             (<[1 := "lamp"]> {[0 := "None"]})
             (<[1 := Decoded (mkState "read" 20 30 true true 0 (qc 1) 2 2)]>
                {[0 := Decoded (mkState "switch" 0 0 true false 1 (qc 1) 1 1)]}).

Lemma process_model_schedule_sane_witness :
  ∃ duration schedule umin umax w',
    process_model 5 reading true small_world
    = Ok ((duration, Some schedule, umin, umax), w') ∧
    0 ≤ duration ∧
    StronglySorted Z.lt schedule.*1 ∧
    (∀ off b dur, (off, (b, dur)) ∈ schedule → 0 ≤ off < duration ∧ 1 ≤ dur) ∧
    0 ≤ umax ≤ duration.
Proof.
  destruct (process_model 5 reading true small_world)
    as [[[[[duration [schedule|]] umin] umax] w']| |] eqn:E;
    [|vm_compute in E; discriminate E|vm_compute in E; discriminate E
     |vm_compute in E; discriminate E].
  exists duration, schedule, umin, umax, w'. split; [reflexivity|].
  destruct (process_model_schedule_sane 5 reading true small_world w' duration
              schedule umin umax) as (H1 & H2 & H3 & H4 & _).
  - intros k r Hk. unfold reading in Hk. simpl in Hk.
    apply lookup_insert_Some in Hk as [[_ <-]|[_ Hk]].
    + right. simpl. lia.
    + apply lookup_singleton_Some in Hk as [_ <-]. left. done.
  - intros addr app Happ.
    change (w_appliances small_world) with
      ({["lamp" := small_lamp]} : gmap string ApplianceModel) in Happ.
    apply lookup_singleton_Some in Happ as [_ <-]. simpl. split; [lia|].
    intros mf Hmf. apply list_elem_of_singleton in Hmf as ->. simpl. lia.
  - exact E.
  - split; [exact H1|]. split; [exact H2|]. split; [exact H3 | exact H4].
Defined.

(** One day in the life of a user who lights the lamp once a day. *)
Definition anna : UserModel :=
  mkUser "anna" 1 all_free [("lighting", lighting)] {["lighting" := qc 1]}
         {["lighting" := all_free]}.

Definition day_world : @World Tape NormalTape :=
  mkWorld [1; 500; 0; 0; 4000; 77] [] {["lamp" := lamp]} {["total" := zeros]}
          [] [].

Lemma synthesis_only_consumes_free_time_witness :
  ∃ u' w',
    UserModel_synthesize 100 anna 0 false day_world = Ok (u', w') ∧
    name u' = "anna" ∧
    length (availability u') = length all_free ∧
    never_freed all_free (availability u').
Proof.
  assert (is_Ok (UserModel_synthesize 100 anna 0 false day_world) = true)
    as Hok by (vm_compute; reflexivity).
  destruct (UserModel_synthesize 100 anna 0 false day_world)
    as [[u' w']| |] eqn:E; [|discriminate Hok|discriminate Hok].
  exists u', w'. split; [reflexivity|].
  destruct (proj2 synthesis_only_consumes_free_time 100%nat anna 0 false day_world
              w' u' E) as (Hname & _ & _ & _ & Hlen & Hnf & _).
  split; [exact Hname|]. split; [exact Hlen | exact Hnf].
Defined.

Definition empty_world : @World Tape NormalTape :=
  mkWorld [3; 8] [] ∅ ∅ [] [].

Lemma init_appliances_creates_witness :
  ∃ w' app,
    init_appliances [("lamp", [lamp_file]); ("kettle", [lamp_file; lamp_file])]
                    1 empty_world = Ok (tt, w') ∧
    w_appliances w' !! "kettle" = Some app ∧
    appliance_type app = "kettle" ∧
    Z.of_nat (length (busy app)) = Tools.secs_per_day.
Proof.
  assert (is_Ok (init_appliances
                   [("lamp", [lamp_file]); ("kettle", [lamp_file; lamp_file])]
                   1 empty_world) = true) as Hok by (vm_compute; reflexivity).
  destruct (init_appliances
              [("lamp", [lamp_file]); ("kettle", [lamp_file; lamp_file])]
              1 empty_world) as [[[] w']| |] eqn:E;
    [|discriminate Hok|discriminate Hok].
  destruct (init_appliances_creates _ _ _ _ E) as (_ & Hin & _).
  destruct (Hin "kettle") as (folder & app & _ & Happ & Htype & _ & Hbusy & _).
  { apply list_elem_of_further, list_elem_of_here. }
  exists w', app. split; [reflexivity|]. split; [exact Happ|].
  split; [exact Htype|]. rewrite Hbusy, length_replicate.
  apply Z2Nat.id. unfold Tools.secs_per_day. lia.
Defined.

Lemma activity_column_is_returned_power_witness :
  ∃ power tor' ua' w',
    ActivityModel_synthesize 100 lighting 1 (qc 1) all_free all_free 0 false
                             day_world
    = Ok ((power, tor', ua'), w') ∧
    Z.of_nat (length power) = Tools.secs_per_day ∧
    w_powers w' !! "lighting" = Some power ∧
    w_powers w' !! "total" = Some zeros.
Proof.
  assert (is_Ok (ActivityModel_synthesize 100 lighting 1 (qc 1) all_free
                   all_free 0 false day_world) = true) as Hok
    by (vm_compute; reflexivity).
  destruct (ActivityModel_synthesize 100 lighting 1 (qc 1) all_free all_free 0
              false day_world) as [[[[power tor'] ua'] w']| |] eqn:E;
    [|discriminate Hok|discriminate Hok].
  exists power, tor', ua', w'. split; [reflexivity|].
  assert (w_powers day_world !! "lighting" = None) as Hnone
    by (apply lookup_singleton_ne; discriminate).
  destruct (activity_column_is_returned_power 100 lighting 1 (qc 1) all_free
              all_free 0 false day_world w' power tor' ua' eq_refl Hnone E)
    as (_ & Hlen & Hcol & Hrest).
  split; [|split].
  - rewrite Hlen. apply Z2Nat.id. unfold Tools.secs_per_day. lia.
  - exact Hcol.
  - rewrite (Hrest "total") by discriminate.
    exact (lookup_singleton_eq "total" zeros).
Defined.

(** A kettle: a decaying inrush on top of 2000 W, then a short ramp
    down. *)
Definition kettle_comps : list Component :=
  [OnOffDecayModel (qc 2000) (qc 150) (qc 1) (qc 90);
   LinearModel (qc 10) (qc 2000) (qc 0)].

Lemma written_components_read_back_witness :
  ∃ loads,
    Forall2 (λ c load, Xml.append_as_xml_to c (qc 100) = Some load)
            kettle_comps loads ∧
    Xml.read_components loads = Ok (Xml.read_back (qc 100) <$> kettle_comps) ∧
    Xml.read_back (qc 100) <$> kettle_comps
    = [OnOffDecayModel (qc 2000) (qc 2150) (qc 1) (Q2Qc (9 # 10));
       LinearModel (Q2Qc (1 # 10)) (qc 2000) (qc 0)].
Proof.
  destruct (written_components_read_back kettle_comps (qc 100))
    as (loads & Hall & Hread & _).
  - intros H. discriminate H.
  - exists loads. split; [exact Hall|]. split; [exact Hread|].
    unfold kettle_comps. cbn [fmap list_fmap Xml.read_back].
    repeat f_equal; apply Qc_is_canon; reflexivity.
Defined.

Lemma process_model_returns_witness :
  ∃ duration schedule umin umax w',
    process_model 2 reading false small_world
    = Ok ((duration, Some schedule, umin, umax), w').
Proof.
  apply (process_model_returns 2 reading small_world).
  - intros k Hk.
    change (size (state_machine reading)) with 2%nat in Hk.
    assert (k = 0 ∨ k = 1) as [-> | ->] by lia.
    + exists (mkState "switch" 0 0 true false 1 (qc 1) 1 1).
      split; [reflexivity|]. split; [simpl; lia|]. split; [simpl; lia|].
      exists "lamp". split; [reflexivity|]. intros _. apply list_elem_of_here.
    + exists (mkState "read" 20 30 true true 0 (qc 1) 2 2).
      split; [reflexivity|]. split; [simpl; lia|]. split; [simpl; lia|].
      exists "None". split; [reflexivity|]. intros Hdev. by destruct Hdev.
  - intros ty b Hb. apply list_elem_of_singleton in Hb as [= -> ->].
    exists "lamp", small_lamp. split; [reflexivity|].
    exact (lookup_singleton_eq "lamp" small_lamp).
  - change (size (state_machine reading)) with 2%nat. lia.
Defined.

(** C9 at concrete inputs: a lamp over 20 seconds switched on at second 4,
    the same operation scheduled by the activity [lighting], and the
    synthesis of that activity for a user on one day. *)
Definition lit_world : @World Tape NormalTape :=
  mkWorld [] [] {["lamp" := small_lamp]} {["lighting" := replicate 20 0%Qc]}
          [] [].

Definition evening_world : @World Tape NormalTape :=
  mkWorld [500; 0; 0; 4000; 77] [] {["lamp" := lamp]}
          (<["anna" := zeros]> {["total" := zeros]}) [] [].

Lemma onoff_60_for_10_seconds_witness :
  (∃ cycle,
     ApplianceModel_synthesize 5 (Some "lamp") 4 10 small_world
     = Ok (cycle,
           mkWorld [7; 3] [qc 1; qc 4; qc (-1)]
                   (<["lamp" := mkAppliance "lamp" [lamp_file] 10
                                  [OnOffModel (qc 60) (qc 1)]
                                  (slice_fill (replicate 20 false) 4 (4 + 10)
                                              true)
                                  (zip_with Qcplus (replicate 20 0%Qc) cycle)]>
                      (w_appliances small_world))
                   ∅ [] []) ∧
     is_block 4 20 cycle) ∧
  (∃ cycle,
     run_schedule 5 lighting 4 [(0, (Some "lamp", 10))] (replicate 20 0%Qc) 0
                  lit_world
     = Ok ((zip_with Qcplus (replicate 20 0%Qc) cycle, 13),
           mkWorld [] []
                   (<["lamp" := mkAppliance "lamp" [lamp_file] 10
                                  [OnOffModel (qc 60) (qc 1)]
                                  (slice_fill (replicate 20 false) 4 (4 + 10)
                                              true)
                                  (zip_with Qcplus (replicate 20 0%Qc) cycle)]>
                      (w_appliances lit_world))
                   (<["lighting" := zip_with Qcplus (replicate 20 0%Qc) cycle]>
                      (w_powers lit_world))
                   [mkEvent 4 DEV "lamp" ON; mkEvent 13 DEV "lamp" OFF] []) ∧
     is_block 4 20 cycle) ∧
  (∃ u' w' total tor' ua' w1 mine all,
     synthesize_activities 100 anna 0 false [("lighting", lighting)]
                           evening_world = Ok (u', w') ∧
     ActivityModel_synthesize 100 lighting 1 (qc 1) all_free all_free 0 false
                              evening_world
     = Ok ((total, tor', ua'), w1) ∧
     w_powers w1 !! "anna" = Some mine ∧
     w_powers w1 !! "total" = Some all ∧
     w_powers w1 !! "lighting" = Some total).
Proof.
  destruct (@onoff_60_for_10_seconds Tape NormalTape _ _) as (H1 & H2 & H3).
  split; [|split].
  - destruct (H1 5%nat small_world "lamp" small_lamp 4
                (lookup_singleton_eq "lamp" small_lamp) eq_refl
                ltac:(lia) ltac:(simpl; lia)) as (cycle & Hsyn & Hblock & _).
    exists cycle. split; [exact Hsyn | exact Hblock].
  - destruct (H2 5%nat lighting 4 (replicate 20 0%Qc) 0 lit_world "lamp"
                small_lamp (replicate 20 0%Qc)
                (lookup_singleton_eq "lamp" small_lamp) eq_refl
                eq_refl (lookup_singleton_eq "lighting" (replicate 20 0%Qc))
                eq_refl ltac:(lia) ltac:(simpl; lia))
      as (cycle & Hrun & Hblock).
    exists cycle. split; [exact Hrun | exact Hblock].
  - assert (is_Ok (synthesize_activities 100 anna 0 false
                     [("lighting", lighting)] evening_world) = true) as Hok
      by (vm_compute; reflexivity).
    destruct (synthesize_activities 100 anna 0 false [("lighting", lighting)]
                evening_world) as [[u' w']| |] eqn:E;
      [|discriminate Hok|discriminate Hok].
    destruct (H3 100%nat anna 0 false "lighting" lighting evening_world w' u'
                ltac:(discriminate) E)
      as (rate & runtimes & total & tor' & ua' & w1 & mine & all & Hrate
          & Hrun & Hsyn & Hmine & Hall & Hcol & _).
    assert (rate = qc 1) as ->.
    { pose proof (lookup_singleton_eq "lighting" (qc 1)
                  : runs_per_day anna !! "lighting" = Some (qc 1)) as Hq.
      congruence. }
    assert (runtimes = all_free) as ->.
    { pose proof (lookup_singleton_eq "lighting" all_free
                  : possible_runtimes anna !! "lighting" = Some all_free) as Hq.
      congruence. }
    exists u', w', total, tor', ua', w1, mine, all.
    split; [reflexivity|]. split; [exact Hsyn|].
    split; [exact Hmine|]. split; [exact Hall|].
    apply Hcol; [reflexivity|].
    change (w_powers evening_world)
      with (<["anna" := zeros]> ({["total" := zeros]} : gmap string (list Qc))).
    rewrite lookup_insert_ne by discriminate.
    apply lookup_singleton_ne. discriminate.
Defined.

(** C9 without the bounds on the offset: the lamp of one day switched on
    five seconds before the end of the day, and five seconds before its
    start.  In the first case the slice of the per-cycle array has five
    samples, in the second none (a negative start counts from the end of
    the array); the component has ten, and the addition raises. *)
Lemma onoff_60_for_10_seconds_counterexample :
  w_appliances lamp_world !! "lamp" = Some lamp ∧
  comps lamp = [OnOffModel (qc 60) (qc 1)] ∧
  Z.of_nat (length (total_power lamp)) = 86400 ∧
  ApplianceModel_synthesize 5 (Some "lamp") 86395 10 lamp_world
  = Raise ValueError ∧
  ApplianceModel_synthesize 5 (Some "lamp") (-5) 10 lamp_world
  = Raise ValueError ∧
  ¬ ∃ cycle w',
      ApplianceModel_synthesize 5 (Some "lamp") 86395 10 lamp_world
      = Ok (cycle, w').
Proof.
  assert (ApplianceModel_synthesize 5 (Some "lamp") 86395 10 lamp_world
          = Raise ValueError) as Hraise by (vm_compute; reflexivity).
  split; [exact (lookup_singleton_eq "lamp" lamp)|].
  split; [reflexivity|]. split; [by vm_compute|]. split; [exact Hraise|].
  split; [vm_compute; reflexivity|].
  intros (cycle & w' & Hok). rewrite Hraise in Hok. discriminate Hok.
Qed.

(** X2 at concrete inputs: [25:zz-26:00] returns a bitmap, since from
    hour 24 on the minute is not read; [08:zz-18:00] raises. *)
Lemma timerange_bitmap_errors_witness :
  (∃ bmp,
     get_bitmap_from_timerange
       [FromTo (HourMin (IntOf 25) NotInt) (HourMin (IntOf 26) (IntOf 0))]
     = Ok bmp) ∧
  get_bitmap_from_timerange
    [FromTo (HourMin (IntOf 8) NotInt) (HourMin (IntOf 18) (IntOf 0))]
  = Raise ValueError.
Proof.
  split.
  - exact (timerange_bitmap_errors
             [FromTo (HourMin (IntOf 25) NotInt)
                     (HourMin (IntOf 26) (IntOf 0))]).
  - exact (timerange_bitmap_errors
             [FromTo (HourMin (IntOf 8) NotInt)
                     (HourMin (IntOf 18) (IntOf 0))]).
Defined.
